(** * qTox raw database: a shallow embedding of [RawDatabaseImpl]

    The embedded code is [src/persistence/db/rawdatabaseimpl.cpp] (it is the
    third document of [src/src/widget/form/searchsettingsform.cpp]).

    The SQLCipher engine, the file system and toxencryptsave are outside the
    repository.  They are an abstract environment [Env]: every theorem of
    section [RawDatabase] holds for every such environment.  A small
    reference environment ([Ref]) instantiates it for concrete runs. *)

From Stdlib Require Import ZArith Lia Ascii String DecimalString DecimalZ.
From stdpp Require Import base option list strings gmap.

Local Open Scope Z_scope.

(** ** Strings

    [QString] and [QByteArray] are both modelled as [string] (a sequence of
    8-bit characters); [toUtf8] and [fromUtf8] are then the identity. *)

Definition dquote : string := String "034" EmptyString.

Definition isEmpty (s : string) : bool :=
  match s with EmptyString => true | _ => false end.

Fixpoint drop_chars (n : nat) (s : string) : string :=
  match n, s with
  | O, _ => s
  | S _, EmptyString => EmptyString
  | S n', String _ s' => drop_chars n' s'
  end.

Fixpoint take_chars (n : nat) (s : string) : string :=
  match n, s with
  | O, _ => EmptyString
  | S _, EmptyString => EmptyString
  | S n', String c s' => String c (take_chars n' s')
  end.

(** ** Engine constants (sqlite3.h) *)

Definition SQLITE_OK : Z := 0.
Definition SQLITE_ERROR : Z := 1.
Definition SQLITE_CONSTRAINT : Z := 19.
Definition SQLITE_MISUSE : Z := 21.
Definition SQLITE_ROW : Z := 100.
Definition SQLITE_DONE : Z := 101.

Definition SQLITE_INTEGER : Z := 1.
Definition SQLITE_TEXT : Z := 3.
Definition SQLITE_NULL : Z := 5.

(** ** Values handed to row callbacks *)

Inductive QVariant :=
| QV_Invalid
| QV_LongLong (z : Z)
| QV_String (s : string)
| QV_ByteArray (b : string).

Inductive LogLevel := Debug | Info | Warning | Critical.

(** [SqlCipherParams] is declared in [rawdatabaseimpl.h]; the order of its
    members is the one [readSavedCipherParams] walks through. *)
Inductive SqlCipherParams := p3_0 | halfUpgradedTo4 | p4_0.

Definition params_to_int (p : SqlCipherParams) : nat :=
  match p with p3_0 => 0 | halfUpgradedTo4 => 1 | p4_0 => 2 end%nat.

Definition params_of_int (i : nat) : SqlCipherParams :=
  match i with O => p3_0 | 1%nat => halfUpgradedTo4 | _ => p4_0 end.

(** ** The environment: SQLCipher, the file system, toxencryptsave *)

Inductive OpenResult (H : Type) :=
| OpenOk (h : H)
| OpenFailed (h : option H).
Arguments OpenOk {H} h.
Arguments OpenFailed {H} h.

Record Env := {
  World : Type;
  Handle : Type;
  Stmt : Type;
  sqlite3_open_v2 : string -> World -> OpenResult Handle * World;
  sqlite3_create_function : Handle -> string -> World -> Z * World;
  sqlite3_close : option Handle -> World -> Z * World;
  (* result code, statement and number of characters consumed *)
  sqlite3_prepare_v2 : Handle -> string -> World -> (Z * Stmt * nat) * World;
  sqlite3_bind_parameter_count : Stmt -> World -> nat;
  sqlite3_bind_blob : Stmt -> nat -> string -> World -> Z * World;
  sqlite3_column_count : Stmt -> World -> nat;
  sqlite3_step : Stmt -> World -> Z * World;
  sqlite3_column_type : Stmt -> nat -> World -> Z;
  sqlite3_column_int64 : Stmt -> nat -> World -> Z;
  sqlite3_column_text : Stmt -> nat -> World -> string;
  sqlite3_column_blob : Stmt -> nat -> World -> string;
  sqlite3_last_insert_rowid : Handle -> World -> Z;
  sqlite3_finalize : Stmt -> World -> World;
  QFile_exists : string -> World -> bool;
  QFile_copy : string -> string -> World -> bool * World;
  QFile_remove : string -> World -> bool * World;
  QFile_rename : string -> string -> World -> bool * World;
  (* the bytes of the Tox_Pass_Key that toxencryptsave derives *)
  tox_pass_key_derive_with_salt : string -> string -> string;
  TOX_PASS_SALT_LENGTH : nat
}.

(** ** Calls made to the environment, as a journal *)

Inductive Call :=
| c_open (path : string) (ok : bool)
| c_create_function (name : string) (rc : Z)
| c_close (rc : Z)
| c_begin_query (sql : string)
| c_prepare (sql : string) (rc : Z)
| c_params_missing (sql : string)
| c_bind (index : nat) (rc : Z)
| c_step (sql : string) (rc : Z)
| c_finalize
| c_exists (path : string) (b : bool)
| c_copy (src dst : string) (b : bool)
| c_remove (path : string) (b : bool)
| c_rename (src dst : string) (b : bool)
| c_exec (sql : list string) (ok : bool).

(** The calls of the worker while it runs one statement; the others are the
    calls of the life cycle ([c_exec]: a transaction handed to [execNow] and
    the result it returned). *)
Definition low_level (c : Call) : bool :=
  match c with
  | c_begin_query _ | c_prepare _ _ | c_params_missing _ | c_bind _ _
  | c_step _ _ | c_finalize => true
  | _ => false
  end.

Fixpoint lifecycle (j : list Call) : list Call :=
  match j with
  | [] => []
  | c :: j' => if low_level c then lifecycle j' else c :: lifecycle j'
  end.

(** The failures of [compileAndExecute]: a statement that does not compile, a
    parameter that is missing or cannot be bound, a step that ends on
    anything but [SQLITE_DONE]. *)
Definition is_error (c : Call) : bool :=
  match c with
  | c_prepare _ rc => negb (rc =? SQLITE_OK)
  | c_params_missing _ => true
  | c_bind _ rc => negb (rc =? SQLITE_OK)
  | c_step _ rc => negb (rc =? SQLITE_ROW) && negb (rc =? SQLITE_DONE)
  | _ => false
  end.

(** The queries the worker started on. *)
Fixpoint started (j : list Call) : list string :=
  match j with
  | [] => []
  | c_begin_query sql :: j' => sql :: started j'
  | _ :: j' => started j'
  end.

Inductive CallbackEvent :=
| ev_row (client : nat) (row : list QVariant)
| ev_insert (client : nat) (rowid : Z).

(** A row callback is either absent, a closure of a client (its calls are
    recorded), or one of the two lambdas of this file, which store the first
    column into a local variable of the caller. *)
Inductive RowCallback :=
| NoRowCallback
| ClientRowCallback (client : nat)
| StoreFirstColumn (cell : nat).

(** ** Qt helpers used by the code *)

Definition QString_number (z : Z) : string :=
  DecimalString.NilZero.string_of_int (Z.to_int z).

Definition is_space (c : ascii) : bool :=
  match c with
  | "009" | "010" | "011" | "012" | "013" | " " => true
  | _ => false
  end%char.

Fixpoint trim_left (s : string) : string :=
  match s with
  | String c s' => if is_space c then trim_left s' else s
  | EmptyString => EmptyString
  end.

Fixpoint trim_right (s : string) : string :=
  match s with
  | String c s' =>
      match trim_right s' with
      | EmptyString => if is_space c then EmptyString else String c EmptyString
      | r => String c r
      end
  | EmptyString => EmptyString
  end.

(** [QString::toLongLong]: surrounding white space is skipped, a sign is
    allowed, and the result is 0 when the text is not a number. *)
Definition QString_toLongLong (s : string) : Z :=
  let t := trim_right (trim_left s) in
  let t := match t with String "+" r => r | _ => t end in
  match DecimalString.NilZero.int_of_string t with
  | Some d => Z.of_int d
  | None => 0
  end.

Definition INT_MIN : Z := - 2 ^ 31.
Definition INT_MAX : Z := 2 ^ 31 - 1.

(** [QString::toInt]: as above, and 0 when the number does not fit an [int]. *)
Definition QString_toInt (s : string) : Z :=
  let z := QString_toLongLong s in
  if (INT_MIN <=? z) && (z <=? INT_MAX) then z else 0.

(** Conversion of an [int64_t] to [int] (two's complement wrap-around). *)
Definition int_of_int64 (z : Z) : Z := (z + 2 ^ 31) mod 2 ^ 32 - 2 ^ 31.

(** [s.split('.')[0]]: the text before the first dot. *)
Fixpoint first_dot_segment (s : string) : string :=
  match s with
  | EmptyString => EmptyString
  | String c s' => if Ascii.eqb c "." then EmptyString else String c (first_dot_segment s')
  end.

Definition QVariant_toString (v : QVariant) : string :=
  match v with
  | QV_Invalid => EmptyString
  | QV_LongLong z => QString_number z
  | QV_String s => s
  | QV_ByteArray b => b
  end.

Definition QVariant_toLongLong (v : QVariant) : Z :=
  match v with
  | QV_Invalid => 0
  | QV_LongLong z => z
  | QV_String s => QString_toLongLong s
  | QV_ByteArray b => QString_toLongLong b
  end.

(** [QByteArray::toHex]: two lower-case digits per byte. *)
Definition hex_digit (n : N) : ascii :=
  match n with
  | 0 => "0" | 1 => "1" | 2 => "2" | 3 => "3" | 4 => "4" | 5 => "5"
  | 6 => "6" | 7 => "7" | 8 => "8" | 9 => "9" | 10 => "a" | 11 => "b"
  | 12 => "c" | 13 => "d" | 14 => "e" | _ => "f"
  end%N%char.

Fixpoint toHex (b : string) : string :=
  match b with
  | EmptyString => EmptyString
  | String c b' =>
      let n := N_of_ascii c in
      String (hex_digit (N.div n 16)) (String (hex_digit (N.modulo n 16)) (toHex b'))
  end.

(** ** Anonymisation of logged statements

    [QString::replace(QRegularExpression, after)] replaces the matches found
    from left to right, each search resuming behind the previous match.  The
    two patterns of [anonymizeQuery] are matched by hand-written matchers that
    return the text behind the match. *)

Definition in_range (lo hi c : ascii) : bool :=
  (N_of_ascii lo <=? N_of_ascii c)%N && (N_of_ascii c <=? N_of_ascii hi)%N.

(** [[A-F0-9]] *)
Definition is_upper_hex (c : ascii) : bool :=
  in_range "0" "9" c || in_range "A" "F" c.

(** [\d] (without the Unicode-properties option: ASCII digits) *)
Definition is_digit (c : ascii) : bool := in_range "0" "9" c.

Fixpoint match_lit (lit s : string) : option string :=
  match lit with
  | EmptyString => Some s
  | String c lit' =>
      match s with
      | String d s' => if Ascii.eqb c d then match_lit lit' s' else None
      | EmptyString => None
      end
  end.

(** [.] matches any character but a line feed. *)
Definition match_dot (s : string) : option string :=
  match s with
  | String c s' => if Ascii.eqb c "010" then None else Some s'
  | EmptyString => None
  end.

(** [[...]{n}] *)
Fixpoint match_count (p : ascii -> bool) (n : nat) (s : string) : option string :=
  match n with
  | O => Some s
  | S n' =>
      match s with
      | String c s' => if p c then match_count p n' s' else None
      | EmptyString => None
      end
  end.

(** The longest run of characters of a class; what is left behind it. *)
Fixpoint skip_while (p : ascii -> bool) (s : string) : string :=
  match s with
  | String c s' => if p c then skip_while p s' else s
  | EmptyString => EmptyString
  end.

(** [\d{5,}]: greedy, and what follows it in the pattern never starts with a
    digit, so the longest run is the only candidate. *)
Definition match_digits5 (s : string) : option string :=
  match match_count is_digit 5 s with
  | Some r => Some (skip_while is_digit r)
  | None => None
  end.

Definition opt_bind {A B} (o : option A) (f : A -> option B) : option B :=
  match o with Some a => f a | None => None end.

(** [chat.public_key='[A-F0-9]{64}'] *)
Definition match_public_key (s : string) : option string :=
  opt_bind (match_lit "chat" s) (fun r =>
  opt_bind (match_dot r) (fun r =>
  opt_bind (match_lit "public_key='" r) (fun r =>
  opt_bind (match_count is_upper_hex 64 r) (fun r =>
  match_lit "'" r)))).

(** [timestamp BETWEEN \d{5,} AND \d{5,}] *)
Definition match_timestamps (s : string) : option string :=
  opt_bind (match_lit "timestamp BETWEEN " s) (fun r =>
  opt_bind (match_digits5 r) (fun r =>
  opt_bind (match_lit " AND " r) (fun r =>
  match_digits5 r))).

(** [skip] counts the characters of the current match still to be dropped. *)
Fixpoint replace_from (m : string -> option string) (after : string)
    (skip : nat) (s : string) : string :=
  match s with
  | EmptyString => EmptyString
  | String c s' =>
      match skip with
      | S k => replace_from m after k s'
      | O =>
          match m s with
          | Some rest =>
              after +:+ replace_from m after
                          (String.length s' - String.length rest) s'
          | None => String c (replace_from m after O s')
          end
      end
  end.

Definition QString_replace (m : string -> option string) (after s : string) : string :=
  replace_from m after O s.

Definition anonymizeQuery (query : string) : string :=
  let queryString := query in
  let queryString :=
    QString_replace match_public_key "char.public_key='<HERE IS PUBLIC KEY>'" queryString in
  let queryString :=
    QString_replace match_timestamps "timestamp BETWEEN <START HERE> AND <END HERE>" queryString in
  queryString.

(** ** A reference environment

    A small model of SQLCipher and the file system, to run the code on
    concrete inputs: files carry their protection (key and cipher parameters),
    their user version and their rows; one connection is open at a time.  It
    understands the statements this file issues and two statements of a
    client. *)

Module Ref.

Record Cipher := mkCipher {
  page_size : string; kdf_iter : string; hmac : string; kdf : string
}.

Definition cipher4 : Cipher :=
  mkCipher "4096" "256000" "HMAC_SHA512" "PBKDF2_HMAC_SHA512".
Definition cipher3 : Cipher :=
  mkCipher "1024" "64000" "HMAC_SHA1" "PBKDF2_HMAC_SHA1".
Definition cipherHalf : Cipher :=
  mkCipher "4096" "256000" "HMAC_SHA1" "PBKDF2_HMAC_SHA1".

Definition cipher_eqb (a b : Cipher) : bool :=
  String.eqb (page_size a) (page_size b) && String.eqb (kdf_iter a) (kdf_iter b)
  && String.eqb (hmac a) (hmac b) && String.eqb (kdf a) (kdf b).

(** A file is empty ([Fresh]: it takes the protection of its first writer),
    readable without key, or encrypted. *)
Inductive Protection := Fresh | Plain | Encrypted (key : string) (c : Cipher).

Record File := mkFile {
  protection : Protection;
  user_version : Z;
  rows : list string;
  read_only : bool
}.

Record Attached := mkAttached {
  a_alias : string; a_path : string; a_key : string; a_cipher : Cipher
}.

Record Conn := mkConn {
  c_path : string;
  c_key : option string;
  c_cipher : Cipher;
  attached : list Attached;
  (* the file as it was at BEGIN, while a transaction is open *)
  snapshot : option File
}.

Inductive Sql :=
| s_begin | s_commit | s_nop
| s_key (k : string)
| s_rekey (k : string)
| s_cipher (db : option string) (name value : string)
| s_count_master
| s_cipher_version
| s_user_version_get
| s_user_version_set (db : option string) (v : Z)
| s_attach (p alias key : string)
| s_export (alias : string)
| s_detach (alias : string)
| s_insert
| s_select.

Record Prepared := mkPrepared {
  sql : Sql;
  bound : list string;
  row : list QVariant;
  pos : nat;
  live : bool
}.

Record RWorld := mkWorld {
  files : gmap string File;
  conn : option Conn;
  stmts : list Prepared;
  version : string;
  last_rowid : Z
}.

Definition set_files (f : gmap string File) (w : RWorld) : RWorld :=
  mkWorld f (conn w) (stmts w) (version w) (last_rowid w).
Definition set_conn (c : option Conn) (w : RWorld) : RWorld :=
  mkWorld (files w) c (stmts w) (version w) (last_rowid w).
Definition set_stmts (s : list Prepared) (w : RWorld) : RWorld :=
  mkWorld (files w) (conn w) s (version w) (last_rowid w).
Definition set_last_rowid (r : Z) (w : RWorld) : RWorld :=
  mkWorld (files w) (conn w) (stmts w) (version w) r.

(** *** The file system *)

Definition exists_ (p : string) (w : RWorld) : bool :=
  match files w !! p with Some _ => true | None => false end.

Definition copy (src dst : string) (w : RWorld) : bool * RWorld :=
  match files w !! src, files w !! dst with
  | Some f, None => (true, set_files (<[dst := f]> (files w)) w)
  | _, _ => (false, w)
  end.

Definition remove (p : string) (w : RWorld) : bool * RWorld :=
  match files w !! p with
  | Some _ => (true, set_files (delete p (files w)) w)
  | None => (false, w)
  end.

Definition rename (src dst : string) (w : RWorld) : bool * RWorld :=
  match files w !! src, files w !! dst with
  | Some f, None => (true, set_files (<[dst := f]> (delete src (files w))) w)
  | _, _ => (false, w)
  end.

(** *** Statements *)

(** The text before the first [c] and the text behind it. *)
Fixpoint until (c : ascii) (s : string) : option (string * string) :=
  match s with
  | EmptyString => None
  | String d s' =>
      if Ascii.eqb c d then Some (EmptyString, s')
      else match until c s' with
           | Some (a, b) => Some (String d a, b)
           | None => None
           end
  end.

(** Length of the first statement: up to the first semicolon outside quotes. *)
Fixpoint statement_length (quote : option ascii) (s : string) : nat :=
  match s with
  | EmptyString => 0
  | String c s' =>
      match quote with
      | Some q => S (statement_length (if Ascii.eqb c q then None else quote) s')
      | None =>
          if Ascii.eqb c ";" then 1
          else if Ascii.eqb c "'" || Ascii.eqb c "034"
               then S (statement_length (Some c) s')
               else S (statement_length None s')
      end%nat
  end.

Definition is_cipher_pragma (name : string) : bool :=
  String.eqb name "cipher_page_size" || String.eqb name "kdf_iter"
  || String.eqb name "cipher_hmac_algorithm" || String.eqb name "cipher_kdf_algorithm"
  || String.eqb name "cipher_memory_security".

(** [PRAGMA [db.]name = value;] *)
Definition parse_pragma (r : string) : option Sql :=
  match until " " r with
  | Some (target, r) =>
      match match_lit "= " r with
      | Some r =>
          match until ";" r with
          | Some (value, _) =>
              let (db, name) :=
                match until "." target with
                | Some (db, name) => (Some db, name)
                | None => (None, target)
                end in
              if String.eqb name "user_version"
              then Some (s_user_version_set db (QString_toLongLong value))
              else if is_cipher_pragma name then Some (s_cipher db name value)
              else Some s_nop
          | None => None
          end
      | None => None
      end
  | None => None
  end.

(** [KEY "x'...'"] or [KEY ''] *)
Definition parse_key (r : string) : option string :=
  match match_lit (dquote +:+ "x'") r with
  | Some r => match until "'" r with Some (k, _) => Some k | None => None end
  | None => match match_lit "''" r with Some _ => Some EmptyString | None => None end
  end.

Definition parse_attach (r : string) : option Sql :=
  match until "'" r with
  | Some (p, r) =>
      match match_lit " AS " r with
      | Some r =>
          match until " " r with
          | Some (alias, r) =>
              match match_lit "KEY " r with
              | Some r =>
                  match parse_key r with
                  | Some k => Some (s_attach p alias k)
                  | None => None
                  end
              | None => None
              end
          | None => None
          end
      | None => None
      end
  | None => None
  end.

Definition parse (t : string) : option Sql :=
  if String.eqb t "BEGIN;" then Some s_begin
  else if String.eqb t "COMMIT;" then Some s_commit
  else if String.eqb t "PRAGMA cipher_version" then Some s_cipher_version
  else if String.eqb t "PRAGMA user_version" then Some s_user_version_get
  else if String.eqb t "SELECT count(*) FROM sqlite_master;" then Some s_count_master
  else if String.eqb t "INSERT INTO history (message) VALUES (?);" then Some s_insert
  else if String.eqb t "SELECT message FROM history;" then Some s_select
  else
    match match_lit ("PRAGMA key = " +:+ dquote +:+ "x'") t with
    | Some r => match until "'" r with Some (k, _) => Some (s_key k) | None => None end
    | None =>
    match match_lit ("PRAGMA rekey = " +:+ dquote +:+ "x'") t with
    | Some r => match until "'" r with Some (k, _) => Some (s_rekey k) | None => None end
    | None =>
    match match_lit "ATTACH DATABASE '" t with
    | Some r => parse_attach r
    | None =>
    match match_lit "SELECT sqlcipher_export('" t with
    | Some r => match until "'" r with Some (a, _) => Some (s_export a) | None => None end
    | None =>
    match match_lit "DETACH DATABASE " t with
    | Some r => match until ";" r with Some (a, _) => Some (s_detach a) | None => None end
    | None =>
    match match_lit "PRAGMA " t with
    | Some r => parse_pragma r
    | None => None
    end end end end end end.

(** *** The connection *)

Definition new_file : File := mkFile Fresh 0 [] false.

Definition open_v2 (p : string) (w : RWorld) : OpenResult unit * RWorld :=
  let fs := match files w !! p with
            | Some _ => files w
            | None => <[p := new_file]> (files w)
            end in
  (OpenOk tt, set_conn (Some (mkConn p None cipher4 [] None)) (set_files fs w)).

Definition any_live (w : RWorld) : bool := existsb live (stmts w).

(** Closing rolls back an open transaction; it is refused while statements
    are not finalized. *)
Definition close (h : option unit) (w : RWorld) : Z * RWorld :=
  match h, conn w with
  | Some _, Some c =>
      if any_live w then (5, w)
      else
        let fs := match snapshot c with
                  | Some f => <[c_path c := f]> (files w)
                  | None => files w
                  end in
        (SQLITE_OK, set_conn None (set_files fs w))
  | _, _ => (SQLITE_OK, w)
  end.

Definition usable (c : Conn) (w : RWorld) : bool :=
  match files w !! c_path c with
  | Some f =>
      match protection f with
      | Fresh => true
      | Plain => match c_key c with None => true | Some _ => false end
      | Encrypted k ci =>
          match c_key c with
          | Some k' => String.eqb k k' && cipher_eqb ci (c_cipher c)
          | None => false
          end
      end
  | None => false
  end.

Definition needs_database (s : Sql) : bool :=
  match s with
  | s_count_master | s_user_version_get | s_insert | s_select => true
  | _ => false
  end.

Definition SQLITE_NOTADB : Z := 26.
Definition SQLITE_READONLY : Z := 8.

Definition prepare (h : unit) (text : string) (w : RWorld) : (Z * nat * nat) * RWorld :=
  let n := statement_length None text in
  match conn w, parse (take_chars n text) with
  | Some c, Some s =>
      if needs_database s && negb (usable c w) then ((SQLITE_NOTADB, 0%nat, n), w)
      else ((SQLITE_OK, length (stmts w), n),
            set_stmts (stmts w ++ [mkPrepared s [] [] 0 true]) w)
  | _, _ => ((SQLITE_ERROR, 0%nat, n), w)
  end.

Definition stmt_at (i : nat) (w : RWorld) : option Prepared := stmts w !! i.

Definition update_stmt (i : nat) (f : Prepared -> Prepared) (w : RWorld) : RWorld :=
  match stmts w !! i with
  | Some p => set_stmts (<[i := f p]> (stmts w)) w
  | None => w
  end.

Definition bind_parameter_count (i : nat) (w : RWorld) : nat :=
  match stmt_at i w with
  | Some p => match sql p with s_insert => 1 | _ => 0 end
  | None => 0
  end%nat.

Definition bind_blob (i : nat) (index : nat) (blob : string) (w : RWorld) : Z * RWorld :=
  match stmt_at i w with
  | Some p =>
      (SQLITE_OK,
       update_stmt i (fun p => mkPrepared (sql p) (bound p ++ [blob]) (row p) (pos p) (live p)) w)
  | None => (SQLITE_MISUSE, w)
  end.

Definition column_count (i : nat) (w : RWorld) : nat :=
  match stmt_at i w with
  | Some p =>
      match sql p with
      | s_count_master | s_cipher_version | s_user_version_get | s_select => 1
      | _ => 0
      end
  | None => 0
  end%nat.

Definition yield (i : nat) (r : list QVariant) (w : RWorld) : Z * RWorld :=
  (SQLITE_ROW,
   update_stmt i (fun p => mkPrepared (sql p) (bound p) r (S (pos p)) (live p)) w).

Definition set_cipher_field (name value : string) (c : Cipher) : Cipher :=
  if String.eqb name "cipher_page_size" then mkCipher value (kdf_iter c) (hmac c) (kdf c)
  else if String.eqb name "kdf_iter" then mkCipher (page_size c) value (hmac c) (kdf c)
  else if String.eqb name "cipher_hmac_algorithm"
       then mkCipher (page_size c) (kdf_iter c) value (kdf c)
  else if String.eqb name "cipher_kdf_algorithm"
       then mkCipher (page_size c) (kdf_iter c) (hmac c) value
  else c.

Definition find_attached (alias : string) (c : Conn) : option Attached :=
  List.find (fun a => String.eqb (a_alias a) alias) (attached c).

Definition protection_for (key : option string) (ci : Cipher) : Protection :=
  match key with
  | None => Plain
  | Some k => if isEmpty k then Plain else Encrypted k ci
  end.

(** What one [sqlite3_step] of a statement does. *)
Definition step_sql (i : nat) (p : Prepared) (c : Conn) (w : RWorld) : Z * RWorld :=
  match sql p with
  | s_nop => (SQLITE_DONE, w)
  | s_begin =>
      match snapshot c, files w !! c_path c with
      | None, Some f =>
          (SQLITE_DONE,
           set_conn (Some (mkConn (c_path c) (c_key c) (c_cipher c) (attached c) (Some f))) w)
      | _, _ => (SQLITE_ERROR, w)
      end
  | s_commit =>
      match snapshot c with
      | Some _ =>
          (SQLITE_DONE,
           set_conn (Some (mkConn (c_path c) (c_key c) (c_cipher c) (attached c) None)) w)
      | None => (SQLITE_ERROR, w)
      end
  | s_key k =>
      (SQLITE_DONE,
       set_conn (Some (mkConn (c_path c) (Some k) (c_cipher c) (attached c) (snapshot c))) w)
  | s_rekey k =>
      match files w !! c_path c with
      | Some f =>
          if negb (usable c w) then (SQLITE_NOTADB, w)
          else if read_only f then (SQLITE_READONLY, w)
          else
            (SQLITE_DONE,
             set_conn (Some (mkConn (c_path c) (Some k) (c_cipher c) (attached c) (snapshot c)))
               (set_files (<[c_path c := mkFile (Encrypted k (c_cipher c)) (user_version f)
                                            (rows f) (read_only f)]> (files w)) w))
      | None => (SQLITE_ERROR, w)
      end
  | s_cipher None name value =>
      (SQLITE_DONE,
       set_conn (Some (mkConn (c_path c) (c_key c) (set_cipher_field name value (c_cipher c))
                         (attached c) (snapshot c))) w)
  | s_cipher (Some db) name value =>
      (SQLITE_DONE,
       set_conn (Some (mkConn (c_path c) (c_key c) (c_cipher c)
                         (map (fun a => if String.eqb (a_alias a) db
                                        then mkAttached (a_alias a) (a_path a) (a_key a)
                                               (set_cipher_field name value (a_cipher a))
                                        else a) (attached c))
                         (snapshot c))) w)
  | s_count_master =>
      if (pos p =? 0)%nat then yield i [QV_LongLong 1] w else (SQLITE_DONE, w)
  | s_cipher_version =>
      if (pos p =? 0)%nat then yield i [QV_String (version w)] w else (SQLITE_DONE, w)
  | s_user_version_get =>
      match files w !! c_path c with
      | Some f =>
          if (pos p =? 0)%nat then yield i [QV_LongLong (user_version f)] w
          else (SQLITE_DONE, w)
      | None => (SQLITE_ERROR, w)
      end
  | s_user_version_set db v =>
      let target := match db with
                    | Some alias => option_map a_path (find_attached alias c)
                    | None => Some (c_path c)
                    end in
      match target with
      | Some t =>
          match files w !! t with
          | Some f =>
              if read_only f then (SQLITE_READONLY, w)
              else (SQLITE_DONE,
                    set_files (<[t := mkFile (protection f) v (rows f) (read_only f)]> (files w)) w)
          | None => (SQLITE_ERROR, w)
          end
      | None => (SQLITE_ERROR, w)
      end
  | s_attach t alias key =>
      let fs := match files w !! t with
                | Some _ => files w
                | None => <[t := new_file]> (files w)
                end in
      (SQLITE_DONE,
       set_conn (Some (mkConn (c_path c) (c_key c) (c_cipher c)
                         (attached c ++ [mkAttached alias t key cipher4]) (snapshot c)))
         (set_files fs w))
  | s_export alias =>
      match find_attached alias c, files w !! c_path c with
      | Some a, Some f =>
          match files w !! a_path a with
          | Some g =>
              if negb (usable c w) then (SQLITE_NOTADB, w)
              else
                (SQLITE_DONE,
                 set_files (<[a_path a := mkFile (protection_for (Some (a_key a)) (a_cipher a))
                                            (user_version g) (rows f) (read_only g)]> (files w)) w)
          | None => (SQLITE_ERROR, w)
          end
      | _, _ => (SQLITE_ERROR, w)
      end
  | s_detach alias =>
      match find_attached alias c with
      | Some _ =>
          (SQLITE_DONE,
           set_conn (Some (mkConn (c_path c) (c_key c) (c_cipher c)
                             (List.filter (fun a => negb (String.eqb (a_alias a) alias))
                                (attached c))
                             (snapshot c))) w)
      | None => (SQLITE_ERROR, w)
      end
  | s_insert =>
      match files w !! c_path c, bound p with
      | Some f, blob :: _ =>
          if read_only f then (SQLITE_READONLY, w)
          else
            let prot := match protection f with
                        | Fresh => protection_for (c_key c) (c_cipher c)
                        | other => other
                        end in
            (SQLITE_DONE,
             set_last_rowid (Z.of_nat (S (length (rows f))))
               (set_files (<[c_path c := mkFile prot (user_version f) (rows f ++ [blob])
                                            (read_only f)]> (files w)) w))
      | _, _ => (SQLITE_MISUSE, w)
      end
  | s_select =>
      match files w !! c_path c with
      | Some f =>
          match rows f !! pos p with
          | Some blob => yield i [QV_ByteArray blob] w
          | None => (SQLITE_DONE, w)
          end
      | None => (SQLITE_ERROR, w)
      end
  end.

Definition step (i : nat) (w : RWorld) : Z * RWorld :=
  match stmt_at i w, conn w with
  | Some p, Some c => step_sql i p c w
  | _, _ => (SQLITE_MISUSE, w)
  end.

Definition column (i col : nat) (w : RWorld) : QVariant :=
  match stmt_at i w with
  | Some p => default QV_Invalid (row p !! col)
  | None => QV_Invalid
  end.

Definition column_type (i col : nat) (w : RWorld) : Z :=
  match column i col w with
  | QV_LongLong _ => SQLITE_INTEGER
  | QV_String _ => SQLITE_TEXT
  | QV_Invalid => SQLITE_NULL
  | QV_ByteArray _ => 4
  end.

Definition column_int64 (i col : nat) (w : RWorld) : Z :=
  match column i col w with QV_LongLong z => z | _ => 0 end.

Definition column_text (i col : nat) (w : RWorld) : string :=
  match column i col w with QV_String s => s | _ => EmptyString end.

Definition column_blob (i col : nat) (w : RWorld) : string :=
  match column i col w with QV_ByteArray b => b | _ => EmptyString end.

Definition finalize (i : nat) (w : RWorld) : RWorld :=
  update_stmt i (fun p => mkPrepared (sql p) (bound p) (row p) (pos p) false) w.

(** *** Key derivation

    A stand-in for the key derivation of toxencryptsave with the layout of
    [Tox_Pass_Key]: 32 bytes of salt, then 32 bytes of key (here the password
    and the salt, cut or filled up to 32 bytes). *)

Fixpoint fit (n : nat) (s : string) : string :=
  match n with
  | O => EmptyString
  | S n' =>
      match s with
      | EmptyString => String "000" (fit n' EmptyString)
      | String c s' => String c (fit n' s')
      end
  end.

Definition derive (password salt : string) : string :=
  fit 32 salt +:+ fit 32 (password +:+ salt).

Definition env : Env := {|
  World := RWorld;
  Handle := unit;
  Stmt := nat;
  sqlite3_open_v2 := open_v2;
  sqlite3_create_function := fun _ _ w => (0, w);
  sqlite3_close := close;
  sqlite3_prepare_v2 := prepare;
  sqlite3_bind_parameter_count := bind_parameter_count;
  sqlite3_bind_blob := bind_blob;
  sqlite3_column_count := column_count;
  sqlite3_step := step;
  sqlite3_column_type := column_type;
  sqlite3_column_int64 := column_int64;
  sqlite3_column_text := column_text;
  sqlite3_column_blob := column_blob;
  sqlite3_last_insert_rowid := fun _ w => last_rowid w;
  sqlite3_finalize := finalize;
  QFile_exists := exists_;
  QFile_copy := copy;
  QFile_remove := remove;
  QFile_rename := rename;
  tox_pass_key_derive_with_salt := derive;
  TOX_PASS_SALT_LENGTH := 32
|}.

(** A world without files, for an engine of the given version. *)
Definition empty_world (v : string) : RWorld := mkWorld ∅ None [] v 0.

End Ref.

(** ** The database object and its worker *)

Section RawDatabase.

Variable env : Env.

(** Bound on the iterations of each statement loop of [compileAndExecute]
    (the code has no bound: running out of it stands for a loop that is still
    running). *)
Variable fuel : nat.

(** The value of the uninitialised [int64_t] of [getUserVersion]. *)
Variable indeterminate : Z.

Record Query := mkQuery {
  query : string;
  blobs : list string;
  insertCallback : option nat;
  rowCallback : RowCallback;
  statements : list (Stmt env)
}.

(** [Query{statement}] *)
Definition Query_of (statement : string) : Query :=
  mkQuery statement [] None NoRowCallback [].

(** [done] and [success] point to atomics of the submitter (or are null). *)
Record Transaction := mkTransaction {
  queries : list Query;
  done : option nat;
  success : option nat
}.

Record State := mkState {
  sqlite : option (Handle env);
  path : string;
  currentSalt : string;
  currentHexKey : string;
  pendingTransactions : list Transaction;
  atomics : list bool;
  locals : list QVariant;
  delivered : list CallbackEvent;
  log : list (LogLevel * string);
  journal : list Call;
  world : World env
}.

Definition set_sqlite (h : option (Handle env)) (st : State) : State :=
  mkState h (path st) (currentSalt st) (currentHexKey st) (pendingTransactions st)
    (atomics st) (locals st) (delivered st) (log st) (journal st) (world st).
Definition set_path (p : string) (st : State) : State :=
  mkState (sqlite st) p (currentSalt st) (currentHexKey st) (pendingTransactions st)
    (atomics st) (locals st) (delivered st) (log st) (journal st) (world st).
Definition set_currentHexKey (k : string) (st : State) : State :=
  mkState (sqlite st) (path st) (currentSalt st) k (pendingTransactions st)
    (atomics st) (locals st) (delivered st) (log st) (journal st) (world st).
Definition set_pendingTransactions (q : list Transaction) (st : State) : State :=
  mkState (sqlite st) (path st) (currentSalt st) (currentHexKey st) q
    (atomics st) (locals st) (delivered st) (log st) (journal st) (world st).
Definition set_atomics (a : list bool) (st : State) : State :=
  mkState (sqlite st) (path st) (currentSalt st) (currentHexKey st) (pendingTransactions st)
    a (locals st) (delivered st) (log st) (journal st) (world st).
Definition set_locals (l : list QVariant) (st : State) : State :=
  mkState (sqlite st) (path st) (currentSalt st) (currentHexKey st) (pendingTransactions st)
    (atomics st) l (delivered st) (log st) (journal st) (world st).
Definition set_delivered (d : list CallbackEvent) (st : State) : State :=
  mkState (sqlite st) (path st) (currentSalt st) (currentHexKey st) (pendingTransactions st)
    (atomics st) (locals st) d (log st) (journal st) (world st).
Definition set_log (l : list (LogLevel * string)) (st : State) : State :=
  mkState (sqlite st) (path st) (currentSalt st) (currentHexKey st) (pendingTransactions st)
    (atomics st) (locals st) (delivered st) l (journal st) (world st).
Definition set_journal (j : list Call) (st : State) : State :=
  mkState (sqlite st) (path st) (currentSalt st) (currentHexKey st) (pendingTransactions st)
    (atomics st) (locals st) (delivered st) (log st) j (world st).
Definition set_world (w : World env) (st : State) : State :=
  mkState (sqlite st) (path st) (currentSalt st) (currentHexKey st) (pendingTransactions st)
    (atomics st) (locals st) (delivered st) (log st) (journal st) w.

(** *** A state monad whose [None] is a loop that does not end *)

Definition M (A : Type) : Type := State -> option (A * State).

Definition ret {A} (a : A) : M A := fun st => Some (a, st).
Definition bind {A B} (m : M A) (k : A -> M B) : M B :=
  fun st => match m st with Some (a, st') => k a st' | None => None end.
Definition diverge {A} : M A := fun _ => None.
Definition get : M State := fun st => Some (st, st).
Definition modify (f : State -> State) : M unit := fun st => Some (tt, f st).

Notation "'let*' x ':=' m 'in' k" := (bind m (fun x => k))
  (at level 10, x pattern, m at level 100, k at level 200).
Notation "m ';;' k" := (bind m (fun _ => k))
  (at level 100, k at level 200, right associativity).

Definition record (c : Call) : M unit :=
  modify (fun st => set_journal (journal st ++ [c]) st).
Definition qlog (l : LogLevel) (msg : string) : M unit :=
  modify (fun st => set_log (log st ++ [(l, msg)]) st).

(** An effect of the environment, applied to the world. *)
Definition call {A} (f : World env -> A * World env) : M A :=
  fun st => let '(a, w) := f (world st) in Some (a, set_world w st).
Definition ask {A} (f : World env -> A) : M A :=
  fun st => Some (f (world st), st).

(** [std::atomic_bool x{b}], [x.store], [x.load] *)
Definition new_atomic (b : bool) : M nat :=
  fun st => Some (length (atomics st), set_atomics (atomics st ++ [b]) st).
Definition store (cell : nat) (b : bool) : M unit :=
  modify (fun st => set_atomics (<[cell := b]> (atomics st)) st).
Definition store_opt (cell : option nat) (b : bool) : M unit :=
  match cell with Some c => store c b | None => ret tt end.
Definition load (cell : nat) : M bool :=
  fun st => Some (default false (atomics st !! cell), st).

(** A local variable captured by reference by a row callback. *)
Definition new_local (v : QVariant) : M nat :=
  fun st => Some (length (locals st), set_locals (locals st ++ [v]) st).
Definition read_local (cell : nat) : M QVariant :=
  fun st => Some (default QV_Invalid (locals st !! cell), st).

(** *** [extractData] *)

Definition extractData (stmt : Stmt env) (col : nat) (w : World env) : QVariant :=
  let type := sqlite3_column_type env stmt col w in
  if type =? SQLITE_INTEGER then QV_LongLong (sqlite3_column_int64 env stmt col w)
  else if type =? SQLITE_TEXT then QV_String (sqlite3_column_text env stmt col w)
  else if type =? SQLITE_NULL then QV_Invalid
  else QV_ByteArray (sqlite3_column_blob env stmt col w).

(** *** [compileAndExecute] *)

(** [for (int i = 0; i < nParams; ++i)], [k] iterations left. *)
Fixpoint bindParams (q : Query) (stmt : Stmt env) (curParam : nat) (k i : nat) : M bool :=
  match k with
  | O => ret true
  | S k' =>
      let blob := default EmptyString (blobs q !! (curParam + i)%nat) in
      let* r := call (sqlite3_bind_blob env stmt (i + 1) blob) in
      record (c_bind (curParam + i) r);;
      if negb (r =? SQLITE_OK) then
        qlog Warning ("Failed to bind param to query " +:+ anonymizeQuery (query q));;
        ret false
      else bindParams q stmt curParam k' (S i)
  end.

(** The [do ... while (compileTail != end)] loop of one query. *)
Fixpoint compileStatements (n : nat) (h : Handle env) (q : Query) (curParam : nat)
    (compileTail : string) : M (bool * Query) :=
  match n with
  | O => diverge
  | S n' =>
      let* (r, stmt, consumed) := call (sqlite3_prepare_v2 env h compileTail) in
      record (c_prepare compileTail r);;
      if negb (r =? SQLITE_OK) then
        qlog Warning ("Failed to prepare statement " +:+ anonymizeQuery (query q));;
        ret (false, q)
      else
        let q := mkQuery (query q) (blobs q) (insertCallback q) (rowCallback q)
                   (statements q ++ [stmt]) in
        let* nParams := ask (sqlite3_bind_parameter_count env stmt) in
        if (length (blobs q) <? curParam + nParams)%nat then
          record (c_params_missing (query q));;
          qlog Warning ("Not enough parameters to bind to query " +:+ anonymizeQuery (query q));;
          ret (false, q)
        else
          let* bound := bindParams q stmt curParam nParams 0 in
          if negb bound then ret (false, q)
          else
            let compileTail := drop_chars consumed compileTail in
            if isEmpty compileTail then ret (true, q)
            else compileStatements n' h q (curParam + nParams) compileTail
  end.

Definition fireRowCallback (q : Query) (row : list QVariant) : M unit :=
  match rowCallback q with
  | NoRowCallback => ret tt
  | ClientRowCallback client =>
      modify (fun st => set_delivered (delivered st ++ [ev_row client row]) st)
  | StoreFirstColumn cell =>
      modify (fun st => set_locals (<[cell := default QV_Invalid (row !! 0%nat)]> (locals st)) st)
  end.

(** The [do ... while (result == SQLITE_ROW)] loop of one statement. *)
Fixpoint stepStatement (n : nat) (q : Query) (stmt : Stmt env) (column_count : nat) : M Z :=
  match n with
  | O => diverge
  | S n' =>
      let* result := call (sqlite3_step env stmt) in
      record (c_step (query q) result);;
      if result =? SQLITE_ROW then
        (let* row := ask (fun w => map (fun i => extractData stmt i w) (seq 0 column_count)) in
         fireRowCallback q row);;
        stepStatement n' q stmt column_count
      else ret result
  end.

Definition stepErrorMessage (result : Z) : string :=
  if result =? SQLITE_ERROR then "Error executing query "
  else if result =? SQLITE_MISUSE then "Misuse executing query "
  else if result =? SQLITE_CONSTRAINT then "Constraint error executing query "
  else "Unknown error executing query ".

(** [for (sqlite3_stmt* stmt : query.statements)] *)
Fixpoint executeStatements (q : Query) (stmts : list (Stmt env)) : M bool :=
  match stmts with
  | [] => ret true
  | stmt :: rest =>
      let* column_count := ask (sqlite3_column_count env stmt) in
      let* result := stepStatement fuel q stmt column_count in
      if result =? SQLITE_DONE then executeStatements q rest
      else
        qlog Warning (stepErrorMessage result +:+ anonymizeQuery (query q));;
        ret false
  end.

Definition fireInsertCallback (h : Handle env) (q : Query) : M unit :=
  match insertCallback q with
  | None => ret tt
  | Some client =>
      let* rowid := ask (sqlite3_last_insert_rowid env h) in
      modify (fun st => set_delivered (delivered st ++ [ev_insert client rowid]) st)
  end.

(** The body of [for (Query& query : trans.queries)]; [false] is the early
    [return] of [compileAndExecute]. *)
Definition runQuery (h : Handle env) (q : Query) : M (bool * Query) :=
  record (c_begin_query (query q));;
  let* (compiled, q) := compileStatements fuel h q 0 (query q) in
  if negb compiled then ret (false, q)
  else
    let* executed := executeStatements q (statements q) in
    if negb executed then ret (false, q)
    else fireInsertCallback h q;; ret (true, q).

Fixpoint runQueries (h : Handle env) (qs : list Query) : M (bool * list Query) :=
  match qs with
  | [] => ret (true, [])
  | q :: rest =>
      let* (ok, q) := runQuery h q in
      if negb ok then ret (false, q :: rest)
      else
        let* (ok, rest) := runQueries h rest in
        ret (ok, q :: rest)
  end.

(** "Add transaction commands if necessary" *)
Definition addTransactionCommands (qs : list Query) : list Query :=
  if (1 <? length qs)%nat then Query_of "BEGIN;" :: qs ++ [Query_of "COMMIT;"] else qs.

Definition compileAndExecute (h : Handle env) (trans : Transaction) : M Transaction :=
  store_opt (success trans) false;;
  let qs := addTransactionCommands (queries trans) in
  let* (completed, qs) := runQueries h qs in
  (if completed then store_opt (success trans) true else ret tt);;
  ret (mkTransaction qs (done trans) (success trans)).

(** *** [process] *)

Fixpoint finalizeStatements (stmts : list (Stmt env)) : M unit :=
  match stmts with
  | [] => ret tt
  | stmt :: rest =>
      call (fun w => (tt, sqlite3_finalize env stmt w));;
      record c_finalize;;
      finalizeStatements rest
  end.

Fixpoint freeStatements (qs : list Query) : M unit :=
  match qs with
  | [] => ret tt
  | q :: rest => finalizeStatements (statements q);; freeStatements rest
  end.

(** The [forever] loop; every iteration pops one transaction, so [n] need not
    exceed the length of the queue. *)
Fixpoint processPending (n : nat) (h : Handle env) : M unit :=
  let* st := get in
  match pendingTransactions st with
  | [] => ret tt
  | trans :: rest =>
      match n with
      | O => diverge
      | S n' =>
          modify (set_pendingTransactions rest);;
          let* trans := compileAndExecute h trans in
          freeStatements (queries trans);;
          store_opt (done trans) true;;
          processPending n' h
      end
  end.

Definition process : M unit :=
  let* st := get in
  match sqlite st with
  | None => ret tt
  | Some h => processPending (length (pendingTransactions st)) h
  end.

(** *** [execNow], [execLater] *)

Definition execNow (statements : list Query) : M bool :=
  let* st := get in
  match sqlite st with
  | None =>
      qlog Warning "Trying to exec, but the database is not open";;
      ret false
  | Some _ =>
      let* done := new_atomic false in
      let* success := new_atomic false in
      modify (fun st => set_pendingTransactions
                (pendingTransactions st ++ [mkTransaction statements (Some done) (Some success)]) st);;
      process;;
      (* while (!done.load()) QThread::msleep(10); *)
      let* finished := load done in
      if finished then
        let* ok := load success in
        record (c_exec (map query statements) ok);;
        ret ok
      else diverge
  end.

Definition execNow1 (statement : Query) : M bool := execNow [statement].
Definition execNowS (statement : string) : M bool := execNow1 (Query_of statement).

(** The queued call of [process] is run by the worker at once. *)
Definition execLater (statements : list Query) : M unit :=
  let* st := get in
  match sqlite st with
  | None => qlog Warning "Trying to exec, but the database is not open"
  | Some _ =>
      modify (fun st => set_pendingTransactions
                (pendingTransactions st ++ [mkTransaction statements None None]) st);;
      process
  end.


(** *** Key derivation *)

(** [QByteArray(reinterpret_cast<char*>(key.get()) + 32, 32).toHex()] *)
Definition hexOfPassKey (key : string) : string :=
  toHex (take_chars 32 (drop_chars 32 key)).

Definition expandConstant : string := "L'ignorance est le pire des maux".

(** [deriveKey(password)], the deprecated variant without salt *)
Definition deriveKey1 (password : string) : string :=
  if isEmpty password then EmptyString
  else
    let passData := password in
    hexOfPassKey (tox_pass_key_derive_with_salt env passData expandConstant).

(** [deriveKey(password, salt)], with the warning it logs *)
Definition deriveKey (password salt : string) : string * list (LogLevel * string) :=
  if isEmpty password then (EmptyString, [])
  else if negb (String.length salt =? TOX_PASS_SALT_LENGTH env)%nat then
    (EmptyString, [(Warning, "Salt length doesn't match toxencryptsave expectations")])
  else
    let passData := password in
    (hexOfPassKey (tox_pass_key_derive_with_salt env passData salt), []).

Definition deriveKeyM (password salt : string) : M string :=
  let (key, msgs) := deriveKey password salt in
  modify (fun st => set_log (log st ++ msgs) st);;
  ret key.

(** *** Cipher parameters *)

Definition setKey (hexKey : string) : M bool :=
  let* ok := execNowS ("PRAGMA key = " +:+ dquote +:+ "x'" +:+ hexKey +:+ "'" +:+ dquote) in
  if negb ok then qlog Warning "Failed to set encryption key";; ret false
  else ret true.

(** The three parameter texts, after [replace("database.", prefix)]. *)
Definition default3_xParams (prefix : string) : string :=
  "PRAGMA " +:+ prefix +:+ "cipher_page_size = 1024;"
  +:+ "PRAGMA " +:+ prefix +:+ "kdf_iter = 64000;"
  +:+ "PRAGMA " +:+ prefix +:+ "cipher_hmac_algorithm = HMAC_SHA1;"
  +:+ "PRAGMA " +:+ prefix +:+ "cipher_kdf_algorithm = PBKDF2_HMAC_SHA1;".

Definition halfUpgradedTo4Params (prefix : string) : string :=
  "PRAGMA " +:+ prefix +:+ "cipher_page_size = 4096;"
  +:+ "PRAGMA " +:+ prefix +:+ "kdf_iter = 256000;"
  +:+ "PRAGMA " +:+ prefix +:+ "cipher_hmac_algorithm = HMAC_SHA1;"
  +:+ "PRAGMA " +:+ prefix +:+ "cipher_kdf_algorithm = PBKDF2_HMAC_SHA1;".

Definition default4_xParams (prefix : string) : string :=
  "PRAGMA " +:+ prefix +:+ "cipher_page_size = 4096;"
  +:+ "PRAGMA " +:+ prefix +:+ "kdf_iter = 256000;"
  +:+ "PRAGMA " +:+ prefix +:+ "cipher_hmac_algorithm = HMAC_SHA512;"
  +:+ "PRAGMA " +:+ prefix +:+ "cipher_kdf_algorithm = PBKDF2_HMAC_SHA512;"
  +:+ "PRAGMA " +:+ prefix +:+ "cipher_memory_security = ON;".

Definition cipherParametersText (params : SqlCipherParams) (database : option string) : string :=
  let prefix := match database with Some d => d +:+ "." | None => EmptyString end in
  match params with
  | p3_0 => default3_xParams prefix
  | halfUpgradedTo4 => halfUpgradedTo4Params prefix
  | p4_0 => default4_xParams prefix
  end.

Definition setCipherParameters (params : SqlCipherParams) (database : option string) : M bool :=
  qlog Debug "Setting SQLCipher parameters";;
  execNowS (cipherParametersText params database).

Definition testUsable : M bool :=
  execNowS "SELECT count(*) FROM sqlite_master;".

(** The [switch (majorVersion)] of [highestSupportedParams]; [None] is its
    [default] branch. *)
Definition paramsOfMajorVersion (majorVersion : Z) : option SqlCipherParams :=
  if majorVersion =? 3 then Some halfUpgradedTo4
  else if majorVersion =? 4 then Some p4_0
  else None.

Definition majorVersionOf (cipherVersion : string) : Z :=
  QString_toInt (first_dot_segment cipherVersion).

Definition highestSupportedParams : M SqlCipherParams :=
  let* cipherVersion := new_local (QV_String EmptyString) in
  let* ok := execNow1 (mkQuery "PRAGMA cipher_version" [] None
                         (StoreFirstColumn cipherVersion) []) in
  if negb ok then
    qlog Critical "Failed to read cipher_version";;
    ret p3_0
  else
    let* v := read_local cipherVersion in
    let majorVersion := majorVersionOf (QVariant_toString v) in
    match paramsOfMajorVersion majorVersion with
    | Some highest =>
        qlog Debug "Highest supported SQLCipher params on this system are";;
        ret highest
    | None =>
        qlog Critical "Unsupported SQLCipher version detected!";;
        ret p3_0
    end.

(** The loop of [readSavedCipherParams], [k] generations left from [i] on;
    [None] is the exit through a [break] or the end of the loop. *)
Fixpoint probeSavedParams (hexKey : string) (k i : nat) : M (option SqlCipherParams) :=
  match k with
  | O => ret None
  | S k' =>
      let* keyed := setKey hexKey in
      if negb keyed then ret None
      else
        let* set := setCipherParameters (params_of_int i) None in
        if negb set then ret None
        else
          let* usable := testUsable in
          if usable then ret (Some (params_of_int i))
          else probeSavedParams hexKey k' (S i)
  end.

Definition readSavedCipherParams (hexKey : string) (newParams : SqlCipherParams)
    : M SqlCipherParams :=
  let* found := probeSavedParams hexKey (params_to_int newParams - params_to_int p3_0)
                  (params_to_int p3_0) in
  match found with
  | Some params => ret params
  | None =>
      qlog Critical "Failed to check saved SQLCipher params";;
      ret p3_0
  end.

Definition getUserVersion : M Z :=
  let* user_version := new_local (QV_LongLong indeterminate) in
  let* ok := execNow1 (mkQuery "PRAGMA user_version" [] None
                         (StoreFirstColumn user_version) []) in
  if negb ok then
    qlog Critical "Failed to read user_version during cipher upgrade";;
    ret (-1)
  else
    let* v := read_local user_version in
    ret (int_of_int64 (QVariant_toLongLong v)).

(** *** Opening and closing *)

Definition close : M unit :=
  process;;
  let* st := get in
  let* rc := call (sqlite3_close env (sqlite st)) in
  record (c_close rc);;
  if rc =? SQLITE_OK then modify (set_sqlite None)
  else qlog Warning "Error closing database:".

Definition tmpOf (p : string) : string := p +:+ ".tmp".

Definition removeFile (p : string) : M bool :=
  let* b := call (QFile_remove env p) in record (c_remove p b);; ret b.
Definition renameFile (src dst : string) : M bool :=
  let* b := call (QFile_rename env src dst) in record (c_rename src dst b);; ret b.
Definition copyFile (src dst : string) : M bool :=
  let* b := call (QFile_copy env src dst) in record (c_copy src dst b);; ret b.
Definition fileExists (p : string) : M bool :=
  let* b := ask (QFile_exists env p) in record (c_exists p b);; ret b.

Section Reopening.

(** [open] calls itself through [commitDbSwap]: [reopen] is that inner call. *)
Variable reopen : string -> string -> M bool.

Definition commitDbSwap (hexKey : string) : M bool :=
  close;;
  let* st := get in
  removeFile (path st);;
  renameFile (tmpOf (path st)) (path st);;
  modify (set_currentHexKey hexKey);;
  let* opened := reopen (path st) hexKey in
  if negb opened then qlog Critical "Failed to swap db";; ret false
  else ret true.

Definition updateSavedCipherParameters (hexKey : string) (newParams : SqlCipherParams)
    : M bool :=
  let* currentParams := readSavedCipherParams hexKey newParams in
  setKey hexKey;;
  let* set := setCipherParameters currentParams None in
  if negb set then ret false else
  let* user_version := getUserVersion in
  if user_version <? 0 then ret false else
  let* st := get in
  let* ok := execNowS ("ATTACH DATABASE '" +:+ path st +:+ ".tmp' AS newParams KEY "
                       +:+ dquote +:+ "x'" +:+ hexKey +:+ "'" +:+ dquote +:+ ";") in
  if negb ok then ret false else
  let* ok := setCipherParameters newParams (Some "newParams") in
  if negb ok then ret false else
  let* ok := execNowS "SELECT sqlcipher_export('newParams');" in
  if negb ok then ret false else
  let* ok := execNowS ("PRAGMA newParams.user_version = " +:+ QString_number user_version +:+ ";") in
  if negb ok then ret false else
  let* ok := execNowS "DETACH DATABASE newParams;" in
  if negb ok then ret false else
  let* ok := commitDbSwap hexKey in
  if negb ok then ret false else
  qlog Info "Upgraded database from SQLCipher params";;
  ret true.

Definition openEncryptedDatabaseAtLatestSupportedVersion (hexKey : string) : M bool :=
  let* keyed := setKey hexKey in
  if negb keyed then ret false else
  let* highestSupportedVersion := highestSupportedParams in
  let* set := setCipherParameters highestSupportedVersion None in
  if set then
    let* usable := testUsable in
    if usable then qlog Info "Opened database with SQLCipher parameters";; ret true
    else updateSavedCipherParameters hexKey highestSupportedVersion
  else
    qlog Critical "Failed to set latest supported SQLCipher params!";;
    ret false.

Definition createFunction (h : Handle env) (name : string) : M Z :=
  let* rc := call (sqlite3_create_function env h name) in
  record (c_create_function name rc);; ret rc.

Definition open_body (path_ hexKey : string) : M bool :=
  let* present := fileExists path_ in
  (if negb present then
     let* tmp := fileExists (tmpOf path_) in
     if tmp then
       qlog Warning "Restoring database from temporary export file! Did we crash while changing the password or upgrading?";;
       renameFile (tmpOf path_) path_;; ret tt
     else ret tt
   else ret tt);;
  let* r := call (sqlite3_open_v2 env path_) in
  match r with
  | OpenFailed h =>
      modify (set_sqlite h);;
      record (c_open path_ false);;
      qlog Warning "Failed to open database";;
      ret false
  | OpenOk h =>
      modify (set_sqlite (Some h));;
      record (c_open path_ true);;
      let* rc := createFunction h "regexp" in
      if negb (rc =? 0) then
        qlog Warning "Failed to create function regexp";; close;; ret false
      else
        let* rc := createFunction h "regexpsensitive" in
        if negb (rc =? 0) then
          qlog Warning "Failed to create function regexpsensitive";; close;; ret false
        else if negb (isEmpty hexKey) then
          let* ok := openEncryptedDatabaseAtLatestSupportedVersion hexKey in
          if negb ok then close;; ret false else ret true
        else ret true
  end.

End Reopening.

(** [depth] bounds the nesting of [open] within [open]. *)
Fixpoint open (depth : nat) (path_ hexKey : string) : M bool :=
  match depth with
  | O => diverge
  | S d => open_body (open d) path_ hexKey
  end.

(** *** Changing the password, renaming, removing *)

Variable depth : nat.

Definition encryptDatabase (newHexKey : string) : M bool :=
  let* user_version := getUserVersion in
  if user_version <? 0 then ret false else
  let* st := get in
  let* ok := execNowS ("ATTACH DATABASE '" +:+ path st +:+ ".tmp' AS encrypted KEY "
                       +:+ dquote +:+ "x'" +:+ newHexKey +:+ "'" +:+ dquote +:+ ";") in
  if negb ok then qlog Warning "Failed to export encrypted database";; ret false else
  let* ok := setCipherParameters p4_0 (Some "encrypted") in
  if negb ok then ret false else
  let* ok := execNowS "SELECT sqlcipher_export('encrypted');" in
  if negb ok then ret false else
  let* ok := execNowS ("PRAGMA encrypted.user_version = " +:+ QString_number user_version +:+ ";") in
  if negb ok then ret false else
  let* ok := execNowS "DETACH DATABASE encrypted;" in
  if negb ok then ret false else
  commitDbSwap (open depth) newHexKey.

Definition decryptDatabase : M bool :=
  let* user_version := getUserVersion in
  if user_version <? 0 then ret false else
  let* st := get in
  let* ok := execNowS ("ATTACH DATABASE '" +:+ path st +:+ ".tmp' AS plaintext KEY '';"
                       +:+ "SELECT sqlcipher_export('plaintext');") in
  if negb ok then qlog Warning "Failed to export decrypted database";; ret false else
  let* ok := execNowS ("PRAGMA plaintext.user_version = " +:+ QString_number user_version +:+ ";") in
  if negb ok then ret false else
  let* ok := execNowS "DETACH DATABASE plaintext;" in
  if negb ok then ret false else
  commitDbSwap (open depth) EmptyString.

Definition setPassword (password : string) : M bool :=
  let* st := get in
  match sqlite st with
  | None =>
      qlog Warning "Trying to change the password, but the database is not open";;
      ret false
  | Some _ =>
      process;;
      let* stale := fileExists (tmpOf (path st)) in
      (if stale then
         qlog Warning "Found old temporary export file while rekeying, deleting it";;
         removeFile (tmpOf (path st));; ret tt
       else ret tt);;
      if negb (isEmpty password) then
        let* newHexKey := deriveKeyM password (currentSalt st) in
        if negb (isEmpty (currentHexKey st)) then
          let* ok := execNowS ("PRAGMA rekey = " +:+ dquote +:+ "x'" +:+ newHexKey
                               +:+ "'" +:+ dquote) in
          if negb ok then
            qlog Warning "Failed to change encryption key";; close;; ret false
          else ret true
        else
          let* ok := encryptDatabase newHexKey in
          if negb ok then close;; ret false
          else modify (set_currentHexKey newHexKey);; ret true
      else if isEmpty (currentHexKey st) then ret true
      else
        let* ok := decryptDatabase in
        if negb ok then close;; ret false else ret true
  end.

Definition rename (newPath : string) : M bool :=
  let* st := get in
  match sqlite st with
  | None =>
      qlog Warning "Trying to change the password, but the database is not open";;
      ret false
  | Some _ =>
      process;;
      if String.eqb (path st) newPath then ret true
      else
        let* taken := fileExists newPath in
        if taken then ret false
        else
          close;;
          let* moved := renameFile (path st) newPath in
          if negb moved then ret false
          else
            modify (set_path newPath);;
            open depth newPath (currentHexKey st)
  end.

Definition remove : M bool :=
  let* st := get in
  match sqlite st with
  | None =>
      qlog Warning "Trying to remove the database, but it is not open";;
      ret false
  | Some _ =>
      qlog Debug "Removing database";;
      close;;
      removeFile (path st)
  end.

Definition isOpen (st : State) : bool :=
  match sqlite st with Some _ => true | None => false end.

(** *** The constructor *)

Definition constructed (path_ salt : string) (w : World env) : State :=
  mkState None path_ salt EmptyString [] [] [] [] [] [] w.

(** The constructor after its first [open] has failed. *)
Definition openWithOldSalt (password : string) : M unit :=
  let* st := get in
  close;;
  let* copied := copyFile (path st) (path st +:+ ".bak") in
  let upgrade := copied in
  (if negb copied then
     qlog Debug "Couldn't create the backup of the database, won't upgrade"
   else ret tt);;
  modify (set_currentHexKey (deriveKey1 password));;
  let* opened := open depth (path st) (deriveKey1 password) in
  if opened then
    if upgrade then
      let* changed := setPassword password in
      if changed then qlog Debug "Successfully upgraded to dynamic salt"
      else qlog Warning "Failed to set password with new salt"
    else ret tt
  else qlog Debug "Failed to open database with old salt".

Definition RawDatabaseImpl_body (password : string) : M unit :=
  let* st := get in
  let* key := deriveKeyM password (currentSalt st) in
  modify (set_currentHexKey key);;
  let* opened := open depth (path st) key in
  if opened then ret tt
  else openWithOldSalt password.

Definition RawDatabaseImpl (path_ password salt : string) (w : World env) : option State :=
  match RawDatabaseImpl_body password (constructed path_ salt w) with
  | Some (_, st) => Some st
  | None => None
  end.


(** ** Reasoning about runs *)

Lemma bind_Some {A B} (m : M A) (k : A -> M B) st r :
  bind m k st = Some r ->
  exists a st1, m st = Some (a, st1) /\ k a st1 = Some r.
Proof.
  unfold bind. destruct (m st) as [[a st1]|]; [|discriminate].
  intros H. exists a, st1. split; [reflexivity|exact H].
Qed.

Lemma bind_eq {A B} (m : M A) (k : A -> M B) st a st1 :
  m st = Some (a, st1) -> bind m k st = k a st1.
Proof. unfold bind. intros ->. reflexivity. Qed.

Lemma lifecycle_app j1 j2 : lifecycle (j1 ++ j2) = lifecycle j1 ++ lifecycle j2.
Proof.
  induction j1 as [|c j1 IH]; simpl; [reflexivity|].
  destruct (low_level c); simpl; rewrite IH; reflexivity.
Qed.

Lemma started_app j1 j2 : started (j1 ++ j2) = started j1 ++ started j2.
Proof.
  induction j1 as [|c j1 IH]; simpl; [reflexivity|].
  destruct c; simpl; rewrite ?IH; reflexivity.
Qed.

(** [since st st' j]: the calls made between two states. *)
Definition since (st st' : State) (j : list Call) : Prop :=
  journal st' = journal st ++ j.

Lemma since_refl st : since st st [].
Proof. unfold since. rewrite app_nil_r. reflexivity. Qed.

Lemma since_trans st1 st2 st3 j1 j2 :
  since st1 st2 j1 -> since st2 st3 j2 -> since st1 st3 (j1 ++ j2).
Proof. unfold since. intros H1 H2. rewrite H2, H1, app_assoc. reflexivity. Qed.

Lemma since_inj st st' j1 j2 : since st st' j1 -> since st st' j2 -> j1 = j2.
Proof. unfold since. intros H1 H2. rewrite H1 in H2. eapply app_inv_head, H2. Qed.

(** The members of the object that only the life cycle changes. *)
Definition same_object (st st' : State) : Prop :=
  sqlite st' = sqlite st /\ path st' = path st /\
  currentSalt st' = currentSalt st /\ currentHexKey st' = currentHexKey st.

Lemma same_object_refl st : same_object st st.
Proof. repeat split. Qed.

Lemma same_object_trans st1 st2 st3 :
  same_object st1 st2 -> same_object st2 st3 -> same_object st1 st3.
Proof.
  intros (a1 & b1 & c1 & d1) (a2 & b2 & c2 & d2).
  repeat split; congruence.
Qed.

(** [quiet]: a run of the worker on statements; it leaves the object and the
    queue alone and makes no call of the life cycle. *)
Definition quiet (st st' : State) : Prop :=
  same_object st st' /\
  pendingTransactions st' = pendingTransactions st /\
  exists j, since st st' j /\ lifecycle j = [].

Lemma quiet_same_journal st st' :
  sqlite st' = sqlite st -> path st' = path st -> currentSalt st' = currentSalt st ->
  currentHexKey st' = currentHexKey st ->
  pendingTransactions st' = pendingTransactions st ->
  journal st' = journal st -> quiet st st'.
Proof.
  intros. split; [repeat split; assumption|]. split; [assumption|].
  exists []. split; [|reflexivity]. unfold since. rewrite app_nil_r. assumption.
Qed.

Lemma quiet_refl st : quiet st st.
Proof.
  split; [apply same_object_refl|]. split; [reflexivity|].
  exists []. split; [apply since_refl|reflexivity].
Qed.

Lemma quiet_trans st1 st2 st3 : quiet st1 st2 -> quiet st2 st3 -> quiet st1 st3.
Proof.
  intros (o1 & p1 & j1 & s1 & l1) (o2 & p2 & j2 & s2 & l2).
  split; [eapply same_object_trans; eassumption|].
  split; [congruence|].
  exists (j1 ++ j2). split; [eapply since_trans; eassumption|].
  rewrite lifecycle_app, l1, l2. reflexivity.
Qed.

(** *** Relations that every run of the worker on statements keeps

    The statement functions below [compileAndExecute] change the journal (by
    low-level calls), the log, the world, the callback records and the locals,
    and nothing else: a reflexive and transitive relation that those changes
    respect holds between the two ends of their runs. *)

Section Frames.

Variable R : State -> State -> Prop.
Hypothesis R_refl : forall st, R st st.
Hypothesis R_trans : forall st1 st2 st3, R st1 st2 -> R st2 st3 -> R st1 st3.
Hypothesis R_journal :
  forall st c, low_level c = true -> R st (set_journal (journal st ++ [c]) st).
Hypothesis R_log : forall st l, R st (set_log l st).
Hypothesis R_world : forall st w, R st (set_world w st).
Hypothesis R_delivered : forall st d, R st (set_delivered d st).
Hypothesis R_locals : forall st l, R st (set_locals l st).

Definition keeps {A} (m : M A) : Prop :=
  forall st a st', m st = Some (a, st') -> R st st'.

Lemma keeps_ret {A} (a : A) : keeps (ret a).
Proof. intros st a' st' H. inversion H; subst. apply R_refl. Qed.

Lemma keeps_bind {A B} (m : M A) (k : A -> M B) :
  keeps m -> (forall a, keeps (k a)) -> keeps (bind m k).
Proof.
  intros Hm Hk st b st' H.
  apply bind_Some in H as (a & st1 & H1 & H2).
  eapply R_trans; [eapply Hm, H1|eapply Hk, H2].
Qed.

Lemma keeps_diverge {A} : keeps (@diverge A).
Proof. intros st a st' H. discriminate. Qed.

Lemma keeps_get : keeps get.
Proof. intros st a st' H. inversion H; subst. apply R_refl. Qed.

Lemma keeps_record c : low_level c = true -> keeps (record c).
Proof. intros Hc st a st' H. inversion H; subst. apply R_journal, Hc. Qed.

Lemma keeps_qlog l msg : keeps (qlog l msg).
Proof. intros st a st' H. inversion H; subst. apply R_log. Qed.

Lemma keeps_call {A} (f : World env -> A * World env) : keeps (call f).
Proof.
  intros st a st' H. unfold call in H. destruct (f (world st)).
  inversion H; subst. apply R_world.
Qed.

Lemma keeps_ask {A} (f : World env -> A) : keeps (ask f).
Proof. intros st a st' H. inversion H; subst. apply R_refl. Qed.

Lemma keeps_load c : keeps (load c).
Proof. intros st a st' H. inversion H; subst. apply R_refl. Qed.

Lemma keeps_read_local c : keeps (read_local c).
Proof. intros st a st' H. inversion H; subst. apply R_refl. Qed.

Lemma keeps_set_delivered f :
  keeps (modify (fun st => set_delivered (f st) st)).
Proof. intros st a st' H. inversion H; subst. apply R_delivered. Qed.

Lemma keeps_set_locals f :
  keeps (modify (fun st => set_locals (f st) st)).
Proof. intros st a st' H. inversion H; subst. apply R_locals. Qed.

Lemma keeps_set_log f :
  keeps (modify (fun st => set_log (f st) st)).
Proof. intros st a st' H. inversion H; subst. apply R_log. Qed.

Create HintDb keeps_db.
#[local] Hint Resolve keeps_ret keeps_diverge keeps_get keeps_qlog keeps_call keeps_ask
  keeps_load keeps_read_local keeps_set_delivered keeps_set_locals keeps_set_log : keeps_db.

Ltac keeps_tac :=
  repeat first
    [ progress auto with keeps_db
    | apply keeps_record; reflexivity
    | apply keeps_bind; [|intros]
    | match goal with
      | |- keeps (match ?x with _ => _ end) => destruct x
      end ].

Lemma keeps_bindParams q stmt curParam k i : keeps (bindParams q stmt curParam k i).
Proof.
  revert i. induction k as [|k IH]; intros i; simpl; [apply keeps_ret|].
  keeps_tac.
Qed.
#[local] Hint Resolve keeps_bindParams : keeps_db.

Lemma keeps_compileStatements n h q curParam tail :
  keeps (compileStatements n h q curParam tail).
Proof.
  revert q curParam tail. induction n as [|n IH]; intros q curParam tail; simpl.
  - apply keeps_diverge.
  - keeps_tac.
Qed.
#[local] Hint Resolve keeps_compileStatements : keeps_db.

Lemma keeps_fireRowCallback q row : keeps (fireRowCallback q row).
Proof. unfold fireRowCallback. keeps_tac. Qed.
#[local] Hint Resolve keeps_fireRowCallback : keeps_db.

Lemma keeps_stepStatement n q stmt cc : keeps (stepStatement n q stmt cc).
Proof.
  induction n as [|n IH]; simpl; [apply keeps_diverge|]. keeps_tac.
Qed.
#[local] Hint Resolve keeps_stepStatement : keeps_db.

Lemma keeps_executeStatements q stmts : keeps (executeStatements q stmts).
Proof. induction stmts as [|s stmts IH]; simpl; keeps_tac. Qed.
#[local] Hint Resolve keeps_executeStatements : keeps_db.

Lemma keeps_fireInsertCallback h q : keeps (fireInsertCallback h q).
Proof. unfold fireInsertCallback. keeps_tac. Qed.
#[local] Hint Resolve keeps_fireInsertCallback : keeps_db.

Lemma keeps_runQuery h q : keeps (runQuery h q).
Proof. unfold runQuery. keeps_tac. Qed.
#[local] Hint Resolve keeps_runQuery : keeps_db.

Lemma keeps_runQueries h qs : keeps (runQueries h qs).
Proof. induction qs as [|q qs IH]; simpl; keeps_tac. Qed.

Lemma keeps_finalizeStatements stmts : keeps (finalizeStatements stmts).
Proof. induction stmts as [|s stmts IH]; simpl; keeps_tac. Qed.
#[local] Hint Resolve keeps_finalizeStatements : keeps_db.

Lemma keeps_freeStatements qs : keeps (freeStatements qs).
Proof. induction qs as [|q qs IH]; simpl; keeps_tac. Qed.

End Frames.

(** The statement functions leave the atomics alone, *)
Definition same_atomics (st st' : State) : Prop := atomics st' = atomics st.

Lemma runQueries_atomics h qs st r st' :
  runQueries h qs st = Some (r, st') -> atomics st' = atomics st.
Proof.
  apply (keeps_runQueries same_atomics); unfold same_atomics; intros; simpl; congruence.
Qed.

Lemma freeStatements_atomics qs st r st' :
  freeStatements qs st = Some (r, st') -> atomics st' = atomics st.
Proof.
  apply (keeps_freeStatements same_atomics); unfold same_atomics; intros; simpl; congruence.
Qed.

(** and they are quiet. *)
Lemma quiet_journal st c : low_level c = true -> quiet st (set_journal (journal st ++ [c]) st).
Proof.
  intros Hc. split; [repeat split|]. split; [reflexivity|].
  exists [c]. split; [reflexivity|]. simpl. rewrite Hc. reflexivity.
Qed.

Lemma runQueries_quiet h qs st r st' :
  runQueries h qs st = Some (r, st') -> quiet st st'.
Proof.
  apply (keeps_runQueries quiet);
    [apply quiet_refl|apply quiet_trans|apply quiet_journal|..];
    intros; apply quiet_same_journal; reflexivity.
Qed.

Lemma freeStatements_quiet qs st r st' :
  freeStatements qs st = Some (r, st') -> quiet st st'.
Proof.
  apply (keeps_freeStatements quiet);
    [apply quiet_refl|apply quiet_trans|apply quiet_journal|..];
    intros; apply quiet_same_journal; reflexivity.
Qed.

(** *** What a run of the worker leaves in the journal *)

Lemma record_run c st u st' : record c st = Some (u, st') -> st' = set_journal (journal st ++ [c]) st.
Proof. intros H. inversion H. reflexivity. Qed.

Lemma qlog_run l msg st u st' :
  qlog l msg st = Some (u, st') -> st' = set_log (log st ++ [(l, msg)]) st.
Proof. intros H. inversion H. reflexivity. Qed.

(** [returned f st a]: [a] is what the environment answers to [f] in [st]. *)
Definition returned {A} (f : World env -> A * World env) (st : State) (a : A) : Prop :=
  a = fst (f (world st)).

Lemma call_run {A} (f : World env -> A * World env) st a st' :
  call f st = Some (a, st') -> returned f st a /\ st' = set_world (snd (f (world st))) st.
Proof. unfold call, returned. destruct (f (world st)). intros H. inversion H. split; reflexivity. Qed.

Lemma ask_run {A} (f : World env -> A) st a st' :
  ask f st = Some (a, st') -> a = f (world st) /\ st' = st.
Proof. intros H. inversion H. split; reflexivity. Qed.

Lemma ret_run {A} (x : A) st a st' : ret x st = Some (a, st') -> a = x /\ st' = st.
Proof. intros H. inversion H. split; reflexivity. Qed.

Lemma get_run st a st' : get st = Some (a, st') -> a = st /\ st' = st.
Proof. intros H. inversion H. split; reflexivity. Qed.

Lemma modify_run f st u st' : modify f st = Some (u, st') -> st' = f st.
Proof. intros H. inversion H. reflexivity. Qed.

(** Splits a run of [bind] into the run of its first part ([R], which yields
    [a] and the state [st]) and the run of the rest; the run of a primitive is
    replaced by what it does. *)
Ltac run_prim R a st :=
  first
    [ apply record_run in R; subst st
    | apply qlog_run in R; subst st
    | apply ret_run in R as [? ?]; subst a st
    | apply get_run in R as [? ?]; subst a st
    | apply ask_run in R as [? ?]; subst a st
    | apply modify_run in R; subst st
    | apply call_run in R as [R ?]; subst st
    | idtac ].

Tactic Notation "run_bind" hyp(H) "as" ident(a) ident(st) ident(R) :=
  apply bind_Some in H as (a & st & R & H); cbv beta in H; run_prim R a st.

Tactic Notation "run_ret" hyp(H) :=
  first [ discriminate H | unfold ret in H; inversion H; subst; clear H ].

Lemma journal_fireRowCallback q row st u st' :
  fireRowCallback q row st = Some (u, st') -> journal st' = journal st.
Proof.
  unfold fireRowCallback. destruct (rowCallback q); intros H.
  - apply ret_run in H as [_ ->]. reflexivity.
  - apply modify_run in H as ->. reflexivity.
  - apply modify_run in H as ->. reflexivity.
Qed.

(** [outcome ok j]: the calls [j] hold no failure when [ok], and end on the
    first failure otherwise. *)
Definition clean (j : list Call) : Prop := Forall (fun c => is_error c = false) j.

Definition outcome (ok : bool) (j : list Call) : Prop :=
  if ok then clean j
  else exists j0 e, j = j0 ++ [e] /\ is_error e = true /\ clean j0.

Lemma clean_app j1 j2 : clean j1 -> clean j2 -> clean (j1 ++ j2).
Proof. apply Forall_app_2. Qed.

Lemma outcome_app ok j1 j2 : clean j1 -> outcome ok j2 -> outcome ok (j1 ++ j2).
Proof.
  intros H1 H2. destruct ok; simpl in *.
  - apply clean_app; assumption.
  - destruct H2 as (j0 & e & -> & He & H0).
    exists (j1 ++ j0), e. split; [apply app_assoc|].
    split; [assumption|apply clean_app; assumption].
Qed.


Lemma since_step st c st' j :
  since (set_journal (journal st ++ [c]) st) st' j -> since st st' (c :: j).
Proof. unfold since. simpl. intros ->. rewrite <- app_assoc. reflexivity. Qed.

Lemma since_journal_eq st1 st2 st' j :
  journal st2 = journal st1 -> since st2 st' j -> since st1 st' j.
Proof. unfold since. intros <-. trivial. Qed.

Lemma stepStatement_journal n q stmt cc st result st' :
  stepStatement n q stmt cc st = Some (result, st') ->
  exists j, since st st' j /\ started j = [] /\ outcome (result =? SQLITE_DONE) j.
Proof.
  revert st result st'. induction n as [|n IH]; intros st result st' H; simpl in H;
    [discriminate|].
  run_bind H as a st1 R1. run_bind H as u st2 R2.
  destruct (a =? SQLITE_ROW) eqn:Erow.
  - run_bind H as u' st3 R3. run_bind R3 as row st4 R4.
    apply journal_fireRowCallback in R3.
    apply IH in H as (j & Hj & Hs & Ho).
    exists (c_step (query q) a :: j). split; [|split].
    + apply since_step. eapply since_journal_eq; [|exact Hj]. exact R3.
    + simpl. exact Hs.
    + change (c_step (query q) a :: j) with ([c_step (query q) a] ++ j).
      apply outcome_app; [|exact Ho].
      constructor; [|constructor]. simpl. rewrite Erow. reflexivity.
  - run_ret H. exists [c_step (query q) result]. split; [|split].
    + reflexivity.
    + reflexivity.
    + destruct (result =? SQLITE_DONE) eqn:Edone; simpl.
      * constructor; [|constructor]. simpl. rewrite Edone, andb_false_r. reflexivity.
      * exists [], (c_step (query q) result). split; [reflexivity|].
        split; [|constructor]. simpl. rewrite Erow, Edone. reflexivity.
Qed.

Ltac since_tac :=
  unfold since in *; simpl in *;
  repeat match goal with
         | H : journal _ = _ |- _ => rewrite H; clear H; simpl
         end;
  rewrite <- ?app_assoc; simpl; rewrite ?app_nil_r; reflexivity.

Lemma clean_nil : clean [].
Proof. constructor. Qed.

Lemma clean_one c : is_error c = false -> clean [c].
Proof. intros H. constructor; [exact H|constructor]. Qed.

Lemma outcome_fail_one e : is_error e = true -> outcome false [e].
Proof. intros H. exists [], e. split; [reflexivity|]. split; [exact H|constructor]. Qed.

Lemma outcome_cons ok c j : is_error c = false -> outcome ok j -> outcome ok (c :: j).
Proof. intros Hc. apply (outcome_app ok [c] j). apply clean_one, Hc. Qed.

Lemma started_clean_cons c j :
  (forall sql, c <> c_begin_query sql) -> started (c :: j) = started j.
Proof. intros H. destruct c; try reflexivity. exfalso. eapply H. reflexivity. Qed.

Lemma bindParams_journal q stmt curParam k i st ok st' :
  bindParams q stmt curParam k i st = Some (ok, st') ->
  exists j, since st st' j /\ started j = [] /\ outcome ok j.
Proof.
  revert i st. induction k as [|k IH]; intros i st H; simpl in H.
  - run_ret H. exists []. split; [apply since_refl|]. split; [reflexivity|apply clean_nil].
  - run_bind H as r st1 R1. run_bind H as u st2 R2.
    destruct (r =? SQLITE_OK) eqn:Er; simpl in H.
    + apply IH in H as (j & Hj & Hs & Ho).
      exists (c_bind (curParam + i) r :: j). split; [since_tac|]. split; [exact Hs|].
      apply outcome_cons; [|exact Ho]. simpl. rewrite Er. reflexivity.
    + run_bind H as u' st3 R3. run_ret H.
      exists [c_bind (curParam + i) r]. split; [since_tac|]. split; [reflexivity|].
      apply outcome_fail_one. simpl. rewrite Er. reflexivity.
Qed.

Lemma compileStatements_journal n h q curParam tail st ok q' st' :
  compileStatements n h q curParam tail st = Some ((ok, q'), st') ->
  query q' = query q /\
  exists j, since st st' j /\ started j = [] /\ outcome ok j.
Proof.
  revert q curParam tail st. induction n as [|n IH]; intros q curParam tail st H;
    simpl in H; [discriminate|].
  run_bind H as r st1 R1. destruct r as [[r stmt] consumed].
  run_bind H as u st2 R2.
  destruct (r =? SQLITE_OK) eqn:Er; simpl in H.
  - run_bind H as nParams st3 R3.
    destruct (_ <? _)%nat eqn:Eshort in H.
    + run_bind H as u1 st4 R4. run_bind H as u2 st5 R5. run_ret H.
      split; [reflexivity|].
      exists [c_prepare tail r; c_params_missing (query q)].
      split; [since_tac|]. split; [reflexivity|].
      exists [c_prepare tail r], (c_params_missing (query q)).
      split; [reflexivity|]. split; [reflexivity|].
      apply clean_one. simpl. rewrite Er. reflexivity.
    + run_bind H as bound st4 R4.
      apply bindParams_journal in R4 as (jb & Hjb & Hsb & Hob).
      destruct bound; simpl in H.
      * destruct (isEmpty _) in H.
        -- run_ret H. split; [reflexivity|].
           exists (c_prepare tail r :: jb). split; [since_tac|]. split; [exact Hsb|].
           apply outcome_cons; [|exact Hob]. simpl. rewrite Er. reflexivity.
        -- apply IH in H as (Hq & j & Hj & Hs & Ho). split; [exact Hq|].
           exists ((c_prepare tail r :: jb) ++ j). split; [since_tac|].
           split; [rewrite started_app; simpl; rewrite Hsb, Hs; reflexivity|].
           apply outcome_app; [|exact Ho].
           apply (outcome_cons true); [|exact Hob]. simpl. rewrite Er. reflexivity.
      * run_ret H. split; [reflexivity|].
        exists (c_prepare tail r :: jb). split; [since_tac|]. split; [exact Hsb|].
        apply outcome_cons; [|exact Hob]. simpl. rewrite Er. reflexivity.
  - run_bind H as u1 st3 R3. run_ret H. split; [reflexivity|].
    exists [c_prepare tail r]. split; [since_tac|]. split; [reflexivity|].
    apply outcome_fail_one. simpl. rewrite Er. reflexivity.
Qed.

Lemma executeStatements_journal q stmts st ok st' :
  executeStatements q stmts st = Some (ok, st') ->
  exists j, since st st' j /\ started j = [] /\ outcome ok j.
Proof.
  revert st. induction stmts as [|stmt rest IH]; intros st H; simpl in H.
  - run_ret H. exists []. split; [apply since_refl|]. split; [reflexivity|apply clean_nil].
  - run_bind H as cc st1 R1. run_bind H as result st2 R2.
    apply stepStatement_journal in R2 as (js & Hjs & Hss & Hos).
    destruct (result =? SQLITE_DONE) eqn:Ed.
    + apply IH in H as (j & Hj & Hs & Ho).
      exists (js ++ j). split; [since_tac|].
      split; [rewrite started_app, Hss, Hs; reflexivity|].
      apply outcome_app; assumption.
    + run_bind H as u st3 R3. run_ret H.
      exists js. split; [since_tac|]. split; assumption.
Qed.

Lemma journal_fireInsertCallback h q st u st' :
  fireInsertCallback h q st = Some (u, st') -> journal st' = journal st.
Proof.
  unfold fireInsertCallback. destruct (insertCallback q); intros H.
  - run_bind H as rowid st1 R1. apply modify_run in H as ->. reflexivity.
  - run_ret H. reflexivity.
Qed.

Lemma runQuery_journal h q st ok q' st' :
  runQuery h q st = Some ((ok, q'), st') ->
  query q' = query q /\
  exists j, since st st' j /\ started j = [query q] /\ outcome ok j.
Proof.
  unfold runQuery. intros H.
  run_bind H as u st1 R1. run_bind H as r st2 R2. destruct r as [compiled q1].
  apply compileStatements_journal in R2 as (Hq & jc & Hjc & Hsc & Hoc).
  destruct compiled; simpl in H.
  - run_bind H as executed st3 R3.
    apply executeStatements_journal in R3 as (je & Hje & Hse & Hoe).
    destruct executed; simpl in H.
    + run_bind H as u1 st4 R4. run_ret H. apply journal_fireInsertCallback in R4.
      split; [exact Hq|].
      exists (c_begin_query (query q) :: jc ++ je). split; [since_tac|].
      split; [simpl; rewrite started_app, Hsc, Hse; reflexivity|].
      apply (outcome_cons true); [reflexivity|]. apply (outcome_app true); assumption.
    + run_ret H. split; [exact Hq|].
      exists (c_begin_query (query q) :: jc ++ je). split; [since_tac|].
      split; [simpl; rewrite started_app, Hsc, Hse; reflexivity|].
      apply outcome_cons; [reflexivity|]. apply outcome_app; assumption.
  - run_ret H. split; [exact Hq|].
    exists (c_begin_query (query q) :: jc). split; [since_tac|].
    split; [simpl; rewrite Hsc; reflexivity|].
    apply outcome_cons; [reflexivity|]. assumption.
Qed.

(** The queries of a transaction are run in order, up to the first failure. *)
Definition ran (ok : bool) (qs : list Query) (texts : list string) : Prop :=
  if ok then texts = map query qs
  else exists pre q post, qs = pre ++ q :: post /\ texts = map query (pre ++ [q]).

Lemma runQueries_journal h qs st ok qs' st' :
  runQueries h qs st = Some ((ok, qs'), st') ->
  map query qs' = map query qs /\
  exists j, since st st' j /\ outcome ok j /\ ran ok qs (started j).
Proof.
  revert st ok qs' st'. induction qs as [|q rest IH]; intros st ok qs' st' H; simpl in H.
  - run_ret H. split; [reflexivity|].
    exists []. split; [apply since_refl|]. split; [apply clean_nil|reflexivity].
  - run_bind H as r st1 R1. destruct r as [ok1 q1].
    apply runQuery_journal in R1 as (Hq & j1 & Hj1 & Hs1 & Ho1).
    destruct ok1; simpl in H.
    + run_bind H as r st2 R2. destruct r as [ok2 rest2]. run_ret H.
      apply IH in R2 as (Hm & j2 & Hj2 & Ho2 & Hr2).
      split; [simpl; rewrite Hq, Hm; reflexivity|].
      exists (j1 ++ j2). split; [since_tac|].
      split; [apply outcome_app; assumption|].
      rewrite started_app, Hs1. destruct ok; simpl in *.
      * rewrite Hr2. reflexivity.
      * destruct Hr2 as (pre & q2 & post & -> & ->).
        exists (q :: pre), q2, post. split; reflexivity.
    + run_ret H. split; [simpl; rewrite Hq; reflexivity|].
      exists j1. split; [exact Hj1|]. split; [exact Ho1|].
      exists [], q, rest. split; [reflexivity|]. simpl. rewrite Hs1. reflexivity.
Qed.

Lemma length_addTransactionCommands qs :
  map query (addTransactionCommands qs) =
  if (1 <? length qs)%nat then "BEGIN;" :: map query qs ++ ["COMMIT;"] else map query qs.
Proof.
  unfold addTransactionCommands. destruct (1 <? length qs)%nat; [|reflexivity].
  simpl. rewrite map_app. reflexivity.
Qed.

(** *** One transaction *)

Lemma store_opt_run c b st u st' :
  store_opt c b st = Some (u, st') ->
  st' = match c with Some c => set_atomics (<[c := b]> (atomics st)) st | None => st end.
Proof.
  destruct c as [c|]; simpl; intros H.
  - apply modify_run in H. exact H.
  - apply ret_run in H as [_ ->]. reflexivity.
Qed.

Lemma compileAndExecute_run h trans st trans' st' :
  compileAndExecute h trans st = Some (trans', st') ->
  exists ok j,
    since st st' j /\ outcome ok j /\
    ran ok (addTransactionCommands (queries trans)) (started j) /\
    map query (queries trans') = map query (addTransactionCommands (queries trans)) /\
    done trans' = done trans /\ success trans' = success trans /\
    atomics st' = match success trans with
                  | Some c => <[c := ok]> (atomics st)
                  | None => atomics st
                  end.
Proof.
  unfold compileAndExecute. intros H.
  run_bind H as u st1 R1. apply store_opt_run in R1.
  run_bind H as r st2 R2. destruct r as [completed qs].
  pose proof (runQueries_atomics _ _ _ _ _ R2) as Ha.
  apply runQueries_journal in R2 as (Hm & j & Hj & Ho & Hr).
  run_bind H as u2 st3 R3.
  assert (Hj1 : journal st1 = journal st) by (subst st1; destruct (success trans); reflexivity).
  assert (Hj3 : journal st3 = journal st2).
  { destruct completed; [|run_ret R3; reflexivity].
    apply store_opt_run in R3. subst st3. destruct (success trans); reflexivity. }
  assert (Ha3 : atomics st3 = match success trans with
                               | Some c => <[c := completed]> (atomics st)
                               | None => atomics st
                               end).
  { destruct (success trans) as [c|].
    - destruct completed.
      + apply store_opt_run in R3. subst st3 st1. simpl in *. rewrite Ha.
        apply list_insert_insert_eq.
      + run_ret R3. simpl in *. exact Ha.
    - destruct completed; [apply store_opt_run in R3|run_ret R3]; subst; simpl in *; exact Ha. }
  clear R1 R3. run_ret H.
  exists completed, j. simpl.
  split; [unfold since in *; congruence|].
  split; [exact Ho|]. split; [exact Hr|]. split; [exact Hm|].
  split; [reflexivity|]. split; [reflexivity|]. exact Ha3.
Qed.

Lemma compileAndExecute_quiet h trans st trans' st' :
  compileAndExecute h trans st = Some (trans', st') -> quiet st st'.
Proof.
  unfold compileAndExecute. intros H.
  run_bind H as u st1 R1. apply store_opt_run in R1.
  run_bind H as r st2 R2. destruct r as [completed qs].
  apply runQueries_quiet in R2.
  run_bind H as u2 st3 R3.
  assert (Q1 : quiet st st1)
    by (subst st1; destruct (success trans); apply quiet_same_journal; reflexivity).
  assert (Q3 : quiet st2 st3).
  { destruct completed; [|run_ret R3; apply quiet_refl].
    apply store_opt_run in R3. subst st3.
    destruct (success trans); apply quiet_same_journal; reflexivity. }
  clear R1 R3. run_ret H.
  eapply quiet_trans; [exact Q1|]. eapply quiet_trans; [exact R2|exact Q3].
Qed.

(** *** The queue *)

(** [worked]: the effect of the worker on the object while it serves
    transactions. *)
Definition worked (st st' : State) : Prop :=
  same_object st st' /\
  (exists j, since st st' j /\ lifecycle j = []) /\
  length (atomics st') = length (atomics st).

Lemma worked_refl st : worked st st.
Proof.
  split; [apply same_object_refl|]. split; [|reflexivity].
  exists []. split; [apply since_refl|reflexivity].
Qed.

Lemma worked_trans st1 st2 st3 : worked st1 st2 -> worked st2 st3 -> worked st1 st3.
Proof.
  intros (o1 & (j1 & s1 & l1) & a1) (o2 & (j2 & s2 & l2) & a2).
  split; [eapply same_object_trans; eassumption|]. split; [|congruence].
  exists (j1 ++ j2). split; [eapply since_trans; eassumption|].
  rewrite lifecycle_app, l1, l2. reflexivity.
Qed.

Lemma quiet_worked st st' :
  quiet st st' -> length (atomics st') = length (atomics st) -> worked st st'.
Proof. intros (o & _ & j) Ha. split; [exact o|]. split; [exact j|exact Ha]. Qed.

(** Serving one transaction: the body of the [forever] loop. *)
Definition serve (h : Handle env) (trans : Transaction) : M unit :=
  let* trans := compileAndExecute h trans in
  freeStatements (queries trans);;
  store_opt (done trans) true.

Lemma serve_run h trans st u st' :
  serve h trans st = Some (u, st') ->
  exists trans' st1,
    compileAndExecute h trans st = Some (trans', st1) /\
    quiet st st' /\
    atomics st' = match done trans with
                  | Some d => <[d := true]> (atomics st1)
                  | None => atomics st1
                  end.
Proof.
  unfold serve. intros H.
  run_bind H as trans' st1 R1. run_bind H as u1 st2 R2.
  apply store_opt_run in H.
  pose proof (compileAndExecute_quiet _ _ _ _ _ R1) as Q1.
  pose proof (freeStatements_quiet _ _ _ _ R2) as Q2.
  pose proof (freeStatements_atomics _ _ _ _ R2) as A2.
  pose proof (compileAndExecute_run _ _ _ _ _ R1) as (ok & j & _ & _ & _ & _ & Hd & _ & _).
  exists trans', st1. split; [exact R1|]. rewrite Hd in H. split.
  - eapply quiet_trans; [exact Q1|]. eapply quiet_trans; [exact Q2|].
    subst st'. destruct (done trans); [apply quiet_same_journal; reflexivity|apply quiet_refl].
  - subst st'. destruct (done trans); simpl; rewrite A2; reflexivity.
Qed.

Lemma serve_worked h trans st u st' : serve h trans st = Some (u, st') -> worked st st'.
Proof.
  intros H. pose proof H as H0. apply serve_run in H as (trans' & st1 & R1 & Q & Ha).
  apply quiet_worked; [exact Q|].
  apply compileAndExecute_run in R1 as (ok & j & _ & _ & _ & _ & _ & _ & Ha1).
  rewrite Ha, Ha1.
  destruct (done trans), (success trans); rewrite ?length_insert; reflexivity.
Qed.

Lemma processPending_unfold n h st :
  processPending n h st =
  match pendingTransactions st with
  | [] => Some (tt, st)
  | trans :: rest =>
      match n with
      | O => None
      | S n' => bind (serve h trans) (fun _ => processPending n' h)
                  (set_pendingTransactions rest st)
      end
  end.
Proof.
  destruct n as [|n]; simpl; unfold bind at 1, get; simpl;
    destruct (pendingTransactions st) as [|trans rest]; try reflexivity.
  unfold serve, bind, modify. simpl.
  destruct (compileAndExecute h trans _) as [[trans' st1]|]; [|reflexivity].
  destruct (freeStatements _ st1) as [[u st2]|]; [|reflexivity].
  destruct (store_opt _ _ st2) as [[u' st3]|]; reflexivity.
Qed.

(** The transactions queued in front of [T] are served first, and [T] is then
    the only one left. *)
Lemma processPending_app n h q T st u st' :
  pendingTransactions st = q ++ [T] ->
  processPending n h st = Some (u, st') ->
  exists st1,
    worked st st1 /\ pendingTransactions st1 = [T] /\
    processPending (n - length q) h st1 = Some (u, st').
Proof.
  revert n st. induction q as [|T0 q IH]; intros n st Hp H.
  - exists st. split; [apply worked_refl|]. split; [exact Hp|].
    rewrite Nat.sub_0_r. exact H.
  - rewrite processPending_unfold, Hp in H. simpl in H.
    destruct n as [|n]; [discriminate|].
    apply bind_Some in H as (u1 & st1 & R1 & H). cbv beta in H.
    pose proof (serve_worked _ _ _ _ _ R1) as W1.
    apply serve_run in R1 as (_ & _ & _ & (_ & Hq & _) & _).
    simpl in Hq.
    apply IH in H as (st2 & W2 & Hp2 & H); [|exact Hq].
    exists st2. split; [|split; [exact Hp2|exact H]].
    eapply worked_trans; [|exact W2].
    eapply worked_trans; [|exact W1].
    split; [repeat split|]. split; [|reflexivity].
    exists []. split; [|reflexivity]. unfold since. simpl. rewrite app_nil_r. reflexivity.
Qed.

Lemma processPending_worked n h st u st' :
  processPending n h st = Some (u, st') ->
  worked st st' /\ pendingTransactions st' = [].
Proof.
  revert st. induction n as [|n IH]; intros st H; rewrite processPending_unfold in H;
    destruct (pendingTransactions st) as [|T rest] eqn:Hp; try discriminate.
  - inversion H; subst. split; [apply worked_refl|exact Hp].
  - inversion H; subst. split; [apply worked_refl|exact Hp].
  - apply bind_Some in H as (u1 & st1 & R1 & H). cbv beta in H.
    apply serve_worked in R1. apply IH in H as [W Hq]. split; [|exact Hq].
    eapply worked_trans; [|exact W]. eapply worked_trans; [|exact R1].
    split; [repeat split|]. split; [|reflexivity].
    exists []. split; [|reflexivity]. unfold since. simpl. rewrite app_nil_r. reflexivity.
Qed.

Lemma process_worked st u st' :
  process st = Some (u, st') ->
  worked st st' /\ (sqlite st = None -> st' = st) /\
  (sqlite st <> None -> pendingTransactions st' = []).
Proof.
  unfold process. intros H. run_bind H as st0 st1 R1.
  destruct (sqlite st) as [h|] eqn:Hs.
  - apply processPending_worked in H as [W Hq].
    split; [exact W|]. split; [discriminate|]. intros _. exact Hq.
  - run_ret H. split; [apply worked_refl|]. split; [reflexivity|]. intros []. reflexivity.
Qed.

Lemma process_idle st : pendingTransactions st = [] -> process st = Some (tt, st).
Proof.
  intros Hp. unfold process, bind, get. destruct (sqlite st); [|reflexivity].
  rewrite processPending_unfold, Hp. reflexivity.
Qed.

(** *** [execNow] *)

(** The transaction [execNow] queues, with its two atomics. *)
Definition submitted (statements : list Query) (st : State) : Transaction :=
  mkTransaction statements (Some (length (atomics st))) (Some (S (length (atomics st)))).

(** [execNow] returns the success flag that [compileAndExecute] left for its
    own transaction, which the worker serves once the queue in front of it is
    empty. *)
Lemma execNow_run statements st r st' h :
  execNow statements st = Some (r, st') -> sqlite st = Some h ->
  exists st1 trans' st2 j,
    pendingTransactions st1 = [] /\
    (S (length (atomics st)) < length (atomics st1))%nat /\
    compileAndExecute h (submitted statements st) st1 = Some (trans', st2) /\
    since st1 st2 j /\ outcome r j /\
    atomics st2 !! S (length (atomics st)) = Some r /\
    same_object st st' /\ pendingTransactions st' = [] /\
    exists j', since st st' j' /\ lifecycle j' = [c_exec (map query statements) r].
Proof.
  unfold execNow. intros H Hs.
  run_bind H as st0 st0' R0. rewrite Hs in H.
  apply bind_Some in H as (d & sta & Ra & H); cbv beta in H.
  apply bind_Some in H as (s & stb & Rb & H); cbv beta in H.
  unfold new_atomic in Ra, Rb. inversion Ra; subst d sta; clear Ra.
  inversion Rb; subst s stb; clear Rb. simpl in H.
  assert (E : length (atomics st ++ [false]) = S (length (atomics st)))
    by (rewrite length_app; simpl; lia).
  rewrite !E in H. clear E.
  run_bind H as u1 st1 R1. run_bind H as u2 st2 R2.
  unfold process in R2. run_bind R2 as st3 st4 R3. simpl in R2. rewrite Hs in R2.
  rewrite length_app in R2.
  eapply processPending_app in R2 as (stq & Wq & Hpq & R2); [|simpl; reflexivity].
  simpl in R2.
  replace (length (pendingTransactions st) + 1 - length (pendingTransactions st))%nat
    with 1%nat in R2 by lia.
  rewrite processPending_unfold, Hpq in R2.
  apply bind_Some in R2 as (u3 & st5 & R5 & R2); cbv beta in R2.
  pose proof (serve_worked _ _ _ _ _ R5) as W5.
  apply serve_run in R5 as (trans' & st6 & R6 & Q5 & A5).
  pose proof (compileAndExecute_run _ _ _ _ _ R6)
    as (ok & j & Hj & Ho & _ & _ & _ & _ & A6).
  rewrite processPending_unfold in R2.
  destruct Q5 as (_ & Hp5 & _). simpl in Hp5. rewrite Hp5 in R2.
  inversion R2; subst st2; clear R2.
  destruct Wq as (Oq & (jq & Sq & Lq) & Aq). simpl in Aq.
  rewrite <- app_assoc in Aq. rewrite length_app in Aq. simpl in Aq.
  simpl in A5, A6.
  assert (Hload1 : atomics st5 !! length (atomics st) = Some true).
  { rewrite A5. apply list_lookup_insert_eq. rewrite A6, length_insert. simpl. lia. }
  assert (Hload2 : atomics st5 !! S (length (atomics st)) = Some ok).
  { rewrite A5, list_lookup_insert_ne by lia. rewrite A6.
    apply list_lookup_insert_eq. simpl. lia. }
  unfold load in H at 1. apply bind_Some in H as (fin & st7 & R7 & H); cbv beta in H.
  inversion R7; subst fin st7; clear R7. rewrite Hload1 in H. simpl in H.
  apply bind_Some in H as (ok' & st8 & R8 & H); cbv beta in H.
  unfold load in R8. inversion R8; subst ok' st8; clear R8. rewrite Hload2 in H. simpl in H.
  run_bind H as u4 st9 R9. run_ret H.
  exists (set_pendingTransactions [] stq), trans', st6, j.
  split; [reflexivity|]. split; [simpl; lia|]. split; [exact R6|].
  split; [exact Hj|]. split; [exact Ho|].
  split; [rewrite A6; apply list_lookup_insert_eq; simpl; lia|].
  destruct W5 as (O5 & (j5 & S5 & L5) & _).
  split.
  { eapply (same_object_trans _ stq); [exact Oq|]. exact O5. }
  split; [exact Hp5|].
  exists (jq ++ j5 ++ [c_exec (map query statements) r]). split.
  - unfold since in *. simpl in *. rewrite S5, Sq, <- !app_assoc. reflexivity.
  - rewrite !lifecycle_app, Lq, L5. reflexivity.
Qed.

Lemma execNow_closed statements st r st' :
  execNow statements st = Some (r, st') -> sqlite st = None ->
  r = false /\ same_object st st' /\ journal st' = journal st /\
  pendingTransactions st' = pendingTransactions st /\ world st' = world st.
Proof.
  unfold execNow. intros H Hs. run_bind H as st0 st0' R0. rewrite Hs in H.
  run_bind H as u st1 R1. run_ret H. repeat split.
Qed.

(** *** Transactions: wrapping and failure *)

Lemma ran_false_take qs texts :
  ran false qs texts -> exists k, texts = take (S k) (map query qs).
Proof.
  intros (pre & q & post & -> & ->). exists (length pre).
  rewrite !map_app. simpl.
  replace (S (length pre)) with (length (map query pre ++ [query q]))
    by (rewrite length_app, length_map; simpl; lia).
  change (map query pre ++ query q :: map query post)
    with (map query pre ++ [query q] ++ map query post).
  rewrite app_assoc, take_app_length. reflexivity.
Qed.

(** C1: a transaction of more than one query is run as [BEGIN;], its queries
    in order, [COMMIT;] (the worker stops at the first failure, so [COMMIT;]
    is only reached when everything before it succeeded); a transaction of
    exactly one query is run as that query alone. *)
Theorem compileAndExecute_transaction_commands h trans st trans' st' :
  compileAndExecute h trans st = Some (trans', st') ->
  let texts := map query (queries trans) in
  exists (ok : bool) j,
    since st st' j /\ outcome ok j /\
    ((1 < length (queries trans))%nat ->
       map query (queries trans') = "BEGIN;" :: texts ++ ["COMMIT;"] /\
       if ok then started j = "BEGIN;" :: texts ++ ["COMMIT;"]
       else exists k, started j = "BEGIN;" :: take k (texts ++ ["COMMIT;"])) /\
    (length (queries trans) = 1%nat ->
       map query (queries trans') = texts /\ started j = texts).
Proof.
  intros H texts.
  apply compileAndExecute_run in H as (ok & j & Hj & Ho & Hr & Hm & _).
  exists ok, j. split; [exact Hj|]. split; [exact Ho|].
  rewrite length_addTransactionCommands in Hm.
  split.
  - intros Hlen. apply Nat.ltb_lt in Hlen. rewrite Hlen in Hm. split; [exact Hm|].
    destruct ok.
    + simpl in Hr. rewrite Hr, length_addTransactionCommands, Hlen. reflexivity.
    + apply ran_false_take in Hr as (k & Hk).
      rewrite length_addTransactionCommands, Hlen in Hk. exists k. exact Hk.
  - intros Hlen.
    assert (Hnot : (1 <? length (queries trans))%nat = false)
      by (apply Nat.ltb_ge; lia).
    rewrite Hnot in Hm. split; [exact Hm|].
    unfold addTransactionCommands in Hr. rewrite Hnot in Hr.
    destruct ok; [exact Hr|].
    destruct Hr as (pre & q & post & Hq & ->).
    destruct (queries trans) as [|q0 [|q1 rest]] eqn:Eq; simpl in Hlen; try lia.
    destruct pre as [|p pre]; simpl in Hq.
    + inversion Hq; subst. reflexivity.
    + inversion Hq as [[Hp Hrest]]. destruct pre; discriminate.
Qed.

Lemma clean_not_error j e : clean j -> e ∈ j -> is_error e = true -> False.
Proof.
  intros Hc He Herr. unfold clean in Hc. rewrite Forall_forall in Hc.
  rewrite (Hc e He) in Herr. discriminate.
Qed.

(** C2: a compile, bind or step failure is the last call the worker makes for
    the transaction, whose success flag is then false; and [execNow] returns
    the flag of its own transaction, so it returns false on such a failure. *)
Theorem failed_transaction_is_aborted :
  (forall h trans st trans' st' j e c,
      compileAndExecute h trans st = Some (trans', st') ->
      since st st' j -> e ∈ j -> is_error e = true ->
      success trans = Some c -> (c < length (atomics st))%nat ->
      (exists j0, j = j0 ++ [e] /\ clean j0) /\ atomics st' !! c = Some false)
  /\
  (forall h statements st r st',
      execNow statements st = Some (r, st') -> sqlite st = Some h ->
      exists st1 trans' st2 j,
        compileAndExecute h (submitted statements st) st1 = Some (trans', st2) /\
        since st1 st2 j /\
        (forall e, e ∈ j -> is_error e = true -> r = false) /\
        (clean j -> r = true)).
Proof.
  split.
  - intros h trans st trans' st' j e c H Hj He Herr Hc Hlt.
    apply compileAndExecute_run in H as (ok & j' & Hj' & Ho & _ & _ & _ & _ & Ha).
    rewrite (since_inj _ _ _ _ Hj Hj') in *. clear Hj.
    destruct ok; simpl in Ho; [exfalso; eapply clean_not_error; eassumption|].
    destruct Ho as (j0 & e' & -> & He' & H0).
    apply elem_of_app in He as [He|He]; [exfalso; eapply clean_not_error; eassumption|].
    apply list_elem_of_singleton in He. subst e'.
    split; [exists j0; split; [reflexivity|exact H0]|].
    rewrite Ha, Hc. apply list_lookup_insert_eq. exact Hlt.
  - intros h statements st r st' H Hs.
    eapply execNow_run in H as (st1 & trans' & st2 & j & _ & _ & R & Hj & Ho & _); [|exact Hs].
    exists st1, trans', st2, j. split; [exact R|]. split; [exact Hj|]. split.
    + intros e He Herr. destruct r; [|reflexivity].
      exfalso. eapply clean_not_error; eassumption.
    + intros Hc. destruct r; [reflexivity|].
      destruct Ho as (j0 & e & -> & He & _). exfalso.
      eapply clean_not_error; [exact Hc| |exact He].
      apply elem_of_app. right. constructor.
Qed.

(** *** The calls of the life cycle *)

(** [calls st st' L]: between [st] and [st'] the life cycle made the calls
    [L] (the calls of the worker on statements lie in between). *)
Definition calls (st st' : State) (L : list Call) : Prop :=
  exists j, since st st' j /\ lifecycle j = L.

Lemma calls_refl st : calls st st [].
Proof. exists []. split; [apply since_refl|reflexivity]. Qed.

Lemma calls_trans st1 st2 st3 L1 L2 :
  calls st1 st2 L1 -> calls st2 st3 L2 -> calls st1 st3 (L1 ++ L2).
Proof.
  intros (j1 & s1 & l1) (j2 & s2 & l2). exists (j1 ++ j2).
  split; [eapply since_trans; eassumption|]. rewrite lifecycle_app, l1, l2. reflexivity.
Qed.

Lemma calls_journal_eq st1 st2 st' L :
  journal st2 = journal st1 -> calls st2 st' L -> calls st1 st' L.
Proof. intros E (j & s & l). exists j. split; [eapply since_journal_eq; eassumption|exact l]. Qed.

Lemma calls_record st c :
  low_level c = false -> calls st (set_journal (journal st ++ [c]) st) [c].
Proof. intros Hc. exists [c]. split; [reflexivity|]. simpl. rewrite Hc. reflexivity. Qed.

Lemma calls_cons st c st' L :
  low_level c = false ->
  calls (set_journal (journal st ++ [c]) st) st' L -> calls st st' (c :: L).
Proof.
  intros Hc H. change (c :: L) with ([c] ++ L).
  eapply calls_trans; [apply calls_record, Hc|exact H].
Qed.

Lemma worked_calls st st' : worked st st' -> calls st st' [].
Proof. intros (_ & H & _). exact H. Qed.

Lemma execNow_open statements st r st' h :
  execNow statements st = Some (r, st') -> sqlite st = Some h ->
  same_object st st' /\ pendingTransactions st' = [] /\
  calls st st' [c_exec (map query statements) r].
Proof.
  intros H Hs.
  eapply execNow_run in H as (st1 & trans' & st2 & j & _ & _ & _ & _ & _ & _ & O & P & C);
    [|exact Hs].
  split; [exact O|]. split; [exact P|exact C].
Qed.

Lemma execNowS_open text st r st' h :
  execNowS text st = Some (r, st') -> sqlite st = Some h ->
  same_object st st' /\ pendingTransactions st' = [] /\ calls st st' [c_exec [text] r].
Proof. apply execNow_open. Qed.

Lemma same_object_sqlite st st' h :
  same_object st st' -> sqlite st = Some h -> sqlite st' = Some h.
Proof. intros (H & _) Hs. congruence. Qed.

Definition keyText (hexKey : string) : string :=
  "PRAGMA key = " +:+ dquote +:+ "x'" +:+ hexKey +:+ "'" +:+ dquote.

Definition usableText : string := "SELECT count(*) FROM sqlite_master;".

Lemma setKey_open hexKey st r st' h :
  setKey hexKey st = Some (r, st') -> sqlite st = Some h ->
  same_object st st' /\ pendingTransactions st' = [] /\
  calls st st' [c_exec [keyText hexKey] r].
Proof.
  unfold setKey. intros H Hs. run_bind H as ok st1 R1.
  eapply execNowS_open in R1 as (O & P & C); [|exact Hs].
  destruct ok; simpl in H.
  - run_ret H. split; [exact O|]. split; [exact P|exact C].
  - run_bind H as u st2 R2. run_ret H. split; [exact O|]. split; [exact P|exact C].
Qed.

Lemma setCipherParameters_open params database st r st' h :
  setCipherParameters params database st = Some (r, st') -> sqlite st = Some h ->
  same_object st st' /\ pendingTransactions st' = [] /\
  calls st st' [c_exec [cipherParametersText params database] r].
Proof.
  unfold setCipherParameters. intros H Hs. run_bind H as u st1 R1.
  eapply execNowS_open in H as (O & P & C); [|exact Hs].
  split; [exact O|]. split; [exact P|exact C].
Qed.

Lemma testUsable_open st r st' h :
  testUsable st = Some (r, st') -> sqlite st = Some h ->
  same_object st st' /\ pendingTransactions st' = [] /\
  calls st st' [c_exec [usableText] r].
Proof. apply execNowS_open. Qed.

(** *** Detection of the saved parameters *)

Definition failedProbe (hexKey : string) (i : nat) : list Call :=
  [c_exec [keyText hexKey] true;
   c_exec [cipherParametersText (params_of_int i) None] true;
   c_exec [usableText] false].

Definition goodProbe (hexKey : string) (i : nat) : list Call :=
  [c_exec [keyText hexKey] true;
   c_exec [cipherParametersText (params_of_int i) None] true;
   c_exec [usableText] true].

(** A probe that stops on its key or its parameters (the two [break]s). *)
Definition brokenProbe (hexKey : string) (i : nat) (L : list Call) : Prop :=
  L = [c_exec [keyText hexKey] false] \/
  L = [c_exec [keyText hexKey] true;
       c_exec [cipherParametersText (params_of_int i) None] false].

Lemma probeSavedParams_run hexKey k i st found st' h :
  probeSavedParams hexKey k i st = Some (found, st') -> sqlite st = Some h ->
  same_object st st' /\
  exists n last,
    calls st st' (flat_map (failedProbe hexKey) (seq i n) ++ last) /\
    match found with
    | Some p => (n < k)%nat /\ last = goodProbe hexKey (i + n) /\ p = params_of_int (i + n)
    | None => (n = k /\ last = []) \/ ((n < k)%nat /\ brokenProbe hexKey (i + n) last)
    end.
Proof.
  revert i st. induction k as [|k IH]; intros i st H Hs; simpl in H.
  - run_ret H. split; [apply same_object_refl|].
    exists 0%nat, []. split; [apply calls_refl|]. left. split; reflexivity.
  - run_bind H as keyed st1 R1.
    eapply setKey_open in R1 as (O1 & _ & C1); [|exact Hs].
    pose proof (same_object_sqlite _ _ _ O1 Hs) as Hs1.
    destruct keyed; simpl in H.
    + run_bind H as set st2 R2.
      eapply setCipherParameters_open in R2 as (O2 & _ & C2); [|exact Hs1].
      pose proof (same_object_sqlite _ _ _ O2 Hs1) as Hs2.
      destruct set; simpl in H.
      * run_bind H as usable st3 R3.
        eapply testUsable_open in R3 as (O3 & _ & C3); [|exact Hs2].
        pose proof (same_object_sqlite _ _ _ O3 Hs2) as Hs3.
        pose proof (calls_trans _ _ _ _ _ C1 (calls_trans _ _ _ _ _ C2 C3)) as C.
        simpl in C.
        destruct usable.
        -- run_ret H.
           split; [eapply same_object_trans; [exact O1|eapply same_object_trans; eassumption]|].
           exists 0%nat, (goodProbe hexKey i). split; [exact C|].
           rewrite Nat.add_0_r. split; [lia|]. split; reflexivity.
        -- eapply IH in H as (O4 & n & last & C4 & Hf); [|exact Hs3].
           split; [eapply same_object_trans; [exact O1|];
                   eapply same_object_trans; [exact O2|];
                   eapply same_object_trans; eassumption|].
           exists (S n), last. split.
           ++ exact (calls_trans _ _ _ (failedProbe hexKey i) _ C C4).
           ++ replace (i + S n)%nat with (S i + n)%nat by lia.
              destruct found as [p|].
              ** destruct Hf as (Hn & Hl & Hp). split; [lia|]. split; assumption.
              ** destruct Hf as [[Hn Hl]|[Hn Hb]]; [left; split; [lia|exact Hl]|].
                 right. split; [lia|exact Hb].
      * run_ret H.
        split; [eapply same_object_trans; eassumption|].
        exists 0%nat, [c_exec [keyText hexKey] true;
                       c_exec [cipherParametersText (params_of_int i) None] false].
        split; [exact (calls_trans _ _ _ _ _ C1 C2)|].
        right. split; [lia|]. rewrite Nat.add_0_r. right. reflexivity.
    + run_ret H. split; [exact O1|].
      exists 0%nat, [c_exec [keyText hexKey] false]. split; [exact C1|].
      right. split; [lia|]. left. reflexivity.
Qed.


(** *** The highest supported parameters *)




Lemma highestSupportedParams_open st r st' h :
  highestSupportedParams st = Some (r, st') -> sqlite st = Some h ->
  same_object st st' /\ pendingTransactions st' = [] /\
  exists ok, calls st st' [c_exec ["PRAGMA cipher_version"] ok].
Proof.
  unfold highestSupportedParams. intros H Hs.
  apply bind_Some in H as (c & st0 & R0 & H); cbv beta in H.
  unfold new_local in R0. inversion R0; subst c st0; clear R0.
  apply bind_Some in H as (ok & st1 & R1 & H); cbv beta in H.
  eapply execNow_open in R1 as (O & P & C); [|exact Hs]. simpl in C.
  assert (E : st' = st1 \/ exists l, st' = set_log l st1).
  { destruct ok; simpl in H.
    - apply bind_Some in H as (v & st2 & R2 & H); cbv beta in H.
      unfold read_local in R2. inversion R2; subst v st2; clear R2.
      destruct (paramsOfMajorVersion _); run_bind H as u st3 R3; run_ret H;
        right; eexists; reflexivity.
    - run_bind H as u st3 R3. run_ret H. right. eexists. reflexivity. }
  assert (O' : same_object st st1) by exact O.
  split; [|split; [|exists ok]]; destruct E as [->|[l ->]]; simpl; assumption.
Qed.

(** *** The user version *)

Lemma getUserVersion_open st v st' h :
  getUserVersion st = Some (v, st') -> sqlite st = Some h ->
  same_object st st' /\ pendingTransactions st' = [] /\
  exists ok, calls st st' [c_exec ["PRAGMA user_version"] ok] /\ (0 <= v -> ok = true).
Proof.
  unfold getUserVersion. intros H Hs.
  apply bind_Some in H as (c & st0 & R0 & H); cbv beta in H.
  unfold new_local in R0. inversion R0; subst c st0; clear R0.
  apply bind_Some in H as (ok & st1 & R1 & H); cbv beta in H.
  eapply execNow_open in R1 as (O & P & C); [|exact Hs]. simpl in C.
  assert (O' : same_object st st1) by exact O.
  destruct ok; simpl in H.
  - apply bind_Some in H as (x & st2 & R2 & H); cbv beta in H.
    unfold read_local in R2. inversion R2; subst x st2; clear R2. run_ret H.
    split; [exact O'|]. split; [exact P|]. exists true. split; [exact C|reflexivity].
  - run_bind H as u st3 R3. run_ret H.
    split; [exact O'|]. split; [exact P|]. exists false. split; [|lia].
    destruct C as (j & Hj & Hl). exists j. split; [exact Hj|exact Hl].
Qed.

(** *** [close] *)

Lemma close_run st u st' :
  close st = Some (u, st') ->
  exists rc,
    calls st st' [c_close rc] /\
    path st' = path st /\ currentSalt st' = currentSalt st /\
    currentHexKey st' = currentHexKey st /\
    sqlite st' = (if rc =? SQLITE_OK then None else sqlite st) /\
    (sqlite st <> None -> pendingTransactions st' = []).
Proof.
  unfold close. intros H. run_bind H as u1 st1 R1.
  apply process_worked in R1 as (((Os & Op & Osa & Ok) & W & _) & _ & Hp).
  run_bind H as st2 st3 R2. run_bind H as rc st4 R4. run_bind H as u2 st5 R5.
  exists rc. destruct (rc =? SQLITE_OK).
  - apply modify_run in H. subst st'. simpl.
    split; [|repeat split; auto].
    eapply calls_trans with (L1 := []); [exact W|].
    exists [c_close rc]. split; reflexivity.
  - apply qlog_run in H. subst st'. simpl.
    split; [|repeat split; auto].
    eapply calls_trans with (L1 := []); [exact W|].
    exists [c_close rc]. split; reflexivity.
Qed.

Lemma close_idle st :
  pendingTransactions st = [] ->
  exists st', close st = Some (tt, st').
Proof.
  intros Hp. unfold close.
  rewrite (bind_eq _ _ _ _ _ (process_idle _ Hp)).
  unfold bind, get, call, record, modify, qlog.
  destruct (sqlite3_close env (sqlite st) (world st)) as [rc w]. simpl.
  destruct (rc =? SQLITE_OK); eexists; reflexivity.
Qed.

(** *** [setPassword] with nothing to do *)


(** *** [rename] *)

(** C6: [rename] first drains the queue.  With the path it already has it
    returns true and does nothing more; when the new path is taken it returns
    false, and the store is as the drain left it; otherwise it closes, moves
    the file and, when the move succeeded, opens the new path with the
    current key. *)
Theorem rename_cases newPath st st1 h :
  sqlite st = Some h -> process st = Some (tt, st1) ->
  pendingTransactions st1 = [] /\
  (path st = newPath -> rename newPath st = Some (true, st1)) /\
  (path st <> newPath -> QFile_exists env newPath (world st1) = true ->
   exists st',
     rename newPath st = Some (false, st') /\
     sqlite st' = Some h /\ path st' = path st /\
     currentHexKey st' = currentHexKey st /\ world st' = world st1 /\
     journal st' = journal st1 ++ [c_exists newPath true]) /\
  (path st <> newPath -> QFile_exists env newPath (world st1) = false ->
   exists st2 rc,
     close (set_journal (journal st1 ++ [c_exists newPath false]) st1) = Some (tt, st2) /\
     calls st1 st2 [c_exists newPath false; c_close rc] /\
     sqlite st2 = (if rc =? SQLITE_OK then None else Some h) /\
     let moved := fst (QFile_rename env (path st) newPath (world st2)) in
     let st3 := set_journal (journal st2 ++ [c_rename (path st) newPath moved])
                  (set_world (snd (QFile_rename env (path st) newPath (world st2))) st2) in
     rename newPath st =
     if moved then open depth newPath (currentHexKey st) (set_path newPath st3)
     else Some (false, st3)).
Proof.
  intros Hs Hp.
  pose proof (process_worked _ _ _ Hp) as (((Os & Opath & Osalt & Okey) & _ & _) & _ & Hq).
  assert (Hq1 : pendingTransactions st1 = []) by (apply Hq; congruence).
  assert (Hunf : rename newPath st =
                 (if String.eqb (path st) newPath then ret true
                  else
                    let* taken := fileExists newPath in
                    if taken then ret false
                    else
                      close;;
                      let* moved := renameFile (path st) newPath in
                      if negb moved then ret false
                      else modify (set_path newPath);;
                           open depth newPath (currentHexKey st)) st1).
  { unfold rename. rewrite (bind_eq _ _ st st st eq_refl). rewrite Hs.
    rewrite (bind_eq _ _ _ _ _ Hp). reflexivity. }
  split; [exact Hq1|]. split; [|split].
  - intros E. rewrite Hunf. apply String.eqb_eq in E. rewrite E. reflexivity.
  - intros E Ex. apply String.eqb_neq in E. rewrite Hunf, E.
    unfold fileExists, bind at 1, ask, bind at 1, record, modify. rewrite Ex. simpl.
    eexists. split; [reflexivity|]. simpl. rewrite Os, Opath, Okey, Hs. repeat split.
  - intros E Ex. apply String.eqb_neq in E. rewrite Hunf, E.
    unfold fileExists, bind at 1, ask, bind at 1, record, modify. rewrite Ex. simpl.
    set (st1' := set_journal (journal st1 ++ [c_exists newPath false]) st1).
    destruct (close_idle st1') as (st2 & Hc); [exact Hq1|].
    pose proof (close_run _ _ _ Hc) as (rc & C & _ & _ & _ & Hsq & _).
    exists st2, rc. split; [exact Hc|]. split; [|split].
    + apply calls_cons; [reflexivity|exact C].
    + rewrite Hsq. simpl. rewrite Os, Hs. reflexivity.
    + rewrite (bind_eq _ _ _ _ _ Hc).
      unfold renameFile, bind at 1, bind at 1, call.
      destruct (QFile_rename env (path st) newPath (world st2)) as [moved w]. simpl.
      unfold bind at 1, record, modify. simpl.
      destruct moved; reflexivity.
Qed.

(** *** Export and swap *)

Definition swapCalls (p : string) (rc : Z) (b1 b2 : bool) : list Call :=
  [c_close rc; c_remove p b1; c_rename (tmpOf p) p b2].

Lemma commitDbSwap_run reopen hexKey st st' :
  commitDbSwap reopen hexKey st = Some (true, st') ->
  exists st2 rc b1 b2,
    calls st st2 (swapCalls (path st) rc b1 b2) /\
    reopen (path st) hexKey (set_currentHexKey hexKey st2) = Some (true, st').
Proof.
  unfold commitDbSwap. intros H.
  run_bind H as u st1 R1.
  apply close_run in R1 as (rc & C1 & Hpath & _).
  run_bind H as st2 st3 R2. run_bind H as b1 st4 R4.
  unfold removeFile in R4. run_bind R4 as b1' st5 R5. run_bind R4 as u1 st6 R6. run_ret R4.
  run_bind H as b2 st7 R7.
  unfold renameFile in R7. run_bind R7 as b2' st8 R8. run_bind R7 as u2 st9 R9. run_ret R7.
  run_bind H as u3 st10 R10. run_bind H as opened st11 R11.
  destruct opened; simpl in H; [|run_bind H as u4 st12 R12; run_ret H].
  run_ret H. rewrite Hpath in *.
  eexists _, rc, b1, b2. split; [|exact R11].
  eapply (calls_trans _ _ _ [c_close rc]); [exact C1|].
  exists [c_remove (path st) b1; c_rename (tmpOf (path st)) (path st) b2].
  split; [|reflexivity]. unfold since. simpl. rewrite <- app_assoc. reflexivity.
Qed.

Definition attachText (p alias hexKey : string) : string :=
  "ATTACH DATABASE '" +:+ p +:+ ".tmp' AS " +:+ alias +:+ " KEY "
  +:+ dquote +:+ "x'" +:+ hexKey +:+ "'" +:+ dquote +:+ ";".

Definition exportText (alias : string) : string :=
  "SELECT sqlcipher_export('" +:+ alias +:+ "');".

Definition setUserVersionText (alias : string) (v : Z) : string :=
  "PRAGMA " +:+ alias +:+ ".user_version = " +:+ QString_number v +:+ ";".

Definition detachText (alias : string) : string :=
  "DETACH DATABASE " +:+ alias +:+ ";".

Definition decryptExportText (p : string) : string :=
  "ATTACH DATABASE '" +:+ p +:+ ".tmp' AS plaintext KEY '';"
  +:+ "SELECT sqlcipher_export('plaintext');".

(** One step of an export: a statement that has to succeed. *)
Ltac exec_step H Hs ok st R O C :=
  let P := fresh "P" in
  apply bind_Some in H as (ok & st & R & H); cbv beta in H;
  lazymatch type of R with
  | setCipherParameters _ _ _ = _ =>
      eapply setCipherParameters_open in R as (O & P & C); [|exact Hs]
  | execNowS _ _ = _ =>
      eapply execNowS_open in R as (O & P & C); [|exact Hs]
  end;
  clear P;
  destruct ok; simpl in H;
  [ | first [ run_ret H | run_bind H as u0 st0 R0; run_ret H ] ].

Lemma encryptDatabase_run newHexKey st st' h :
  encryptDatabase newHexKey st = Some (true, st') -> sqlite st = Some h ->
  exists v st1 st2 rc b1 b2,
    getUserVersion st = Some (v, st1) /\ 0 <= v /\
    calls st1 st2
      ([c_exec [attachText (path st) "encrypted" newHexKey] true;
        c_exec [cipherParametersText p4_0 (Some "encrypted")] true;
        c_exec [exportText "encrypted"] true;
        c_exec [setUserVersionText "encrypted" v] true;
        c_exec [detachText "encrypted"] true]
       ++ swapCalls (path st) rc b1 b2) /\
    open depth (path st) newHexKey (set_currentHexKey newHexKey st2) = Some (true, st').
Proof.
  unfold encryptDatabase. intros H Hs.
  apply bind_Some in H as (v & st1 & R1 & H); cbv beta in H.
  pose proof (getUserVersion_open _ _ _ _ R1 Hs) as ((_ & Hpath & _) & _ & _).
  pose proof (getUserVersion_open _ _ _ _ R1 Hs) as (O1 & _ & _).
  pose proof (same_object_sqlite _ _ _ O1 Hs) as Hs1.
  destruct (v <? 0) eqn:Ev; [run_ret H|]. apply Z.ltb_ge in Ev.
  run_bind H as stx sty Rx.
  exec_step H Hs1 ok2 st2 R2 O2 C2.
  pose proof (same_object_sqlite _ _ _ O2 Hs1) as Hs2.
  exec_step H Hs2 ok3 st3 R3 O3 C3.
  pose proof (same_object_sqlite _ _ _ O3 Hs2) as Hs3.
  exec_step H Hs3 ok4 st4 R4 O4 C4.
  pose proof (same_object_sqlite _ _ _ O4 Hs3) as Hs4.
  exec_step H Hs4 ok5 st5 R5 O5 C5.
  pose proof (same_object_sqlite _ _ _ O5 Hs4) as Hs5.
  exec_step H Hs5 ok6 st6 R6 O6 C6.
  apply commitDbSwap_run in H as (st7 & rc & b1 & b2 & C7 & Hopen).
  assert (Hp6 : path st6 = path st).
  { destruct O2 as (_ & p2 & _), O3 as (_ & p3 & _), O4 as (_ & p4 & _),
      O5 as (_ & p5 & _), O6 as (_ & p6 & _). congruence. }
  rewrite Hp6 in *. rewrite Hpath in *.
  exists v, st1, st7, rc, b1, b2. split; [exact R1|]. split; [exact Ev|].
  split; [|exact Hopen].
  pose proof (calls_trans _ _ _ _ _ C2 (calls_trans _ _ _ _ _ C3
               (calls_trans _ _ _ _ _ C4 (calls_trans _ _ _ _ _ C5
               (calls_trans _ _ _ _ _ C6 C7))))) as C.
  exact C.
Qed.

Lemma decryptDatabase_run st st' h :
  decryptDatabase st = Some (true, st') -> sqlite st = Some h ->
  exists v st1 st2 rc b1 b2,
    getUserVersion st = Some (v, st1) /\ 0 <= v /\
    calls st1 st2
      ([c_exec [decryptExportText (path st)] true;
        c_exec [setUserVersionText "plaintext" v] true;
        c_exec [detachText "plaintext"] true]
       ++ swapCalls (path st) rc b1 b2) /\
    open depth (path st) EmptyString (set_currentHexKey EmptyString st2) = Some (true, st').
Proof.
  unfold decryptDatabase. intros H Hs.
  apply bind_Some in H as (v & st1 & R1 & H); cbv beta in H.
  pose proof (getUserVersion_open _ _ _ _ R1 Hs) as ((_ & Hpath & _) & _ & _).
  pose proof (getUserVersion_open _ _ _ _ R1 Hs) as (O1 & _ & _).
  pose proof (same_object_sqlite _ _ _ O1 Hs) as Hs1.
  destruct (v <? 0) eqn:Ev; [run_ret H|]. apply Z.ltb_ge in Ev.
  run_bind H as stx sty Rx.
  exec_step H Hs1 ok2 st2 R2 O2 C2.
  pose proof (same_object_sqlite _ _ _ O2 Hs1) as Hs2.
  exec_step H Hs2 ok3 st3 R3 O3 C3.
  pose proof (same_object_sqlite _ _ _ O3 Hs2) as Hs3.
  exec_step H Hs3 ok4 st4 R4 O4 C4.
  apply commitDbSwap_run in H as (st7 & rc & b1 & b2 & C7 & Hopen).
  assert (Hp4 : path st4 = path st).
  { destruct O2 as (_ & p2 & _), O3 as (_ & p3 & _), O4 as (_ & p4 & _). congruence. }
  rewrite Hp4 in *. rewrite Hpath in *.
  exists v, st1, st7, rc, b1, b2. split; [exact R1|]. split; [exact Ev|].
  split; [|exact Hopen].
  exact (calls_trans _ _ _ _ _ C2 (calls_trans _ _ _ _ _ C3 (calls_trans _ _ _ _ _ C4 C7))).
Qed.

Lemma readSavedCipherParams_open hexKey newParams st r st' h :
  readSavedCipherParams hexKey newParams st = Some (r, st') -> sqlite st = Some h ->
  same_object st st'.
Proof.
  unfold readSavedCipherParams. intros H Hs. run_bind H as found st1 R1.
  eapply probeSavedParams_run in R1 as (O1 & _); [|exact Hs].
  destruct found; [run_ret H; exact O1|].
  run_bind H as u st2 R2. run_ret H. exact O1.
Qed.

Lemma updateSavedCipherParameters_run reopen hexKey newParams st st' h :
  updateSavedCipherParameters reopen hexKey newParams st = Some (true, st') ->
  sqlite st = Some h ->
  exists st0 v st1 st2 rc b1 b2 st3,
    same_object st st0 /\
    getUserVersion st0 = Some (v, st1) /\ 0 <= v /\
    calls st1 st2
      ([c_exec [attachText (path st) "newParams" hexKey] true;
        c_exec [cipherParametersText newParams (Some "newParams")] true;
        c_exec [exportText "newParams"] true;
        c_exec [setUserVersionText "newParams" v] true;
        c_exec [detachText "newParams"] true]
       ++ swapCalls (path st) rc b1 b2) /\
    reopen (path st) hexKey (set_currentHexKey hexKey st2) = Some (true, st3) /\
    st' = set_log (log st3 ++ [(Info, "Upgraded database from SQLCipher params")]) st3.
Proof.
  unfold updateSavedCipherParameters. intros H Hs.
  apply bind_Some in H as (currentParams & sta & Ra & H); cbv beta in H.
  pose proof (readSavedCipherParams_open _ _ _ _ _ _ Ra Hs) as Oa.
  pose proof (same_object_sqlite _ _ _ Oa Hs) as Hsa.
  apply bind_Some in H as (keyed & stb & Rb & H); cbv beta in H.
  eapply setKey_open in Rb as (Ob & _ & _); [|exact Hsa].
  pose proof (same_object_sqlite _ _ _ Ob Hsa) as Hsb.
  apply bind_Some in H as (set & stc & Rc & H); cbv beta in H.
  eapply setCipherParameters_open in Rc as (Oc & _ & _); [|exact Hsb].
  pose proof (same_object_sqlite _ _ _ Oc Hsb) as Hsc.
  destruct set; simpl in H; [|run_ret H].
  apply bind_Some in H as (v & st1 & R1 & H); cbv beta in H.
  pose proof (getUserVersion_open _ _ _ _ R1 Hsc) as (O1 & _ & _).
  pose proof (same_object_sqlite _ _ _ O1 Hsc) as Hs1.
  destruct (v <? 0) eqn:Ev; [run_ret H|]. apply Z.ltb_ge in Ev.
  run_bind H as stx sty Rx.
  exec_step H Hs1 ok2 st2 R2 O2 C2.
  pose proof (same_object_sqlite _ _ _ O2 Hs1) as Hs2.
  exec_step H Hs2 ok3 st3 R3 O3 C3.
  pose proof (same_object_sqlite _ _ _ O3 Hs2) as Hs3.
  exec_step H Hs3 ok4 st4 R4 O4 C4.
  pose proof (same_object_sqlite _ _ _ O4 Hs3) as Hs4.
  exec_step H Hs4 ok5 st5 R5 O5 C5.
  pose proof (same_object_sqlite _ _ _ O5 Hs4) as Hs5.
  exec_step H Hs5 ok6 st6 R6 O6 C6.
  apply bind_Some in H as (swapped & st8 & R8 & H); cbv beta in H.
  destruct swapped; simpl in H; [|run_ret H].
  apply commitDbSwap_run in R8 as (st7 & rc & b1 & b2 & C7 & Hopen).
  run_bind H as u9 st9 R9. run_ret H.
  assert (Hpc : path stc = path st).
  { destruct Oa as (_ & pa & _), Ob as (_ & pb & _), Oc as (_ & pc & _). congruence. }
  assert (Hp1 : path st1 = path st) by (destruct O1 as (_ & p1 & _); congruence).
  assert (Hp6 : path st6 = path st).
  { destruct O2 as (_ & p2 & _), O3 as (_ & p3 & _), O4 as (_ & p4 & _),
      O5 as (_ & p5 & _), O6 as (_ & p6 & _). congruence. }
  rewrite Hp6 in *. rewrite Hp1 in *.
  exists stc, v, st1, st7, rc, b1, b2, st8.
  split; [eapply same_object_trans; [exact Oa|eapply same_object_trans; eassumption]|].
  split; [exact R1|]. split; [exact Ev|]. split; [|split; [exact Hopen|reflexivity]].
  exact (calls_trans _ _ _ _ _ C2 (calls_trans _ _ _ _ _ C3
           (calls_trans _ _ _ _ _ C4 (calls_trans _ _ _ _ _ C5
           (calls_trans _ _ _ _ _ C6 C7))))).
Qed.


(** *** Opening *)

Lemma fileExists_run p st b st' :
  fileExists p st = Some (b, st') ->
  b = QFile_exists env p (world st) /\ st' = set_journal (journal st ++ [c_exists p b]) st.
Proof.
  unfold fileExists. intros H. run_bind H as b0 st1 R1. run_bind H as u st2 R2. run_ret H.
  split; reflexivity.
Qed.

Lemma renameFile_run src dst st b st' :
  renameFile src dst st = Some (b, st') ->
  sqlite st' = sqlite st /\ path st' = path st /\ currentSalt st' = currentSalt st /\
  currentHexKey st' = currentHexKey st /\
  pendingTransactions st' = pendingTransactions st /\
  journal st' = journal st ++ [c_rename src dst b].
Proof.
  unfold renameFile. intros H. run_bind H as b0 st1 R1. run_bind H as u st2 R2. run_ret H.
  repeat split.
Qed.

Lemma copyFile_run src dst st b st' :
  copyFile src dst st = Some (b, st') ->
  sqlite st' = sqlite st /\ path st' = path st /\ currentSalt st' = currentSalt st /\
  currentHexKey st' = currentHexKey st /\
  pendingTransactions st' = pendingTransactions st /\
  journal st' = journal st ++ [c_copy src dst b].
Proof.
  unfold copyFile. intros H. run_bind H as b0 st1 R1. run_bind H as u st2 R2. run_ret H.
  repeat split.
Qed.

Lemma createFunction_run h name st rc st' :
  createFunction h name st = Some (rc, st') ->
  sqlite st' = sqlite st /\ journal st' = journal st ++ [c_create_function name rc].
Proof.
  unfold createFunction. intros H. run_bind H as b0 st1 R1. run_bind H as u st2 R2. run_ret H.
  repeat split.
Qed.

Section OpenedHandle.

Variable reopen : string -> string -> M bool.
Hypothesis reopen_true :
  forall p k s s', reopen p k s = Some (true, s') -> sqlite s' <> None.

Lemma openEncrypted_true hexKey st st' h :
  openEncryptedDatabaseAtLatestSupportedVersion reopen hexKey st = Some (true, st') ->
  sqlite st = Some h -> sqlite st' <> None.
Proof.
  unfold openEncryptedDatabaseAtLatestSupportedVersion. intros H Hs.
  apply bind_Some in H as (keyed & st1 & R1 & H); cbv beta in H.
  eapply setKey_open in R1 as (O1 & _ & _); [|exact Hs].
  pose proof (same_object_sqlite _ _ _ O1 Hs) as Hs1.
  destruct keyed; simpl in H; [|run_ret H].
  apply bind_Some in H as (highest & st2 & R2 & H); cbv beta in H.
  eapply highestSupportedParams_open in R2 as (O2 & _ & _); [|exact Hs1].
  pose proof (same_object_sqlite _ _ _ O2 Hs1) as Hs2.
  apply bind_Some in H as (set & st3 & R3 & H); cbv beta in H.
  eapply setCipherParameters_open in R3 as (O3 & _ & _); [|exact Hs2].
  pose proof (same_object_sqlite _ _ _ O3 Hs2) as Hs3.
  destruct set; [|run_bind H as u st4 R4; run_ret H].
  apply bind_Some in H as (usable & st4 & R4 & H); cbv beta in H.
  eapply testUsable_open in R4 as (O4 & _ & _); [|exact Hs3].
  pose proof (same_object_sqlite _ _ _ O4 Hs3) as Hs4.
  destruct usable.
  - run_bind H as u st5 R5. run_ret H. simpl. congruence.
  - eapply updateSavedCipherParameters_run in H
      as (sa & v & sb & sc & rc & b1 & b2 & sd & _ & _ & _ & _ & Hre & ->); [|exact Hs4].
    simpl. eapply reopen_true, Hre.
Qed.

Lemma open_body_true path_ hexKey st st' :
  open_body reopen path_ hexKey st = Some (true, st') -> sqlite st' <> None.
Proof.
  unfold open_body. intros H.
  apply bind_Some in H as (present & st1 & R1 & H); cbv beta in H.
  apply bind_Some in H as (u & st2 & R2 & H); cbv beta in H. clear R1 R2.
  apply bind_Some in H as (r & st3 & R3 & H); cbv beta in H. clear R3.
  destruct r as [h|h].
  - run_bind H as u1 st4 R4. run_bind H as u2 st5 R5.
    apply bind_Some in H as (rc & st6 & R6 & H); cbv beta in H.
    apply createFunction_run in R6 as (Hs6 & _). simpl in Hs6.
    destruct (rc =? 0); simpl in H.
    + apply bind_Some in H as (rc' & st7 & R7 & H); cbv beta in H.
      apply createFunction_run in R7 as (Hs7 & _). rewrite Hs6 in Hs7.
      destruct (rc' =? 0); simpl in H.
      * destruct (isEmpty hexKey); simpl in H.
        -- run_ret H. congruence.
        -- apply bind_Some in H as (ok & st8 & R8 & H); cbv beta in H.
           destruct ok; simpl in H.
           ++ run_ret H. eapply openEncrypted_true; eassumption.
           ++ run_bind H as u3 st9 R9. run_ret H.
      * run_bind H as u3 st8 R8. run_bind H as u4 st9 R9. run_ret H.
    + run_bind H as u3 st8 R8. run_bind H as u4 st9 R9. run_ret H.
  - run_bind H as u1 st4 R4. run_bind H as u2 st5 R5. run_bind H as u3 st6 R6. run_ret H.
Qed.

End OpenedHandle.

(** A successful [open] leaves a handle. *)
Lemma open_true d path_ hexKey st st' :
  open d path_ hexKey st = Some (true, st') -> sqlite st' <> None.
Proof.
  revert path_ hexKey st st'. induction d as [|d IH]; intros path_ hexKey st st' H;
    simpl in H; [discriminate|].
  eapply open_body_true; [|exact H]. exact IH.
Qed.

(** *** The fallback of the constructor *)

(** When [setPassword] fails on an open store, the last thing it did was
    [close]. *)
Lemma setPassword_false password st st' h :
  setPassword password st = Some (false, st') -> sqlite st = Some h ->
  exists st1, close st1 = Some (tt, st').
Proof.
  unfold setPassword. intros H Hs.
  run_bind H as st0 st0' R0. rewrite Hs in H.
  apply bind_Some in H as (u & st1 & R1 & H); cbv beta in H.
  apply bind_Some in H as (stale & st2 & R2 & H); cbv beta in H.
  apply bind_Some in H as (u2 & st3 & R3 & H); cbv beta in H.
  destruct (isEmpty password); simpl in H.
  - destruct (isEmpty (currentHexKey st)); [run_ret H|].
    apply bind_Some in H as (ok & st4 & R4 & H); cbv beta in H.
    destruct ok; simpl in H; [run_ret H|].
    apply bind_Some in H as ([] & st5 & R5 & H); cbv beta in H. run_ret H.
    exists st4. exact R5.
  - apply bind_Some in H as (newHexKey & st4 & R4 & H); cbv beta in H.
    destruct (isEmpty (currentHexKey st)); simpl in H.
    + apply bind_Some in H as (ok & st5 & R5 & H); cbv beta in H.
      destruct ok; simpl in H; [run_bind H as u3 st6 R6; run_ret H|].
      apply bind_Some in H as ([] & st6 & R6 & H); cbv beta in H. run_ret H.
      exists st5. exact R6.
    + apply bind_Some in H as (ok & st5 & R5 & H); cbv beta in H.
      destruct ok; simpl in H; [run_ret H|].
      run_bind H as u3 st6 R6.
      apply bind_Some in H as ([] & st7 & R7 & H); cbv beta in H. run_ret H.
      eexists. exact R7.
Qed.

Lemma close_last st st' :
  close st = Some (tt, st') ->
  exists rc, last (lifecycle (journal st')) = Some (c_close rc) /\
             (rc = SQLITE_OK -> isOpen st' = false).
Proof.
  intros H. apply close_run in H as (rc & (j & Hj & Hl) & _ & _ & _ & Hs & _).
  exists rc. split.
  - rewrite Hj, lifecycle_app, Hl. apply last_snoc.
  - intros ->. unfold isOpen. rewrite Hs. reflexivity.
Qed.

(** C10 (amended): after the first [open] has failed, the constructor closes,
    copies the file to [.bak] and opens with the key of the old derivation.
    Without backup it stops there, the store open under that key.  With a
    backup it calls [setPassword]; a failure of that call is only logged, and
    [setPassword] has then closed the store: it is not left open. *)
Theorem openWithOldSalt_upgrade password st st' :
  openWithOldSalt password st = Some (tt, st') ->
  let legacy := deriveKey1 password in
  exists st1 copied st2 opened st3,
    close st = Some (tt, st1) /\
    copyFile (path st) (path st +:+ ".bak") st1 = Some (copied, st2) /\
    open depth (path st) legacy
      (set_currentHexKey legacy
         (if copied then st2
          else set_log (log st2 ++ [(Debug, "Couldn't create the backup of the database, won't upgrade")]) st2))
    = Some (opened, st3) /\
    (opened = true -> copied = false -> st' = st3) /\
    (opened = true -> copied = true ->
     exists changed st4,
       setPassword password st3 = Some (changed, st4) /\
       journal st' = journal st4 /\ sqlite st' = sqlite st4 /\
       (changed = false ->
        exists rc, last (lifecycle (journal st')) = Some (c_close rc) /\
                   (rc = SQLITE_OK -> isOpen st' = false))).
Proof.
  intros H legacy. unfold openWithOldSalt in H.
  run_bind H as st0 st0' R0.
  apply bind_Some in H as ([] & st1 & R1 & H); cbv beta in H.
  apply bind_Some in H as (copied & st2 & R2 & H); cbv beta in H.
  apply bind_Some in H as (u & st2' & R3 & H); cbv beta in H.
  run_bind H as u1 st2'' R4.
  apply bind_Some in H as (opened & st3 & R5 & H); cbv beta in H.
  exists st1, copied, st2, opened, st3.
  split; [exact R1|]. split; [exact R2|].
  assert (E : st2' = if copied then st2
                     else set_log (log st2 ++ [(Debug, "Couldn't create the backup of the database, won't upgrade")]) st2).
  { destruct copied; simpl in R3; [run_ret R3; reflexivity|].
    apply qlog_run in R3. exact R3. }
  rewrite E in R5. split; [exact R5|]. split.
  - intros -> ->. simpl in H. run_ret H. reflexivity.
  - intros -> ->. simpl in H.
    apply bind_Some in H as (changed & st4 & R6 & H); cbv beta in H.
    exists changed, st4. split; [exact R6|].
    assert (E' : exists l, st' = set_log l st4).
    { destruct changed; apply qlog_run in H; eexists; exact H. }
    destruct E' as (l & ->). simpl. split; [reflexivity|]. split; [reflexivity|].
    intros ->.
    destruct (sqlite st3) as [h|] eqn:Hs3; [|exfalso; eapply open_true; eassumption].
    eapply setPassword_false in R6 as (st5 & Hc); [|exact Hs3].
    apply close_last in Hc. exact Hc.
Qed.

(** *** Key derivation *)

Definition is_lower_hex (c : ascii) : bool :=
  in_range "0" "9" c || in_range "a" "f" c.

Fixpoint all_chars (p : ascii -> bool) (s : string) : bool :=
  match s with
  | EmptyString => true
  | String c s' => p c && all_chars p s'
  end.

Lemma hex_digit_hex n : is_lower_hex (hex_digit n) = true.
Proof.
  unfold hex_digit.
  repeat match goal with
         | |- context [match ?x with _ => _ end] => destruct x
         end; reflexivity.
Qed.

Lemma toHex_hex b : all_chars is_lower_hex (toHex b) = true.
Proof.
  induction b as [|c b IH]; simpl; [reflexivity|].
  rewrite !hex_digit_hex, IH. reflexivity.
Qed.

Lemma toHex_length b : String.length (toHex b) = (2 * String.length b)%nat.
Proof. induction b as [|c b IH]; simpl; [reflexivity|]. rewrite IH. lia. Qed.

Lemma drop_chars_length n s : String.length (drop_chars n s) = (String.length s - n)%nat.
Proof.
  revert s. induction n as [|n IH]; intros s; simpl; [lia|].
  destruct s; simpl; [reflexivity|]. apply IH.
Qed.

Lemma take_chars_length n s :
  (n <= String.length s)%nat -> String.length (take_chars n s) = n.
Proof.
  revert s. induction n as [|n IH]; intros s H; simpl; [reflexivity|].
  destruct s; simpl in *; [lia|]. rewrite IH; [reflexivity|lia].
Qed.

Lemma hexOfPassKey_length key :
  (64 <= String.length key)%nat -> String.length (hexOfPassKey key) = 64%nat.
Proof.
  intros H. unfold hexOfPassKey. rewrite toHex_length, take_chars_length; [reflexivity|].
  rewrite drop_chars_length. lia.
Qed.

Lemma isEmpty_true s : isEmpty s = true <-> s = EmptyString.
Proof. destruct s; simpl; split; congruence. Qed.

Lemma length_nonempty s n : String.length s = S n -> s <> EmptyString.
Proof. intros H ->. discriminate. Qed.

(** C5: with a [Tox_Pass_Key] of at least 64 bytes, the salted derivation
    yields the empty key exactly for an empty password or a salt of the wrong
    length, and 64 lower-case hex digits otherwise; an empty password gives the
    empty key in both variants. *)
Theorem deriveKey_empty_iff password salt :
  (forall pw s, (64 <= String.length (tox_pass_key_derive_with_salt env pw s))%nat) ->
  (fst (deriveKey password salt) = EmptyString <->
   password = EmptyString \/ String.length salt <> TOX_PASS_SALT_LENGTH env) /\
  (password <> EmptyString -> String.length salt = TOX_PASS_SALT_LENGTH env ->
   String.length (fst (deriveKey password salt)) = 64%nat /\
   all_chars is_lower_hex (fst (deriveKey password salt)) = true) /\
  fst (deriveKey EmptyString salt) = EmptyString /\
  deriveKey1 EmptyString = EmptyString.
Proof.
  intros Hlen.
  assert (Hgood : password <> EmptyString ->
                  String.length salt = TOX_PASS_SALT_LENGTH env ->
                  fst (deriveKey password salt)
                  = hexOfPassKey (tox_pass_key_derive_with_salt env password salt)).
  { intros Hp Hs. unfold deriveKey.
    destruct (isEmpty password) eqn:E; [apply isEmpty_true in E; contradiction|].
    apply Nat.eqb_eq in Hs. rewrite Hs. reflexivity. }
  split; [|split; [|split; reflexivity]].
  - split.
    + intros H.
      destruct (isEmpty password) eqn:E; [left; apply isEmpty_true, E|].
      right. intros Hs. 
      assert (Hp : password <> EmptyString).
      { intros Hp. apply isEmpty_true in Hp. congruence. }
      rewrite (Hgood Hp Hs) in H.
      eapply length_nonempty; [|exact H]. apply hexOfPassKey_length, Hlen.
    + unfold deriveKey. intros [->|Hs]; [reflexivity|].
      destruct (isEmpty password); [reflexivity|].
      apply Nat.eqb_neq in Hs. rewrite Hs. reflexivity.
  - intros Hp Hs. rewrite (Hgood Hp Hs). split.
    + apply hexOfPassKey_length, Hlen.
    + apply toHex_hex.
Qed.


(** ** Further properties of the worker and of the life cycle *)

(** *** A store that is not open *)

(** X1: on a store that is not open, [execNow], [execLater], [setPassword],
    [rename] and [remove] only log a warning ([rename] the one of
    [setPassword]) and report failure, and [process] does nothing: no call
    reaches the engine or the file system and the queue is left as it is. *)
Theorem closed_store_refuses statements password newPath st :
  sqlite st = None ->
  let warned msg := set_log (log st ++ [(Warning, msg)]) st in
  execNow statements st
  = Some (false, warned "Trying to exec, but the database is not open") /\
  execLater statements st
  = Some (tt, warned "Trying to exec, but the database is not open") /\
  setPassword password st
  = Some (false, warned "Trying to change the password, but the database is not open") /\
  rename newPath st
  = Some (false, warned "Trying to change the password, but the database is not open") /\
  remove st
  = Some (false, warned "Trying to remove the database, but it is not open") /\
  process st = Some (tt, st).
Proof.
  intros Hs warned. unfold warned.
  unfold execNow, execLater, setPassword, rename, remove, process, bind, get.
  rewrite Hs. repeat split.
Qed.

(** *** The calls of one query *)

Fixpoint count (p : Call -> bool) (j : list Call) : nat :=
  match j with
  | [] => O
  | c :: j' => ((if p c then 1 else 0) + count p j')%nat
  end.

(** A statement that was compiled, a step, a statement that was freed. *)
Definition is_compiled (c : Call) : bool :=
  match c with c_prepare _ rc => rc =? SQLITE_OK | _ => false end.
Definition is_step (c : Call) : bool :=
  match c with c_step _ _ => true | _ => false end.
Definition is_finalize (c : Call) : bool :=
  match c with c_finalize => true | _ => false end.

(** The calls of the compilation of a query. *)
Definition is_compile (c : Call) : bool :=
  match c with
  | c_prepare _ _ | c_params_missing _ | c_bind _ _ => true
  | _ => false
  end.

Lemma count_app p j1 j2 : count p (j1 ++ j2) = (count p j1 + count p j2)%nat.
Proof. induction j1 as [|c j1 IH]; simpl; [reflexivity|]. rewrite IH. lia. Qed.

Lemma count_none p j : (forall c, c ∈ j -> p c = false) -> count p j = 0%nat.
Proof.
  induction j as [|c j IH]; intros H; simpl; [reflexivity|].
  rewrite (H c) by constructor. apply IH. intros c' Hc. apply H. constructor. exact Hc.
Qed.

Lemma compile_no_step j : forallb is_compile j = true -> count is_step j = 0%nat.
Proof.
  intros H. apply count_none. intros c Hc.
  rewrite forallb_forall in H. specialize (H c (proj1 (list_elem_of_In _ _) Hc)).
  destruct c; try discriminate; reflexivity.
Qed.

Lemma compile_no_finalize j : forallb is_compile j = true -> count is_finalize j = 0%nat.
Proof.
  intros H. apply count_none. intros c Hc.
  rewrite forallb_forall in H. specialize (H c (proj1 (list_elem_of_In _ _) Hc)).
  destruct c; try discriminate; reflexivity.
Qed.

Lemma step_no_finalize j : forallb is_step j = true -> count is_finalize j = 0%nat.
Proof.
  intros H. apply count_none. intros c Hc.
  rewrite forallb_forall in H. specialize (H c (proj1 (list_elem_of_In _ _) Hc)).
  destruct c; try discriminate; reflexivity.
Qed.

Lemma step_no_compiled j : forallb is_step j = true -> count is_compiled j = 0%nat.
Proof.
  intros H. apply count_none. intros c Hc.
  rewrite forallb_forall in H. specialize (H c (proj1 (list_elem_of_In _ _) Hc)).
  destruct c; try discriminate; reflexivity.
Qed.

Lemma bindParams_calls q stmt curParam k i st ok st' :
  bindParams q stmt curParam k i st = Some (ok, st') ->
  delivered st' = delivered st /\
  exists j, since st st' j /\ forallb is_compile j = true /\ count is_compiled j = 0%nat.
Proof.
  revert i st. induction k as [|k IH]; intros i st H; simpl in H.
  - run_ret H. split; [reflexivity|]. exists []. split; [apply since_refl|]. split; reflexivity.
  - run_bind H as r st1 R1. run_bind H as u st2 R2.
    destruct (r =? SQLITE_OK) eqn:Er; simpl in H.
    + apply IH in H as (Hd & j & Hj & Hc & Hn). split; [rewrite Hd; reflexivity|].
      exists (c_bind (curParam + i) r :: j). split; [since_tac|]. split; [exact Hc|exact Hn].
    + run_bind H as u' st3 R3. run_ret H. split; [reflexivity|].
      exists [c_bind (curParam + i) r]. split; [since_tac|]. split; reflexivity.
Qed.

(** Compiling adds one statement to the query for every call of
    [sqlite3_prepare_v2] that succeeded. *)
Lemma compileStatements_calls n h q curParam tail st ok q' st' :
  compileStatements n h q curParam tail st = Some ((ok, q'), st') ->
  delivered st' = delivered st /\
  insertCallback q' = insertCallback q /\ rowCallback q' = rowCallback q /\
  exists j, since st st' j /\ forallb is_compile j = true /\
            length (statements q') = (length (statements q) + count is_compiled j)%nat.
Proof.
  revert q curParam tail st. induction n as [|n IH]; intros q curParam tail st H;
    simpl in H; [discriminate|].
  run_bind H as r st1 R1. destruct r as [[r stmt] consumed].
  run_bind H as u st2 R2.
  destruct (r =? SQLITE_OK) eqn:Er; simpl in H.
  - run_bind H as nParams st3 R3.
    destruct (_ <? _)%nat eqn:Eshort in H.
    + run_bind H as u1 st4 R4. run_bind H as u2 st5 R5. run_ret H.
      split; [reflexivity|]. split; [reflexivity|]. split; [reflexivity|].
      exists [c_prepare tail r; c_params_missing (query q)].
      split; [since_tac|]. split; [reflexivity|].
      simpl. rewrite Er, length_app. simpl. lia.
    + run_bind H as bound st4 R4.
      apply bindParams_calls in R4 as (Hdb & jb & Hjb & Hcb & Hnb).
      destruct bound; simpl in H.
      * destruct (isEmpty _) in H.
        -- run_ret H. split; [exact Hdb|]. split; [reflexivity|]. split; [reflexivity|].
           exists (c_prepare tail r :: jb). split; [since_tac|]. split; [exact Hcb|].
           simpl. rewrite Er, Hnb, length_app. simpl. lia.
        -- apply IH in H as (Hd & Hi & Hr & j & Hj & Hc & Hn).
           split; [rewrite Hd; exact Hdb|]. split; [exact Hi|]. split; [exact Hr|].
           exists ((c_prepare tail r :: jb) ++ j). split; [since_tac|].
           split; [simpl; rewrite forallb_app, Hcb, Hc; reflexivity|].
           rewrite Hn. simpl. rewrite count_app, Er, Hnb, length_app. simpl. lia.
      * run_ret H. split; [exact Hdb|]. split; [reflexivity|]. split; [reflexivity|].
        exists (c_prepare tail r :: jb). split; [since_tac|]. split; [exact Hcb|].
        simpl. rewrite Er, Hnb, length_app. simpl. lia.
  - run_bind H as u1 st3 R3. run_ret H.
    split; [reflexivity|]. split; [reflexivity|]. split; [reflexivity|].
    exists [c_prepare tail r]. split; [since_tac|]. split; [reflexivity|].
    simpl. rewrite Er. lia.
Qed.

(** A step that yielded a row. *)
Definition is_row_step (c : Call) : bool :=
  match c with c_step _ rc => rc =? SQLITE_ROW | _ => false end.

(** What a client sees of the rows of a query: the two lambdas of this file
    are no clients. *)
Definition rows_of (q : Query) (rows : list (list QVariant)) : list CallbackEvent :=
  match rowCallback q with
  | ClientRowCallback client => map (ev_row client) rows
  | _ => []
  end.

Lemma rows_of_app q r1 r2 : rows_of q (r1 ++ r2) = rows_of q r1 ++ rows_of q r2.
Proof. unfold rows_of. destruct (rowCallback q); [reflexivity|apply map_app|reflexivity]. Qed.

Lemma fireRowCallback_delivered q row st u st' :
  fireRowCallback q row st = Some (u, st') ->
  journal st' = journal st /\ delivered st' = delivered st ++ rows_of q [row].
Proof.
  unfold fireRowCallback, rows_of. intros H.
  destruct (rowCallback q); [run_ret H|apply modify_run in H; subst st'..]; simpl;
    rewrite ?app_nil_r; split; reflexivity.
Qed.

Lemma stepStatement_calls n q stmt cc st result st' :
  stepStatement n q stmt cc st = Some (result, st') ->
  exists j rows,
    since st st' j /\ forallb is_step j = true /\
    length rows = count is_row_step j /\
    Forall (fun row => length row = cc) rows /\
    delivered st' = delivered st ++ rows_of q rows.
Proof.
  revert st result st'. induction n as [|n IH]; intros st result st' H; simpl in H;
    [discriminate|].
  run_bind H as a st1 R1. run_bind H as u st2 R2.
  destruct (a =? SQLITE_ROW) eqn:Erow.
  - run_bind H as u' st3 R3.
    apply bind_Some in R3 as (row & st4 & R4 & R3). cbv beta in R3.
    apply ask_run in R4 as [Hrow ->].
    apply fireRowCallback_delivered in R3 as [Hj3 Hd3].
    apply IH in H as (j & rows & Hj & Hs & Hn & Hl & Hd).
    exists (c_step (query q) a :: j), (row :: rows).
    split; [apply since_step; eapply since_journal_eq; [|exact Hj]; exact Hj3|].
    split; [exact Hs|]. split; [simpl; rewrite Erow, Hn; reflexivity|].
    split; [constructor; [|exact Hl]; subst row; rewrite length_map, length_seq; reflexivity|].
    rewrite Hd, Hd3. change (row :: rows) with ([row] ++ rows).
    rewrite rows_of_app, <- app_assoc. reflexivity.
  - run_ret H. exists [c_step (query q) result], [].
    split; [reflexivity|]. split; [reflexivity|]. split; [simpl; rewrite Erow; reflexivity|].
    split; [constructor|]. unfold rows_of. simpl.
    destruct (rowCallback q); rewrite app_nil_r; reflexivity.
Qed.

Lemma executeStatements_calls q stmts st ok st' :
  executeStatements q stmts st = Some (ok, st') ->
  exists j rows,
    since st st' j /\ forallb is_step j = true /\
    length rows = count is_row_step j /\
    delivered st' = delivered st ++ rows_of q rows.
Proof.
  revert st. induction stmts as [|stmt rest IH]; intros st H; simpl in H.
  - run_ret H. exists [], []. split; [apply since_refl|]. split; [reflexivity|].
    split; [reflexivity|]. unfold rows_of. destruct (rowCallback q); rewrite app_nil_r; reflexivity.
  - run_bind H as cc st1 R1. run_bind H as result st2 R2.
    apply stepStatement_calls in R2 as (js & rs & Hjs & Hss & Hns & _ & Hds).
    destruct (result =? SQLITE_DONE) eqn:Ed.
    + apply IH in H as (j & rows & Hj & Hs & Hn & Hd).
      exists (js ++ j), (rs ++ rows). split; [since_tac|].
      split; [rewrite forallb_app, Hss, Hs; reflexivity|].
      split; [rewrite length_app, count_app, Hns, Hn; reflexivity|].
      rewrite Hd, Hds, rows_of_app, <- app_assoc. reflexivity.
    + run_bind H as u st3 R3. run_ret H.
      exists js, rs. split; [since_tac|]. split; [exact Hss|]. split; [exact Hns|exact Hds].
Qed.

(** What the insert callback of a query receives. *)
Definition inserted (h : Handle env) (q : Query) (ok : bool) (st' : State)
    : list CallbackEvent :=
  match insertCallback q with
  | Some client =>
      if ok then [ev_insert client (sqlite3_last_insert_rowid env h (world st'))] else []
  | None => []
  end.

Lemma fireInsertCallback_delivered h q st u st' :
  fireInsertCallback h q st = Some (u, st') ->
  journal st' = journal st /\ delivered st' = delivered st ++ inserted h q true st'.
Proof.
  unfold fireInsertCallback, inserted. destruct (insertCallback q); intros H.
  - run_bind H as rowid st1 R1. apply modify_run in H as ->. split; reflexivity.
  - run_ret H. rewrite app_nil_r. split; reflexivity.
Qed.

(** One query: its statements are all compiled and bound before the first of
    them is stepped. *)
Lemma runQuery_calls h q st ok q' st' :
  runQuery h q st = Some ((ok, q'), st') ->
  exists jc je rows,
    since st st' (c_begin_query (query q) :: jc ++ je) /\
    forallb is_compile jc = true /\ forallb is_step je = true /\
    (clean jc \/ je = []) /\
    length (statements q') = (length (statements q) + count is_compiled jc)%nat /\
    length rows = count is_row_step je /\
    delivered st' = delivered st ++ rows_of q rows ++ inserted h q ok st'.
Proof.
  unfold runQuery. intros H.
  run_bind H as u st1 R1. run_bind H as r st2 R2. destruct r as [compiled q1].
  pose proof (compileStatements_journal _ _ _ _ _ _ _ _ _ R2) as (_ & jo & Hjo & _ & Hoc).
  apply compileStatements_calls in R2 as (Hd2 & Hi & Hr & jc & Hjc & Hcc & Hn).
  assert (jo = jc) by (eapply since_inj; eassumption). subst jo.
  assert (Hrows : forall rows, rows_of q1 rows = rows_of q rows)
    by (intros rows; unfold rows_of; rewrite Hr; reflexivity).
  destruct compiled; simpl in H.
  - run_bind H as executed st3 R3.
    apply executeStatements_calls in R3 as (je & rows & Hje & Hse & Hne & Hde).
    rewrite Hrows in Hde.
    exists jc, je, rows.
    assert (Hins : forall b s, inserted h q1 b s = inserted h q b s)
      by (intros b s; unfold inserted; rewrite Hi; reflexivity).
    destruct executed; simpl in H.
    + run_bind H as u1 st4 R4. run_ret H.
      apply fireInsertCallback_delivered in R4 as [Hj4 Hd4]. rewrite Hins in Hd4.
      split; [since_tac|]. split; [exact Hcc|]. split; [exact Hse|].
      split; [left; exact Hoc|]. split; [exact Hn|]. split; [exact Hne|].
      rewrite Hd4, Hde, Hd2. simpl. rewrite <- app_assoc. reflexivity.
    + run_ret H.
      split; [since_tac|]. split; [exact Hcc|]. split; [exact Hse|].
      split; [left; exact Hoc|]. split; [exact Hn|]. split; [exact Hne|].
      rewrite Hde, Hd2. simpl. unfold inserted. destruct (insertCallback q);
        rewrite ?app_nil_r; reflexivity.
  - run_ret H. exists jc, [], [].
    split; [rewrite app_nil_r; since_tac|]. split; [exact Hcc|]. split; [reflexivity|].
    split; [right; reflexivity|]. split; [exact Hn|]. split; [reflexivity|].
    rewrite Hd2. simpl. unfold rows_of, inserted.
    destruct (rowCallback q), (insertCallback q); rewrite ?app_nil_r; reflexivity.
Qed.

(** X2: a query of which one statement does not compile, lacks a parameter or
    cannot be bound is given up before any of its statements is stepped. *)
Theorem query_not_stepped_unless_compiled h q st ok q' st' j e :
  runQuery h q st = Some ((ok, q'), st') -> since st st' j ->
  e ∈ j -> is_compile e = true -> is_error e = true ->
  count is_step j = 0%nat /\ ok = false.
Proof.
  intros H Hj He Hc Herr.
  pose proof (runQuery_journal _ _ _ _ _ _ H) as (_ & jo & Hjo & _ & Ho).
  apply runQuery_calls in H as (jc & je & rows & Hs & Hcc & Hse & Hcl & _).
  assert (jo = j) by (eapply since_inj; eassumption). subst jo.
  assert (j = c_begin_query (query q) :: jc ++ je) by (eapply since_inj; eassumption).
  subst j. split.
  - destruct Hcl as [Hclean| ->].
    + exfalso. apply elem_of_cons in He as [->|He]; [discriminate|].
      apply elem_of_app in He as [He|He].
      * eapply clean_not_error; eassumption.
      * rewrite forallb_forall in Hse.
        specialize (Hse e (proj1 (list_elem_of_In _ _) He)).
        destruct e; discriminate.
    + rewrite app_nil_r. simpl. apply compile_no_step, Hcc.
  - destruct ok; [|reflexivity]. exfalso. simpl in Ho.
    eapply clean_not_error; eassumption.
Qed.

(** X3: the callbacks of a query.  A client's row callback is called once for
    every step that returned [SQLITE_ROW]; the insert callback is called once,
    after the last statement and with the row id the engine reports then, and
    only if the query succeeded. *)
Theorem query_callbacks h q st ok q' st' j :
  runQuery h q st = Some ((ok, q'), st') -> since st st' j ->
  exists rows,
    length rows = count is_row_step j /\
    delivered st' = delivered st ++ rows_of q rows ++ inserted h q ok st'.
Proof.
  intros H Hj.
  apply runQuery_calls in H as (jc & je & rows & Hs & Hcc & Hse & _ & _ & Hn & Hd).
  assert (j = c_begin_query (query q) :: jc ++ je) by (eapply since_inj; eassumption).
  subst j. exists rows. split; [|exact Hd].
  simpl. rewrite count_app, Hn.
  rewrite (count_none is_row_step jc); [reflexivity|].
  intros c Hc. rewrite forallb_forall in Hcc.
  specialize (Hcc c (proj1 (list_elem_of_In _ _) Hc)). destruct c; try discriminate; reflexivity.
Qed.

(** *** Statements are freed *)

(** The statements attached to the queries of a transaction. *)
Fixpoint attached (qs : list Query) : nat :=
  match qs with
  | [] => O
  | q :: rest => (length (statements q) + attached rest)%nat
  end.

Lemma attached_app qs1 qs2 : attached (qs1 ++ qs2) = (attached qs1 + attached qs2)%nat.
Proof. induction qs1 as [|q qs1 IH]; simpl; [reflexivity|]. rewrite IH. lia. Qed.

Lemma attached_addTransactionCommands qs :
  attached (addTransactionCommands qs) = attached qs.
Proof.
  unfold addTransactionCommands. destruct (1 <? length qs)%nat; [|reflexivity].
  simpl. rewrite attached_app. simpl. lia.
Qed.

Lemma runQueries_calls h qs st ok qs' st' :
  runQueries h qs st = Some ((ok, qs'), st') ->
  exists j, since st st' j /\ count is_finalize j = 0%nat /\
            attached qs' = (attached qs + count is_compiled j)%nat.
Proof.
  revert st ok qs' st'. induction qs as [|q rest IH]; intros st ok qs' st' H; simpl in H.
  - run_ret H. exists []. split; [apply since_refl|]. split; reflexivity.
  - run_bind H as r st1 R1. destruct r as [ok1 q1].
    apply runQuery_calls in R1 as (jc & je & rows & Hj1 & Hcc & Hse & _ & Hn & _).
    assert (F1 : count is_finalize (c_begin_query (query q) :: jc ++ je) = 0%nat)
      by (simpl; rewrite count_app, compile_no_finalize, step_no_finalize; trivial).
    assert (C1 : count is_compiled (c_begin_query (query q) :: jc ++ je)
                 = count is_compiled jc)
      by (simpl; rewrite count_app, (step_no_compiled je); [lia|exact Hse]).
    destruct ok1; simpl in H.
    + run_bind H as r st2 R2. destruct r as [ok2 rest2]. run_ret H.
      apply IH in R2 as (j2 & Hj2 & Hf2 & Ha2).
      exists ((c_begin_query (query q) :: jc ++ je) ++ j2).
      split; [eapply since_trans; eassumption|].
      split; [rewrite count_app, F1, Hf2; reflexivity|].
      rewrite count_app, C1. simpl. lia.
    + run_ret H. exists (c_begin_query (query q) :: jc ++ je).
      split; [exact Hj1|]. split; [exact F1|]. rewrite C1. simpl. lia.
Qed.

Lemma finalizeStatements_calls stmts st u st' :
  finalizeStatements stmts st = Some (u, st') ->
  since st st' (repeat c_finalize (length stmts)).
Proof.
  revert st. induction stmts as [|s stmts IH]; intros st H; simpl in H.
  - run_ret H. apply since_refl.
  - run_bind H as u1 st1 R1. run_bind H as u2 st2 R2. apply IH in H.
    simpl. since_tac.
Qed.

Lemma freeStatements_calls qs st u st' :
  freeStatements qs st = Some (u, st') ->
  since st st' (repeat c_finalize (attached qs)).
Proof.
  revert st. induction qs as [|q qs IH]; intros st H; simpl in H.
  - run_ret H. apply since_refl.
  - run_bind H as u1 st1 R1. apply finalizeStatements_calls in R1. apply IH in H.
    simpl. rewrite repeat_app. eapply since_trans; eassumption.
Qed.

Lemma count_finalize_repeat n : count is_finalize (repeat c_finalize n) = n.
Proof. induction n as [|n IH]; simpl; [reflexivity|]. rewrite IH. reflexivity. Qed.

Lemma count_compiled_repeat n : count is_compiled (repeat c_finalize n) = 0%nat.
Proof. induction n as [|n IH]; simpl; [reflexivity|exact IH]. Qed.

Lemma started_repeat n : started (repeat c_finalize n) = [].
Proof. induction n as [|n IH]; simpl; [reflexivity|exact IH]. Qed.

(** One transaction served: its queries are run in order up to the first
    failure, and every statement that was attached or compiled is freed. *)
Definition served (trans : Transaction) (j : list Call) : Prop :=
  (exists ok, ran ok (addTransactionCommands (queries trans)) (started j)) /\
  count is_finalize j = (attached (queries trans) + count is_compiled j)%nat.

Lemma serve_calls h trans st u st' :
  serve h trans st = Some (u, st') -> exists j, since st st' j /\ served trans j.
Proof.
  unfold serve. intros H.
  run_bind H as trans' st1 R1. run_bind H as u1 st2 R2.
  apply store_opt_run in H.
  apply freeStatements_calls in R2.
  assert (Hj : journal st' = journal st2)
    by (subst st'; destruct (done trans'); reflexivity).
  pose proof (compileAndExecute_run _ _ _ _ _ R1) as (ok & j & Hs & _ & Hr & _).
  unfold compileAndExecute in R1.
  run_bind R1 as u0 st0 R0. apply store_opt_run in R0.
  run_bind R1 as r st3 R3. destruct r as [completed qs].
  apply runQueries_calls in R3 as (jq & Hjq & Hfq & Haq).
  run_bind R1 as u3 st4 R4.
  assert (Hj0 : journal st0 = journal st)
    by (subst st0; destruct (success trans); reflexivity).
  assert (Hj4 : journal st4 = journal st3).
  { destruct completed; [|run_ret R4; reflexivity].
    apply store_opt_run in R4. subst st4. destruct (success trans); reflexivity. }
  clear R0 R4. run_ret R1. simpl in R2.
  assert (j = jq).
  { eapply since_inj; [exact Hs|]. unfold since in *. congruence. }
  subst jq.
  exists (j ++ repeat c_finalize (attached qs)). split.
  - unfold since in *. rewrite Hj, R2, Hs, app_assoc. reflexivity.
  - split.
    + exists ok. rewrite started_app, started_repeat, app_nil_r. exact Hr.
    + rewrite !count_app, count_finalize_repeat, count_compiled_repeat, Hfq, Haq,
        attached_addTransactionCommands. lia.
Qed.

Lemma processPending_calls n h st u st' :
  processPending n h st = Some (u, st') ->
  exists js, since st st' (concat js) /\ Forall2 served (pendingTransactions st) js.
Proof.
  revert st. induction n as [|n IH]; intros st H; rewrite processPending_unfold in H;
    destruct (pendingTransactions st) as [|T rest] eqn:Hp; try discriminate.
  - inversion H; subst. exists []. split; [apply since_refl|constructor].
  - inversion H; subst. exists []. split; [apply since_refl|constructor].
  - apply bind_Some in H as (u1 & st1 & R1 & H). cbv beta in H.
    pose proof (serve_run _ _ _ _ _ R1) as (_ & _ & _ & (_ & Hq & _) & _).
    apply serve_calls in R1 as (j1 & Hj1 & Hs1).
    apply IH in H as (js & Hjs & Hfs). simpl in Hq. rewrite Hq in Hfs.
    exists (j1 :: js). split; [|constructor; assumption].
    simpl. eapply since_trans; [|exact Hjs]. exact Hj1.
Qed.

(** X4: [process] serves the pending transactions one after the other in the
    order of the queue, a failed transaction does not keep the later ones
    from being run, and the queue is empty when it returns. *)
Theorem process_serves_queue_in_order st st' h :
  process st = Some (tt, st') -> sqlite st = Some h ->
  pendingTransactions st' = [] /\ same_object st st' /\
  exists js, since st st' (concat js) /\
    Forall2 (fun trans j =>
               exists ok, ran ok (addTransactionCommands (queries trans)) (started j))
      (pendingTransactions st) js.
Proof.
  intros H Hs.
  pose proof (process_worked _ _ _ H) as ((Ho & _) & _ & Hq).
  split; [apply Hq; rewrite Hs; discriminate|]. split; [exact Ho|].
  unfold process in H. run_bind H as st0 st1 R1. rewrite Hs in H.
  apply processPending_calls in H as (js & Hjs & Hf).
  exists js. split; [exact Hjs|].
  eapply Forall2_impl; [exact Hf|]. intros trans j [Hr _]. exact Hr.
Qed.


(** *** The wait of [execNow] *)

(** The object once [execNow] has queued its transaction. *)
Definition queued (statements : list Query) (st : State) : State :=
  set_pendingTransactions (pendingTransactions st ++ [submitted statements st])
    (set_atomics ((atomics st ++ [false]) ++ [false]) st).

(** X6: [execNow] on an open store returns as soon as the worker has gone
    through the queue: the worker sets the [done] flag of the transaction
    whether it succeeded or not, so the wait ends, and the result is the
    [success] flag. *)
Theorem execNow_returns statements st h u st2 :
  sqlite st = Some h ->
  process (queued statements st) = Some (u, st2) ->
  exists r,
    atomics st2 !! length (atomics st) = Some true /\
    atomics st2 !! S (length (atomics st)) = Some r /\
    execNow statements st
    = Some (r, set_journal (journal st2 ++ [c_exec (map query statements) r]) st2).
Proof.
  intros Hs H.
  assert (E : length (atomics st ++ [false]) = S (length (atomics st)))
    by (rewrite length_app; simpl; lia).
  assert (Hflags : exists r, atomics st2 !! length (atomics st) = Some true /\
                             atomics st2 !! S (length (atomics st)) = Some r).
  { pose proof H as R2.
    unfold process in R2. run_bind R2 as st3 st4 R3. simpl in R2. rewrite Hs in R2.
    rewrite length_app in R2.
    eapply processPending_app in R2 as (stq & Wq & Hpq & R2); [|simpl; reflexivity].
    simpl in R2.
    replace (length (pendingTransactions st) + 1 - length (pendingTransactions st))%nat
      with 1%nat in R2 by lia.
    rewrite processPending_unfold, Hpq in R2.
    apply bind_Some in R2 as (u3 & st5 & R5 & R2); cbv beta in R2.
    apply serve_run in R5 as (trans' & st6 & R6 & Q5 & A5).
    pose proof (compileAndExecute_run _ _ _ _ _ R6)
      as (ok & j & _ & _ & _ & _ & _ & _ & A6).
    rewrite processPending_unfold in R2.
    destruct Q5 as (_ & Hp5 & _). simpl in Hp5. rewrite Hp5 in R2.
    inversion R2; subst st2; clear R2.
    destruct Wq as (_ & _ & Aq). simpl in Aq.
    rewrite <- app_assoc in Aq. rewrite length_app in Aq. simpl in Aq.
    simpl in A5, A6. exists ok. split.
    - rewrite A5. apply list_lookup_insert_eq. rewrite A6, length_insert. simpl. lia.
    - rewrite A5, list_lookup_insert_ne by lia. rewrite A6.
      apply list_lookup_insert_eq. simpl. lia. }
  destruct Hflags as (r & Hd & Hr). exists r. split; [exact Hd|]. split; [exact Hr|].
  unfold execNow, bind at 1, get. rewrite Hs.
  unfold bind at 1, new_atomic. unfold bind at 1. simpl. rewrite E.
  unfold bind at 1, modify. simpl.
  match goal with
  | |- bind process ?k _ = ?rhs => change (bind process k (queued statements st) = rhs)
  end.
  unfold bind at 1. rewrite H.
  unfold bind at 1, load. rewrite Hd. simpl.
  unfold bind at 1. rewrite Hr. reflexivity.
Qed.

(** *** [close] and [remove] *)

(** X7: [close] first serves the pending transactions and then calls
    [sqlite3_close]; the handle is dropped exactly when that call returns
    [SQLITE_OK], otherwise it is kept and a warning is logged. *)
Theorem close_flushes_then_closes st st' :
  close st = Some (tt, st') ->
  exists st1,
    process st = Some (tt, st1) /\
    let rc := fst (sqlite3_close env (sqlite st) (world st1)) in
    journal st' = journal st1 ++ [c_close rc] /\
    world st' = snd (sqlite3_close env (sqlite st) (world st1)) /\
    (if rc =? SQLITE_OK
     then isOpen st' = false /\ log st' = log st1
     else sqlite st' = sqlite st /\
          log st' = log st1 ++ [(Warning, "Error closing database:")]) /\
    path st' = path st /\ currentHexKey st' = currentHexKey st /\
    (sqlite st <> None -> pendingTransactions st' = []).
Proof.
  unfold close. intros H.
  apply bind_Some in H as ([] & st1 & R1 & H); cbv beta in H.
  pose proof (process_worked _ _ _ R1) as (((Os & Op & Osa & Ok) & _ & _) & _ & Hp).
  exists st1. split; [exact R1|].
  run_bind H as st2 st3 R2.
  apply bind_Some in H as (rc & st4 & R4 & H); cbv beta in H.
  apply call_run in R4 as [Hrc ->]. unfold returned in Hrc. rewrite Os in Hrc.
  run_bind H as u2 st5 R5. rewrite Os in H. cbv zeta. rewrite <- Hrc.
  destruct (rc =? SQLITE_OK).
  - apply modify_run in H. subst st'. simpl. repeat split; auto.
  - apply qlog_run in H. subst st'. simpl. repeat split; auto.
Qed.

Lemma removeFile_calls p st b st' :
  removeFile p st = Some (b, st') ->
  calls st st' [c_remove p b] /\ same_object st st' /\
  pendingTransactions st' = pendingTransactions st.
Proof.
  unfold removeFile. intros H.
  run_bind H as r st1 R1. run_bind H as u st2 R2. run_ret H.
  split; [exists [c_remove p b]; split; reflexivity|]. repeat split.
Qed.

Lemma fileExists_calls p st b st' :
  fileExists p st = Some (b, st') ->
  calls st st' [c_exists p b] /\ same_object st st' /\
  pendingTransactions st' = pendingTransactions st.
Proof.
  intros H. apply fileExists_run in H as [_ ->].
  split; [exists [c_exists p b]; split; reflexivity|]. repeat split.
Qed.

(** X8: [remove] on an open store closes it and then deletes the file, also
    when the handle could not be closed; its result is the one of
    [QFile::remove]. *)
Theorem remove_closes_then_deletes st r st' h :
  remove st = Some (r, st') -> sqlite st = Some h ->
  exists rc,
    calls st st' [c_close rc; c_remove (path st) r] /\
    sqlite st' = (if rc =? SQLITE_OK then None else Some h) /\
    path st' = path st /\ pendingTransactions st' = [].
Proof.
  unfold remove. intros H Hs.
  run_bind H as st0 st0' R0. rewrite Hs in H.
  run_bind H as u1 st1 R1.
  apply bind_Some in H as ([] & st2 & R2 & H); cbv beta in H.
  apply close_run in R2 as (rc & C2 & Hp2 & _ & _ & Hs2 & Hq2).
  apply removeFile_calls in H as (C3 & (Hs3 & Hp3 & _) & Hq3).
  exists rc. split.
  - eapply calls_journal_eq with (st2 := set_log _ st); [reflexivity|].
    exact (calls_trans _ _ _ _ _ C2 C3).
  - rewrite Hs3, Hs2, Hp3, Hp2, Hq3. simpl. rewrite Hs.
    repeat split. apply Hq2. simpl. rewrite Hs. discriminate.
Qed.

(** *** Opening without a key *)

(** What [open] does about a missing file: nothing when the file is there or
    has no [.tmp] sibling, else the sibling is moved into its place. *)
Definition restoreCalls (path_ : string) (L : list Call) : Prop :=
  L = [c_exists path_ true] \/
  L = [c_exists path_ false; c_exists (tmpOf path_) false] \/
  exists b, L = [c_exists path_ false; c_exists (tmpOf path_) true;
                 c_rename (tmpOf path_) path_ b].

Lemma restore_run (path_ : string) (present : bool) st u st' :
  (if negb present then
     let* tmp := fileExists (tmpOf path_) in
     if tmp then
       qlog Warning "Restoring database from temporary export file! Did we crash while changing the password or upgrading?";;
       renameFile (tmpOf path_) path_;; ret tt
     else ret tt
   else ret tt) st = Some (u, st') ->
  same_object st st' /\ pendingTransactions st' = pendingTransactions st /\
  exists pre, calls st st' pre /\ restoreCalls path_ (c_exists path_ present :: pre).
Proof.
  intros H. destruct present; simpl in H.
  - run_ret H. split; [repeat split|]. split; [reflexivity|].
    exists []. split; [apply calls_refl|left; reflexivity].
  - apply bind_Some in H as (tmp & st2 & R2 & H); cbv beta in H.
    apply fileExists_run in R2 as [_ ->].
    destruct tmp; simpl in H.
    + run_bind H as u1 st3 R3.
      apply bind_Some in H as (b & st4 & R4 & H); cbv beta in H. run_ret H.
      apply renameFile_run in R4 as (E1 & E2 & E3 & E4 & E5 & E6). simpl in *.
      split; [repeat split; assumption|]. split; [exact E5|].
      exists [c_exists (tmpOf path_) true; c_rename (tmpOf path_) path_ b].
      split; [|right; right; exists b; reflexivity].
      exists [c_exists (tmpOf path_) true; c_rename (tmpOf path_) path_ b].
      split; [|reflexivity]. unfold since. rewrite E6. simpl.
      rewrite <- !app_assoc. reflexivity.
    + run_ret H. split; [repeat split|]. split; [reflexivity|].
      exists [c_exists (tmpOf path_) false].
      split; [|right; left; reflexivity].
      exists [c_exists (tmpOf path_) false].
      split; [|reflexivity]. unfold since. simpl. reflexivity.
Qed.

Lemma calls_app_nil st1 st2 st3 L :
  calls st1 st2 L -> calls st2 st3 [] -> calls st1 st3 L.
Proof. intros H1 H2. rewrite <- (app_nil_r L). eapply calls_trans; eassumption. Qed.

Lemma createFunction_calls h name st rc st' :
  createFunction h name st = Some (rc, st') ->
  calls st st' [c_create_function name rc] /\ same_object st st' /\
  pendingTransactions st' = pendingTransactions st.
Proof.
  unfold createFunction. intros H.
  run_bind H as r st1 R1. run_bind H as u st2 R2. run_ret H.
  split; [exists [c_create_function name rc]; split; reflexivity|]. repeat split.
Qed.

Lemma open_plain_run d path_ st r st' :
  open (S d) path_ EmptyString st = Some (r, st') ->
  currentHexKey st' = currentHexKey st /\ path st' = path st /\
  exists pre rest,
    calls st st' (pre ++ rest) /\ restoreCalls path_ pre /\
    if r then
      rest = [c_open path_ true; c_create_function "regexp" 0;
              c_create_function "regexpsensitive" 0] /\
      isOpen st' = true
    else
      rest = [c_open path_ false] \/
      (exists rc1 rc, rc1 <> 0 /\
         rest = [c_open path_ true; c_create_function "regexp" rc1; c_close rc]) \/
      (exists rc2 rc, rc2 <> 0 /\
         rest = [c_open path_ true; c_create_function "regexp" 0;
                 c_create_function "regexpsensitive" rc2; c_close rc]).
Proof.
  simpl. unfold open_body. intros H.
  apply bind_Some in H as (present & st0 & R0 & H); cbv beta in H.
  apply fileExists_calls in R0 as (C0 & (_ & Op0 & _ & Ok0) & _).
  apply bind_Some in H as (u & st1 & R1 & H); cbv beta in H.
  apply restore_run in R1 as ((_ & Op1' & _ & Ok1') & _ & pre' & C1' & Hpre).
  pose proof (calls_trans _ _ _ _ _ C0 C1') as C1. simpl in C1.
  assert (Op1 : path st1 = path st) by congruence.
  assert (Ok1 : currentHexKey st1 = currentHexKey st) by congruence.
  set (pre := c_exists path_ present :: pre') in *.
  clearbody pre. clear C0 C1' Op0 Ok0 Op1' Ok1'.
  apply bind_Some in H as (res & st2 & R2 & H); cbv beta in H.
  apply call_run in R2 as [_ ->].
  destruct res as [h|h'].
  - run_bind H as u2 st3 R3. run_bind H as u3 st4 R4.
    apply bind_Some in H as (rc1 & st5 & R5 & H); cbv beta in H.
    apply createFunction_calls in R5 as (C5 & (Os5 & Op5 & _ & Ok5) & _).
    assert (C4 : calls st1 st5 [c_open path_ true; c_create_function "regexp" rc1]).
    { eapply (calls_trans _ _ _ [c_open path_ true]); [|exact C5].
      exists [c_open path_ true]. split; reflexivity. }
    destruct (rc1 =? 0) eqn:E1; simpl in H.
    + apply Z.eqb_eq in E1. subst rc1.
      apply bind_Some in H as (rc2 & st6 & R6 & H); cbv beta in H.
      apply createFunction_calls in R6 as (C6 & (Os6 & Op6 & _ & Ok6) & _).
      pose proof (calls_trans _ _ _ _ _ C4 C6) as C7. simpl in C7.
      destruct (rc2 =? 0) eqn:E2; simpl in H.
      * apply Z.eqb_eq in E2. subst rc2. run_ret H.
        split; [rewrite Ok6, Ok5; exact Ok1|]. split; [rewrite Op6, Op5; exact Op1|].
        exists pre, [c_open path_ true; c_create_function "regexp" 0;
                     c_create_function "regexpsensitive" 0].
        split; [exact (calls_trans _ _ _ _ _ C1 C7)|]. split; [exact Hpre|].
        split; [reflexivity|]. unfold isOpen. rewrite Os6, Os5. reflexivity.
      * apply Z.eqb_neq in E2. run_bind H as u4 st7 R7.
        apply bind_Some in H as ([] & st8 & R8 & H); cbv beta in H. run_ret H.
        apply close_run in R8 as (rc & C8 & Op8 & _ & Ok8 & _).
        split; [rewrite Ok8; simpl; rewrite Ok6, Ok5; exact Ok1|].
        split; [rewrite Op8; simpl; rewrite Op6, Op5; exact Op1|].
        exists pre, [c_open path_ true; c_create_function "regexp" 0;
                     c_create_function "regexpsensitive" rc2; c_close rc].
        split; [|split; [exact Hpre|]].
        -- eapply calls_trans; [exact C1|].
           apply (calls_trans _ _ _ _ _ C7).
           eapply calls_journal_eq; [|exact C8]. reflexivity.
        -- right. right. exists rc2, rc. split; [exact E2|reflexivity].
    + apply Z.eqb_neq in E1. run_bind H as u4 st7 R7.
      apply bind_Some in H as ([] & st8 & R8 & H); cbv beta in H. run_ret H.
      apply close_run in R8 as (rc & C8 & Op8 & _ & Ok8 & _).
      split; [rewrite Ok8; simpl; rewrite Ok5; exact Ok1|].
      split; [rewrite Op8; simpl; rewrite Op5; exact Op1|].
      exists pre, [c_open path_ true; c_create_function "regexp" rc1; c_close rc].
      split; [|split; [exact Hpre|]].
      * eapply calls_trans; [exact C1|].
        apply (calls_trans _ _ _ _ _ C4).
        eapply calls_journal_eq; [|exact C8]. reflexivity.
      * right. left. exists rc1, rc. split; [exact E1|reflexivity].
  - run_bind H as u2 st3 R3. run_bind H as u3 st4 R4. run_bind H as u4 st5 R5. run_ret H.
    split; [exact Ok1|]. split; [exact Op1|].
    exists pre, [c_open path_ false]. split; [|split; [exact Hpre|left; reflexivity]].
    eapply calls_trans; [exact C1|]. exists [c_open path_ false]. split; reflexivity.
Qed.


(** *** Export and swap: the file is replaced last *)

Lemma commitDbSwap_any reopen hexKey st r st' :
  commitDbSwap reopen hexKey st = Some (r, st') ->
  exists st2 rc b1 b2 st3,
    calls st st2 (swapCalls (path st) rc b1 b2) /\
    reopen (path st) hexKey (set_currentHexKey hexKey st2) = Some (r, st3) /\
    st' = if r then st3 else set_log (log st3 ++ [(Critical, "Failed to swap db")]) st3.
Proof.
  unfold commitDbSwap. intros H.
  run_bind H as u st1 R1.
  apply close_run in R1 as (rc & C1 & Hpath & _).
  run_bind H as st2 st3 R2. run_bind H as b1 st4 R4.
  unfold removeFile in R4. run_bind R4 as b1' st5 R5. run_bind R4 as u1 st6 R6. run_ret R4.
  run_bind H as b2 st7 R7.
  unfold renameFile in R7. run_bind R7 as b2' st8 R8. run_bind R7 as u2 st9 R9. run_ret R7.
  run_bind H as u3 st10 R10. run_bind H as opened st11 R11.
  rewrite Hpath in *.
  assert (C : calls st
                (set_journal
                   (journal
                      (set_journal (journal st1 ++ [c_remove (path st) b1])
                         (set_world (QFile_remove env (path st) (world st1)).2 st1))
                    ++ [c_rename (tmpOf (path st)) (path st) b2])
                   (set_world
                      (QFile_rename env (tmpOf (path st)) (path st)
                         (world
                            (set_journal (journal st1 ++ [c_remove (path st) b1])
                               (set_world (QFile_remove env (path st) (world st1)).2 st1)))).2
                      (set_journal (journal st1 ++ [c_remove (path st) b1])
                         (set_world (QFile_remove env (path st) (world st1)).2 st1))))
                (swapCalls (path st) rc b1 b2)).
  { eapply (calls_trans _ _ _ [c_close rc]); [exact C1|].
    exists [c_remove (path st) b1; c_rename (tmpOf (path st)) (path st) b2].
    split; [|reflexivity]. unfold since. simpl. rewrite <- app_assoc. reflexivity. }
  destruct opened; simpl in H.
  - run_ret H. eexists _, rc, b1, b2, _. split; [exact C|]. split; [exact R11|reflexivity].
  - run_bind H as u4 st12 R12. run_ret H.
    eexists _, rc, b1, b2, _. split; [exact C|]. split; [exact R11|reflexivity].
Qed.

Definition is_exec (c : Call) : bool :=
  match c with c_exec _ _ => true | _ => false end.

(** The export was given up: only statements were executed, and the object
    is as it was. *)
Definition export_given_up (st st' : State) (r : bool) : Prop :=
  r = false /\ same_object st st' /\
  exists L, calls st st' L /\ forallb is_exec L = true.

Lemma given_up_log st st1 L l :
  same_object st st1 -> calls st st1 L -> forallb is_exec L = true ->
  export_given_up st (set_log l st1) false.
Proof.
  intros O C HL. split; [reflexivity|]. split; [exact O|].
  exists L. split; [|exact HL]. destruct C as (j & Hj & Hl). exists j. split; assumption.
Qed.

Lemma given_up st st1 L :
  same_object st st1 -> calls st st1 L -> forallb is_exec L = true ->
  export_given_up st st1 false.
Proof. intros O C HL. split; [reflexivity|]. split; [exact O|]. exists L. split; assumption. Qed.

(** One statement of an export: its call is added to those made so far. *)
Ltac export_step H Hs O C ok st' :=
  let R := fresh "R" in
  let O' := fresh "O" in
  let C' := fresh "C" in
  let P := fresh "P" in
  apply bind_Some in H as (ok & st' & R & H); cbv beta in H;
  lazymatch type of R with
  | setCipherParameters _ _ _ = _ =>
      eapply setCipherParameters_open in R as (O' & P & C'); [|exact Hs]
  | execNowS _ _ = _ =>
      eapply execNowS_open in R as (O' & P & C'); [|exact Hs]
  end;
  clear P;
  pose proof (same_object_sqlite _ _ _ O' Hs) as Hs';
  pose proof (same_object_trans _ _ _ O O') as O'';
  pose proof (calls_trans _ _ _ _ _ C C') as C''; simpl in C'';
  clear O C O' C' Hs; rename O'' into O; rename C'' into C; rename Hs' into Hs.

(** X10: [encryptDatabase] and [decryptDatabase] touch the file of the store
    last.  Either a statement of the export failed: the result is false, only
    statements were executed (nothing was closed, removed or renamed) and the
    object is as it was; or the user version was read and every statement of
    the export succeeded, and only then the store is closed, its file removed
    and the export renamed into its place and opened, the result being the
    one of that [open]. *)
Theorem export_replaces_file_last :
  (forall newHexKey st r st' h,
      encryptDatabase newHexKey st = Some (r, st') -> sqlite st = Some h ->
      export_given_up st st' r \/
      exists v st2 rc b1 b2 st3,
        calls st st2
          ([c_exec ["PRAGMA user_version"] true;
            c_exec [attachText (path st) "encrypted" newHexKey] true;
            c_exec [cipherParametersText p4_0 (Some "encrypted")] true;
            c_exec [exportText "encrypted"] true;
            c_exec [setUserVersionText "encrypted" v] true;
            c_exec [detachText "encrypted"] true]
           ++ swapCalls (path st) rc b1 b2) /\
        open depth (path st) newHexKey (set_currentHexKey newHexKey st2) = Some (r, st3) /\
        st' = if r then st3
              else set_log (log st3 ++ [(Critical, "Failed to swap db")]) st3)
  /\
  (forall st r st' h,
      decryptDatabase st = Some (r, st') -> sqlite st = Some h ->
      export_given_up st st' r \/
      exists v st2 rc b1 b2 st3,
        calls st st2
          ([c_exec ["PRAGMA user_version"] true;
            c_exec [decryptExportText (path st)] true;
            c_exec [setUserVersionText "plaintext" v] true;
            c_exec [detachText "plaintext"] true]
           ++ swapCalls (path st) rc b1 b2) /\
        open depth (path st) EmptyString (set_currentHexKey EmptyString st2)
        = Some (r, st3) /\
        st' = if r then st3
              else set_log (log st3 ++ [(Critical, "Failed to swap db")]) st3).
Proof.
  split.
  - intros newHexKey st r st' h H Hs0. unfold encryptDatabase in H.
    apply bind_Some in H as (v & st1 & R1 & H); cbv beta in H.
    pose proof (getUserVersion_open _ _ _ _ R1 Hs0) as (O & _ & ok & C & Hok).
    pose proof (same_object_sqlite _ _ _ O Hs0) as Hs.
    assert (Hpath : path st1 = path st) by (destruct O as (_ & p & _); exact p).
    destruct (v <? 0) eqn:Ev.
    { run_ret H. left. eapply given_up; [exact O|exact C|reflexivity]. }
    apply Z.ltb_ge in Ev. rewrite (Hok Ev) in C. clear Hok ok.
    run_bind H as stx sty Rx. rewrite Hpath in H.
    export_step H Hs O C ok2 st2.
    destruct ok2; simpl in H;
      [|run_bind H as u0 st0 R0; run_ret H; left;
        eapply given_up_log; [exact O|exact C|reflexivity]].
    export_step H Hs O C ok3 st3.
    destruct ok3; simpl in H;
      [|run_ret H; left; eapply given_up; [exact O|exact C|reflexivity]].
    export_step H Hs O C ok4 st4.
    destruct ok4; simpl in H;
      [|run_ret H; left; eapply given_up; [exact O|exact C|reflexivity]].
    export_step H Hs O C ok5 st5.
    destruct ok5; simpl in H;
      [|run_ret H; left; eapply given_up; [exact O|exact C|reflexivity]].
    export_step H Hs O C ok6 st6.
    destruct ok6; simpl in H;
      [|run_ret H; left; eapply given_up; [exact O|exact C|reflexivity]].
    apply commitDbSwap_any in H as (st7 & rc & b1 & b2 & st8 & C7 & Hopen & Hst).
    assert (Hp6 : path st6 = path st) by (destruct O as (_ & p & _); exact p).
    rewrite Hp6 in *. right.
    exists v, st7, rc, b1, b2, st8. split; [|split; [exact Hopen|exact Hst]].
    exact (calls_trans _ _ _ _ _ C C7).
  - intros st r st' h H Hs0. unfold decryptDatabase in H.
    apply bind_Some in H as (v & st1 & R1 & H); cbv beta in H.
    pose proof (getUserVersion_open _ _ _ _ R1 Hs0) as (O & _ & ok & C & Hok).
    pose proof (same_object_sqlite _ _ _ O Hs0) as Hs.
    assert (Hpath : path st1 = path st) by (destruct O as (_ & p & _); exact p).
    destruct (v <? 0) eqn:Ev.
    { run_ret H. left. eapply given_up; [exact O|exact C|reflexivity]. }
    apply Z.ltb_ge in Ev. rewrite (Hok Ev) in C. clear Hok ok.
    run_bind H as stx sty Rx. rewrite Hpath in H.
    export_step H Hs O C ok2 st2.
    destruct ok2; simpl in H;
      [|run_bind H as u0 st0 R0; run_ret H; left;
        eapply given_up_log; [exact O|exact C|reflexivity]].
    export_step H Hs O C ok3 st3.
    destruct ok3; simpl in H;
      [|run_ret H; left; eapply given_up; [exact O|exact C|reflexivity]].
    export_step H Hs O C ok4 st4.
    destruct ok4; simpl in H;
      [|run_ret H; left; eapply given_up; [exact O|exact C|reflexivity]].
    apply commitDbSwap_any in H as (st7 & rc & b1 & b2 & st8 & C7 & Hopen & Hst).
    assert (Hp4 : path st4 = path st) by (destruct O as (_ & p & _); exact p).
    rewrite Hp4 in *. right.
    exists v, st7, rc, b1, b2, st8. split; [|split; [exact Hopen|exact Hst]].
    exact (calls_trans _ _ _ _ _ C C7).
Qed.

(** *** [setPassword] *)

Definition rekeyStatement (hexKey : string) : string :=
  "PRAGMA rekey = " +:+ dquote +:+ "x'" +:+ hexKey +:+ "'" +:+ dquote.

(** The look for a [.tmp] file left by an earlier export. *)
Definition staleCalls (tmp : string) (L : list Call) : Prop :=
  L = [c_exists tmp false] \/ exists b, L = [c_exists tmp true; c_remove tmp b].

Lemma stale_run (tmp : string) (stale : bool) st u st' :
  (if stale then
     qlog Warning "Found old temporary export file while rekeying, deleting it";;
     removeFile tmp;; ret tt
   else ret tt) st = Some (u, st') ->
  same_object st st' /\ pendingTransactions st' = pendingTransactions st /\
  exists L, calls st st' L /\ staleCalls tmp (c_exists tmp stale :: L).
Proof.
  intros H. destruct stale; simpl in H.
  - run_bind H as u1 st1 R1.
    apply bind_Some in H as (b & st2 & R2 & H); cbv beta in H. run_ret H.
    apply removeFile_calls in R2 as (C & O & P).
    split; [exact O|]. split; [exact P|].
    exists [c_remove tmp b]. split; [|right; exists b; reflexivity].
    eapply calls_journal_eq; [|exact C]. reflexivity.
  - run_ret H. split; [repeat split|]. split; [reflexivity|].
    exists []. split; [apply calls_refl|left; reflexivity].
Qed.

Lemma deriveKeyM_run password salt st key st' :
  deriveKeyM password salt st = Some (key, st') ->
  key = fst (deriveKey password salt) /\ same_object st st' /\
  pendingTransactions st' = pendingTransactions st /\ calls st st' [].
Proof.
  unfold deriveKeyM. destruct (deriveKey password salt) as [k msgs]. intros H.
  run_bind H as u st1 R1. run_ret H.
  split; [reflexivity|]. split; [repeat split|]. split; [reflexivity|].
  exists []. split; [|reflexivity]. unfold since. simpl. rewrite app_nil_r. reflexivity.
Qed.

(** The part of [setPassword] on an open store that all its cases share. *)
Lemma setPassword_prologue (tmp : string) st st3 :
  forall u1 st1 stale st2 u3,
    process st = Some (u1, st1) ->
    fileExists tmp st1 = Some (stale, st2) ->
    (if stale then
       qlog Warning "Found old temporary export file while rekeying, deleting it";;
       removeFile tmp;; ret tt
     else ret tt) st2 = Some (u3, st3) ->
    same_object st st3 /\
    (sqlite st <> None -> pendingTransactions st3 = []) /\
    exists L, calls st st3 L /\ staleCalls tmp L.
Proof.
  intros u1 st1 stale st2 u3 R1 R2 R3.
  apply process_worked in R1 as (W & _ & Hq).
  pose proof (worked_calls _ _ W) as C1. destruct W as (O1 & _ & _).
  apply fileExists_calls in R2 as (C2 & O2 & P2).
  apply stale_run in R3 as (O3 & P3 & L & C3 & HL).
  split; [exact (same_object_trans _ _ _ O1 (same_object_trans _ _ _ O2 O3))|].
  split; [intros Hs; rewrite P3, P2; apply Hq, Hs|].
  exists (c_exists tmp stale :: L). split; [|exact HL].
  exact (calls_trans _ _ _ _ _ C1 (calls_trans _ _ _ _ _ C2 C3)).
Qed.

(** X11: the password of a store that has a key is changed by one
    [PRAGMA rekey] statement, with the key derived from the new password and
    the salt of the object; nothing is exported or swapped.  When the
    statement fails the store is closed.  The key the object remembers is
    not touched: after a change that succeeded it is still the old one. *)
Theorem setPassword_rekey password st r st' h :
  setPassword password st = Some (r, st') -> sqlite st = Some h ->
  password <> EmptyString -> currentHexKey st <> EmptyString ->
  let newHexKey := fst (deriveKey password (currentSalt st)) in
  exists stale tail,
    calls st st' (stale ++ c_exec [rekeyStatement newHexKey] r :: tail) /\
    staleCalls (tmpOf (path st)) stale /\
    (if r then tail = [] /\ sqlite st' = Some h else exists rc, tail = [c_close rc]) /\
    currentHexKey st' = currentHexKey st /\ path st' = path st.
Proof.
  intros H Hs Hpw Hkey newHexKey. unfold setPassword in H.
  run_bind H as st0 st0' R0. rewrite Hs in H.
  apply bind_Some in H as (u1 & st1 & R1 & H); cbv beta in H.
  apply bind_Some in H as (stale & st2 & R2 & H); cbv beta in H.
  apply bind_Some in H as (u3 & st3 & R3 & H); cbv beta in H.
  pose proof (setPassword_prologue _ _ _ _ _ _ _ _ R1 R2 R3) as (O3 & _ & L & C3 & HL).
  pose proof (same_object_sqlite _ _ _ O3 Hs) as Hs3.
  destruct (isEmpty password) eqn:Epw; [apply isEmpty_true in Epw; contradiction|].
  simpl in H.
  apply bind_Some in H as (key & st4 & R4 & H); cbv beta in H.
  apply deriveKeyM_run in R4 as (-> & O4 & _ & C4). fold newHexKey in H.
  pose proof (same_object_sqlite _ _ _ O4 Hs3) as Hs4.
  destruct (isEmpty (currentHexKey st)) eqn:Ek; [apply isEmpty_true in Ek; contradiction|].
  simpl in H.
  apply bind_Some in H as (ok & st5 & R5 & H); cbv beta in H.
  eapply execNowS_open in R5 as (O5 & _ & C5); [|exact Hs4].
  pose proof (same_object_trans _ _ _ O3 (same_object_trans _ _ _ O4 O5)) as O.
  pose proof (calls_trans _ _ _ _ _ (calls_app_nil _ _ _ _ C3 C4) C5) as C.
  destruct ok; simpl in H.
  - run_ret H. exists L, []. split; [exact C|]. split; [exact HL|].
    split; [split; [reflexivity|exact (same_object_sqlite _ _ _ O Hs)]|].
    destruct O as (_ & Op & _ & Ok). split; assumption.
  - run_bind H as u6 st6 R6.
    apply bind_Some in H as ([] & st7 & R7 & H); cbv beta in H. run_ret H.
    apply close_run in R7 as (rc & C7 & Op7 & _ & Ok7 & _).
    exists L, [c_close rc]. split.
    + replace (L ++ c_exec [rekeyStatement newHexKey] false :: [c_close rc])
        with ((L ++ [c_exec [rekeyStatement newHexKey] false]) ++ [c_close rc])
        by (rewrite <- app_assoc; reflexivity).
      eapply calls_trans; [exact C|]. eapply calls_journal_eq; [|exact C7]. reflexivity.
    + split; [exact HL|]. split; [exists rc; reflexivity|].
      destruct O as (_ & Op & _ & Ok). simpl in *. split; congruence.
Qed.

(** X12: when [setPassword] returns true the store is open, and the key the
    object remembers is empty for an empty password, the key derived from the
    password when the store had none, and else the key it had before. *)
Theorem setPassword_true_leaves_open password st st' h :
  setPassword password st = Some (true, st') -> sqlite st = Some h ->
  isOpen st' = true /\
  currentHexKey st' =
  if isEmpty password then EmptyString
  else if isEmpty (currentHexKey st) then fst (deriveKey password (currentSalt st))
       else currentHexKey st.
Proof.
  unfold setPassword. intros H Hs.
  run_bind H as st0 st0' R0. rewrite Hs in H.
  apply bind_Some in H as (u1 & st1 & R1 & H); cbv beta in H.
  apply bind_Some in H as (stale & st2 & R2 & H); cbv beta in H.
  apply bind_Some in H as (u3 & st3 & R3 & H); cbv beta in H.
  pose proof (setPassword_prologue _ _ _ _ _ _ _ _ R1 R2 R3) as (O3 & _ & L & C3 & HL).
  pose proof (same_object_sqlite _ _ _ O3 Hs) as Hs3.
  destruct (isEmpty password) eqn:Epw; simpl in H.
  - destruct (isEmpty (currentHexKey st)) eqn:Ek.
    + run_ret H. apply isEmpty_true in Ek.
      split; [unfold isOpen; rewrite Hs3; reflexivity|].
      destruct O3 as (_ & _ & _ & Ok). congruence.
    + apply bind_Some in H as (ok & st4 & R4 & H); cbv beta in H.
      destruct ok; simpl in H; [|run_bind H as u5 st5 R5; run_ret H].
      run_ret H.
      apply decryptDatabase_run with (h := h) in R4
        as (v & sta & stb & rc & b1 & b2 & _ & _ & _ & Hopen); [|exact Hs3].
      split.
      * unfold isOpen. pose proof (open_true _ _ _ _ _ Hopen) as Hne.
        destruct (sqlite st'); [reflexivity|contradiction].
      * destruct depth as [|d]; [discriminate|].
        apply open_plain_run in Hopen as (Ok & _). exact Ok.
  - apply bind_Some in H as (key & st4 & R4 & H); cbv beta in H.
    apply deriveKeyM_run in R4 as (-> & O4 & _ & C4).
    pose proof (same_object_sqlite _ _ _ O4 Hs3) as Hs4.
    destruct (isEmpty (currentHexKey st)) eqn:Ek; simpl in H.
    + apply bind_Some in H as (ok & st5 & R5 & H); cbv beta in H.
      destruct ok; simpl in H;
        [|apply bind_Some in H as (u6 & st6 & R6 & H); cbv beta in H; run_ret H].
      run_bind H as u6 st6 R6. run_ret H.
      apply encryptDatabase_run with (h := h) in R5
        as (v & sta & stb & rc & b1 & b2 & _ & _ & _ & Hopen); [|exact Hs4].
      split; [|reflexivity].
      unfold isOpen. simpl. pose proof (open_true _ _ _ _ _ Hopen) as Hne.
      destruct (sqlite st5); [reflexivity|contradiction].
    + apply bind_Some in H as (ok & st5 & R5 & H); cbv beta in H.
      eapply execNowS_open in R5 as (O5 & _ & C5); [|exact Hs4].
      destruct ok; simpl in H;
        [|run_bind H as u6 st6 R6;
          apply bind_Some in H as (u7 & st7 & R7 & H); cbv beta in H; run_ret H].
      run_ret H.
      pose proof (same_object_trans _ _ _ O3 (same_object_trans _ _ _ O4 O5)) as O.
      split; [unfold isOpen; rewrite (same_object_sqlite _ _ _ O Hs); reflexivity|].
      destruct O as (_ & _ & _ & Ok). exact Ok.
Qed.

(** *** Opening with a key *)


(** *** The key of the old derivation *)

(** X14: the deprecated [deriveKey(password)] is the salted derivation with
    the fixed text "L'ignorance est le pire des maux" as salt (where the
    length of a salt is the length of that text), and like it a key of 64
    hexadecimal digits for every password but the empty one. *)
Theorem deriveKey1_is_salted password :
  String.length expandConstant = TOX_PASS_SALT_LENGTH env ->
  (forall pw s, (64 <= String.length (tox_pass_key_derive_with_salt env pw s))%nat) ->
  deriveKey1 password = fst (deriveKey password expandConstant) /\
  (password <> EmptyString ->
   String.length (deriveKey1 password) = 64%nat /\
   all_chars is_lower_hex (deriveKey1 password) = true).
Proof.
  intros Hlen Hkey. unfold deriveKey1, deriveKey. rewrite <- Hlen, Nat.eqb_refl.
  destruct (isEmpty password) eqn:E; simpl.
  - split; [reflexivity|]. intros Hne. apply isEmpty_true in E. contradiction.
  - split; [reflexivity|]. intros _. split.
    + apply hexOfPassKey_length, Hkey.
    + apply toHex_hex.
Qed.

(** *** [execLater] *)


(** *** The blobs of a query *)







(** *** The upgrade of the saved parameters *)




(** *** An [open] that fails *)

(** X18: an [open] that fails after [sqlite3_open_v2] succeeded ends with
    [close], so that no store is left open unless [sqlite3_close] itself
    fails.  When [sqlite3_open_v2] fails, nothing is closed: the object keeps
    the handle that call left (it is the caller that closes it). *)
Theorem failed_open_closes d path_ hexKey st st' :
  open d path_ hexKey st = Some (false, st') ->
  (last (lifecycle (journal st')) = Some (c_open path_ false) /\
   exists w, fst (sqlite3_open_v2 env path_ w) = OpenFailed (sqlite st')) \/
  (exists rc, last (lifecycle (journal st')) = Some (c_close rc) /\
              (rc = SQLITE_OK -> isOpen st' = false)).
Proof.
  destruct d as [|d]; simpl; [discriminate|]. unfold open_body. intros H.
  apply bind_Some in H as (present & st1 & R1 & H); cbv beta in H.
  apply bind_Some in H as (u & st2 & R2 & H); cbv beta in H. clear R1 R2.
  apply bind_Some in H as (r & st3 & R3 & H); cbv beta in H.
  apply call_run in R3 as [Hr ->]. unfold returned in Hr.
  destruct r as [h|h'].
  - right. run_bind H as u1 st4 R4. run_bind H as u2 st5 R5.
    apply bind_Some in H as (rc & st6 & R6 & H); cbv beta in H.
    destruct (rc =? 0); simpl in H.
    + apply bind_Some in H as (rc' & st7 & R7 & H); cbv beta in H.
      destruct (rc' =? 0); simpl in H.
      * destruct (isEmpty hexKey); simpl in H; [run_ret H|].
        apply bind_Some in H as (ok & st8 & R8 & H); cbv beta in H.
        destruct ok; simpl in H; [run_ret H|].
        apply bind_Some in H as ([] & st9 & R9 & H); cbv beta in H. run_ret H.
        apply close_last in R9. exact R9.
      * run_bind H as u3 st8 R8.
        apply bind_Some in H as ([] & st9 & R9 & H); cbv beta in H. run_ret H.
        apply close_last in R9. exact R9.
    + run_bind H as u3 st8 R8.
      apply bind_Some in H as ([] & st9 & R9 & H); cbv beta in H. run_ret H.
      apply close_last in R9. exact R9.
  - left. run_bind H as u1 st4 R4. run_bind H as u2 st5 R5. run_bind H as u3 st6 R6.
    run_ret H. simpl. split.
    + rewrite lifecycle_app. simpl. apply last_snoc.
    + exists (world st2). rewrite <- Hr. reflexivity.
Qed.

(** *** The texts of the cipher parameters *)

(** The three texts as the code writes them, before [replace]. *)
Definition parametersSource (params : SqlCipherParams) : string :=
  match params with
  | p3_0 =>
      "PRAGMA database.cipher_page_size = 1024;PRAGMA database.kdf_iter = 64000;PRAGMA database.cipher_hmac_algorithm = HMAC_SHA1;PRAGMA database.cipher_kdf_algorithm = PBKDF2_HMAC_SHA1;"
  | halfUpgradedTo4 =>
      "PRAGMA database.cipher_page_size = 4096;PRAGMA database.kdf_iter = 256000;PRAGMA database.cipher_hmac_algorithm = HMAC_SHA1;PRAGMA database.cipher_kdf_algorithm = PBKDF2_HMAC_SHA1;"
  | p4_0 =>
      "PRAGMA database.cipher_page_size = 4096;PRAGMA database.kdf_iter = 256000;PRAGMA database.cipher_hmac_algorithm = HMAC_SHA512;PRAGMA database.cipher_kdf_algorithm = PBKDF2_HMAC_SHA512;PRAGMA database.cipher_memory_security = ON;"
  end.

(** X19: the statement of [setCipherParameters] is the text of the
    parameters in which every [database.] is replaced by the name of the
    database and a dot, or by nothing when no database is named; it is
    executed as one transaction of one query, and the object is not
    changed. *)
Theorem setCipherParameters_text params database st r st' h :
  setCipherParameters params database st = Some (r, st') -> sqlite st = Some h ->
  let prefix := match database with Some d => d +:+ "." | None => EmptyString end in
  let text := QString_replace (match_lit "database.") prefix (parametersSource params) in
  same_object st st' /\ calls st st' [c_exec [text] r].
Proof.
  intros H Hs prefix text.
  eapply setCipherParameters_open in H as (O & _ & C); [|exact Hs].
  split; [exact O|].
  replace text with (cipherParametersText params database); [exact C|].
  unfold text, prefix. destruct params, database; reflexivity.
Qed.

(** X20: [execNow] does not change the object: whatever the outcome of the
    transaction, the store is still open on the same handle, path, salt and
    key are as before, and the queue is empty. *)
Theorem execNow_keeps_object statements st r st' h :
  execNow statements st = Some (r, st') -> sqlite st = Some h ->
  sqlite st' = Some h /\ path st' = path st /\ currentSalt st' = currentSalt st /\
  currentHexKey st' = currentHexKey st /\ pendingTransactions st' = [] /\
  calls st st' [c_exec (map query statements) r].
Proof.
  intros H Hs. eapply execNow_open in H as ((Os & Op & Osa & Ok) & Hq & C); [|exact Hs].
  rewrite Os, Hs. repeat split; assumption.
Qed.
End RawDatabase.

(** ** Runs on the reference environment *)

Module Samples.

Definition salt : string := "0123456789abcdef0123456789abcdef".
Definition db : string := "/profile/history.db".
Definition fuel : nat := 20.
Definition depth : nat := 3.

Definition construct (password : string) (w : Ref.RWorld) : option (State Ref.env) :=
  RawDatabaseImpl Ref.env fuel 0 depth db password salt w.

Definition blank : State Ref.env :=
  constructed Ref.env db salt (Ref.empty_world EmptyString).

Definition state_of (o : option (State Ref.env)) : State Ref.env := default blank o.

Definition after {A} (o : option (A * State Ref.env)) : State Ref.env :=
  match o with Some (_, st) => st | None => blank end.

Definition insert (message : string) : Query Ref.env :=
  mkQuery Ref.env "INSERT INTO history (message) VALUES (?);" [message] (Some 1%nat)
    NoRowCallback [].

(** A store without password on an engine of version 4.5.0, *)
Definition plain_store : State Ref.env :=
  state_of (construct EmptyString (Ref.empty_world "4.5.0")).

(** with two messages and user version 7. *)
Definition history_store : State Ref.env :=
  after (execNowS Ref.env fuel "PRAGMA user_version = 7;"
           (after (execNow Ref.env fuel [insert "hello"; insert "world"] plain_store))).


Definition two_inserts : Transaction Ref.env :=
  mkTransaction Ref.env [insert "hello"; insert "world"] None None.

Definition failing : list (Query Ref.env) :=
  [insert "a"; Query_of Ref.env "DROP EVERYTHING;"; insert "b"].

Definition failing_transaction : Transaction Ref.env :=
  mkTransaction Ref.env failing (Some 0%nat) (Some 1%nat).

(** A file saved with the key of the salted derivation and the parameters of
    the partial upgrade, and a connection to it. *)
Definition salted_key : string := fst (deriveKey Ref.env "abc" salt).

Definition half_upgraded_world : Ref.RWorld :=
  Ref.mkWorld {[ db := Ref.mkFile (Ref.Encrypted salted_key Ref.cipherHalf) 3 ["old"] false ]}
    None [] "4.5.0" 0.

Definition connected (w : Ref.RWorld) : State Ref.env :=
  set_sqlite Ref.env (Some tt) (constructed Ref.env db salt (snd (Ref.open_v2 db w))).

(** A read-only file saved with the key of the old derivation. *)
Definition old_salt_world : Ref.RWorld :=
  Ref.mkWorld
    {[ db := Ref.mkFile (Ref.Encrypted (deriveKey1 Ref.env "abc") Ref.cipher4) 3 ["old"] true ]}
    None [] "4.5.0" 0.

(** The constructor on that file, up to the failure of its first [open]. *)
Definition first_open_failed : State Ref.env :=
  after (open Ref.env fuel 0 depth db salted_key
           (set_currentHexKey Ref.env salted_key (constructed Ref.env db salt old_salt_world))).

Definition returns {A} (o : option A) : bool :=
  match o with Some _ => true | None => false end.

Lemma returns_some {A} (o : option A) : returns o = true -> exists a, o = Some a.
Proof. destruct o as [a|]; [exists a; reflexivity|discriminate]. Qed.

Definition got {A} (d : A) (o : option (A * State Ref.env)) : A :=
  match o with Some (a, _) => a | None => d end.

(** A run that returns, with its result and final state named. *)
Lemma returns_run {A} (d : A) (o : option (A * State Ref.env)) :
  returns o = true -> o = Some (got d o, after o).
Proof. destruct o as [[a st]|]; [reflexivity|discriminate]. Qed.

Lemma fit_length n s : String.length (Ref.fit n s) = n.
Proof.
  revert s. induction n as [|n IH]; intros s; simpl; [reflexivity|].
  destruct s; simpl; rewrite IH; reflexivity.
Qed.

Lemma append_length a b : String.length (a +:+ b) = (String.length a + String.length b)%nat.
Proof. induction a as [|c a IH]; simpl; [reflexivity|]. rewrite IH. reflexivity. Qed.

Lemma derive_length pw s : (64 <= String.length (Ref.derive pw s))%nat.
Proof. unfold Ref.derive. rewrite append_length, !fit_length. lia. Qed.


(** *** Transactions *)

(** Witness of C1. *)
Lemma two_inserts_in_one_transaction :
  exists trans' st',
    compileAndExecute Ref.env fuel tt two_inserts plain_store = Some (trans', st') /\
    let texts := map (query Ref.env) (queries Ref.env two_inserts) in
    exists (ok : bool) j,
      since Ref.env plain_store st' j /\ outcome ok j /\
      ((1 < length (queries Ref.env two_inserts))%nat ->
       map (query Ref.env) (queries Ref.env trans') = "BEGIN;" :: texts ++ ["COMMIT;"] /\
       if ok then started j = "BEGIN;" :: texts ++ ["COMMIT;"]
       else exists k, started j = "BEGIN;" :: take k (texts ++ ["COMMIT;"])) /\
      (length (queries Ref.env two_inserts) = 1%nat ->
       map (query Ref.env) (queries Ref.env trans') = texts /\ started j = texts).
Proof.
  destruct (returns_some (compileAndExecute Ref.env fuel tt two_inserts plain_store))
    as [[trans' st'] E]; [vm_compute; reflexivity|].
  exists trans', st'. split; [exact E|].
  exact (compileAndExecute_transaction_commands Ref.env fuel tt two_inserts plain_store
           trans' st' E).
Defined.

Example two_inserts_journal :
  started (journal Ref.env
             (after (compileAndExecute Ref.env fuel tt two_inserts plain_store)))
  = ["BEGIN;"; "INSERT INTO history (message) VALUES (?);";
     "INSERT INTO history (message) VALUES (?);"; "COMMIT;"].
Proof. vm_compute. reflexivity. Qed.

Example one_insert_journal :
  started (journal Ref.env
             (after (compileAndExecute Ref.env fuel tt
                       (mkTransaction Ref.env [insert "hello"] None None) plain_store)))
  = ["INSERT INTO history (message) VALUES (?);"].
Proof. vm_compute. reflexivity. Qed.

Definition refused : Call := c_prepare "DROP EVERYTHING;" SQLITE_ERROR.

Definition failing_calls : list Call :=
  drop (length (journal Ref.env history_store))
    (journal Ref.env (after (compileAndExecute Ref.env fuel tt failing_transaction
                               history_store))).

Example failing_calls_end : last failing_calls = Some refused.
Proof. vm_compute. reflexivity. Qed.

Example failing_started :
  started failing_calls
  = ["BEGIN;"; "INSERT INTO history (message) VALUES (?);"; "DROP EVERYTHING;"].
Proof. vm_compute. reflexivity. Qed.

(** Witness of C2. *)
Lemma failing_transaction_aborted :
  (exists trans' st',
      compileAndExecute Ref.env fuel tt failing_transaction history_store
      = Some (trans', st') /\
      (exists j0, failing_calls = j0 ++ [refused] /\ clean j0) /\
      atomics Ref.env st' !! 1%nat = Some false)
  /\
  (exists r st' st1 trans' st2 j,
      execNow Ref.env fuel failing history_store = Some (r, st') /\
      compileAndExecute Ref.env fuel tt (submitted Ref.env failing history_store) st1
      = Some (trans', st2) /\
      since Ref.env st1 st2 j /\
      (forall e, e ∈ j -> is_error e = true -> r = false) /\
      (clean j -> r = true)).
Proof.
  destruct (failed_transaction_is_aborted Ref.env fuel) as [A B]. split.
  - pose proof (returns_run failing_transaction
                  (compileAndExecute Ref.env fuel tt failing_transaction history_store))
      as E.
    eexists _, _. split; [apply E; vm_compute; reflexivity|].
    eapply (A tt failing_transaction history_store _ _ failing_calls refused 1%nat).
    + apply E. vm_compute. reflexivity.
    + unfold since. vm_compute. reflexivity.
    + apply list_elem_of_In. vm_compute. tauto.
    + reflexivity.
    + reflexivity.
    + vm_compute. lia.
  - pose proof (returns_run false (execNow Ref.env fuel failing history_store)) as E.
    destruct (B tt failing history_store _ _ (E eq_refl)) as (st1 & trans' & st2 & j & H);
      [vm_compute; reflexivity|].
    eexists _, _, st1, trans', st2, j. split; [exact (E eq_refl)|exact H].
Defined.

Example failing_execNow :
  option_map fst (execNow Ref.env fuel failing history_store) = Some false /\
  Ref.rows <$> (Ref.files (world Ref.env (after (execNow Ref.env fuel failing history_store)))
                !! db) = Some ["hello"; "world"; "a"].
Proof. vm_compute. split; reflexivity. Qed.

(** *** Cipher parameters *)


Example highest_params_4 :
  option_map fst (highestSupportedParams Ref.env fuel plain_store) = Some p4_0.
Proof. vm_compute. reflexivity. Qed.

Example major_versions :
  majorVersionOf "3.4.2" = 3 /\ majorVersionOf "4.5.0 community" = 4 /\
  majorVersionOf "4" = 4 /\ majorVersionOf EmptyString = 0 /\
  majorVersionOf "v4.5.0" = 0.
Proof. vm_compute. repeat split. Qed.



Example saved_params_half :
  option_map fst (readSavedCipherParams Ref.env fuel salted_key p4_0
                    (connected half_upgraded_world))
  = Some halfUpgradedTo4.
Proof. vm_compute. reflexivity. Qed.

(** *** Key derivation *)

(** Witness of C5. *)
Lemma deriveKey_abc :
  (fst (deriveKey Ref.env "abc" salt) = EmptyString <->
   "abc" = EmptyString \/ String.length salt <> TOX_PASS_SALT_LENGTH Ref.env) /\
  ("abc" <> EmptyString -> String.length salt = TOX_PASS_SALT_LENGTH Ref.env ->
   String.length (fst (deriveKey Ref.env "abc" salt)) = 64%nat /\
   all_chars is_lower_hex (fst (deriveKey Ref.env "abc" salt)) = true) /\
  fst (deriveKey Ref.env EmptyString salt) = EmptyString /\
  deriveKey1 Ref.env EmptyString = EmptyString.
Proof. exact (deriveKey_empty_iff Ref.env "abc" salt derive_length). Defined.

Example deriveKey_short_salt :
  deriveKey Ref.env "abc" "short"
  = (EmptyString, [(Warning, "Salt length doesn't match toxencryptsave expectations")]).
Proof. vm_compute. reflexivity. Qed.

(** *** The life cycle *)

Lemma drained (st : State Ref.env) :
  returns (process Ref.env fuel st) = true ->
  process Ref.env fuel st = Some (tt, after (process Ref.env fuel st)).
Proof.
  intros H. pose proof (returns_run tt _ H) as E.
  destruct (got tt (process Ref.env fuel st)). exact E.
Qed.

(** Witness of C6. *)
Lemma rename_history_store :
  let st := history_store in
  let st1 := after (process Ref.env fuel history_store) in
  let newPath := "/profile/other.db" in
  pendingTransactions Ref.env st1 = [] /\
  (path Ref.env st = newPath -> rename Ref.env fuel 0 depth newPath st = Some (true, st1)) /\
  (path Ref.env st <> newPath -> QFile_exists Ref.env newPath (world Ref.env st1) = true ->
   exists st',
     rename Ref.env fuel 0 depth newPath st = Some (false, st') /\
     sqlite Ref.env st' = Some tt /\ path Ref.env st' = path Ref.env st /\
     currentHexKey Ref.env st' = currentHexKey Ref.env st /\
     world Ref.env st' = world Ref.env st1 /\
     journal Ref.env st' = journal Ref.env st1 ++ [c_exists newPath true]) /\
  (path Ref.env st <> newPath -> QFile_exists Ref.env newPath (world Ref.env st1) = false ->
   exists st2 rc,
     close Ref.env fuel
       (set_journal Ref.env (journal Ref.env st1 ++ [c_exists newPath false]) st1)
     = Some (tt, st2) /\
     calls Ref.env st1 st2 [c_exists newPath false; c_close rc] /\
     sqlite Ref.env st2 = (if rc =? SQLITE_OK then None else Some tt) /\
     let moved := fst (QFile_rename Ref.env (path Ref.env st) newPath (world Ref.env st2)) in
     let st3 :=
       set_journal Ref.env
         (journal Ref.env st2 ++ [c_rename (path Ref.env st) newPath moved])
         (set_world Ref.env
            (snd (QFile_rename Ref.env (path Ref.env st) newPath (world Ref.env st2))) st2) in
     rename Ref.env fuel 0 depth newPath st =
     if moved
     then open Ref.env fuel 0 depth newPath (currentHexKey Ref.env st)
            (set_path Ref.env newPath st3)
     else Some (false, st3)).
Proof.
  apply (rename_cases Ref.env fuel 0 depth "/profile/other.db" history_store
           (after (process Ref.env fuel history_store)) tt).
  - reflexivity.
  - apply drained. vm_compute. reflexivity.
Defined.

Example rename_moves :
  option_map fst (rename Ref.env fuel 0 depth "/profile/other.db" history_store) = Some true /\
  (let st' := after (rename Ref.env fuel 0 depth "/profile/other.db" history_store) in
   path Ref.env st' = "/profile/other.db" /\
   Ref.exists_ db (world Ref.env st') = false /\
   Ref.exists_ "/profile/other.db" (world Ref.env st') = true).
Proof. vm_compute. repeat split. Qed.

Example rename_taken :
  option_map fst (rename Ref.env fuel 0 depth db history_store) = Some true /\
  (let w := snd (Ref.copy db "/profile/other.db" (world Ref.env history_store)) in
   let st := set_world Ref.env w history_store in
   option_map fst (rename Ref.env fuel 0 depth "/profile/other.db" st) = Some false /\
   isOpen Ref.env (after (rename Ref.env fuel 0 depth "/profile/other.db" st)) = true /\
   path Ref.env (after (rename Ref.env fuel 0 depth "/profile/other.db" st)) = db).
Proof. vm_compute. repeat split. Qed.

(** The store of [history_store] with a [.tmp] file left behind. *)
Definition with_stale_tmp : State Ref.env :=
  set_world Ref.env
    (Ref.set_files (<[tmpOf db := Ref.new_file]> (Ref.files (world Ref.env history_store)))
       (world Ref.env history_store))
    history_store.


Example setPassword_empty_keeps_file :
  let st' := after (setPassword Ref.env fuel 0 depth EmptyString with_stale_tmp) in
  option_map fst (setPassword Ref.env fuel 0 depth EmptyString with_stale_tmp) = Some true /\
  Ref.files (world Ref.env st') !! db = Ref.files (world Ref.env history_store) !! db /\
  Ref.exists_ (tmpOf db) (world Ref.env st') = false /\
  lifecycle (drop (length (journal Ref.env with_stale_tmp)) (journal Ref.env st'))
  = [c_exists (tmpOf db) true; c_remove (tmpOf db) true].
Proof. vm_compute. repeat split. Qed.

(** *** Export and swap *)

(** [history_store] after it got the password "abc". *)
Definition encrypted_store : State Ref.env :=
  after (setPassword Ref.env fuel 0 depth "abc" history_store).


(** On the reference environment the user version and the rows survive the
    three operations. *)
Definition user_version_at (st : State Ref.env) : option Z :=
  Ref.user_version <$> (Ref.files (world Ref.env st) !! db).
Definition rows_at (st : State Ref.env) : option (list string) :=
  Ref.rows <$> (Ref.files (world Ref.env st) !! db).

Example user_version_after_encryption :
  user_version_at history_store = Some 7 /\
  user_version_at (after (encryptDatabase Ref.env fuel 0 depth salted_key history_store))
  = Some 7 /\
  option_map fst (getUserVersion Ref.env fuel 0 encrypted_store) = Some 7 /\
  rows_at encrypted_store = Some ["hello"; "world"].
Proof. vm_compute. repeat split. Qed.

Example user_version_after_decryption :
  let st' := after (decryptDatabase Ref.env fuel 0 depth encrypted_store) in
  option_map fst (decryptDatabase Ref.env fuel 0 depth encrypted_store) = Some true /\
  option_map fst (getUserVersion Ref.env fuel 0 st') = Some 7 /\
  rows_at st' = Some ["hello"; "world"] /\
  Ref.protection <$> (Ref.files (world Ref.env st') !! db) = Some Ref.Plain.
Proof. vm_compute. repeat split. Qed.

Example user_version_after_migration :
  let st' := after (updateSavedCipherParameters Ref.env fuel 0 (open Ref.env fuel 0 depth)
                      salted_key p4_0 (connected half_upgraded_world)) in
  user_version_at (connected half_upgraded_world) = Some 3 /\
  option_map fst (getUserVersion Ref.env fuel 0 st') = Some 3 /\
  rows_at st' = Some ["old"] /\
  Ref.protection <$> (Ref.files (world Ref.env st') !! db)
  = Some (Ref.Encrypted salted_key Ref.cipher4).
Proof. vm_compute. repeat split. Qed.

(** *** The constructor on a file of the old derivation *)

Definition legacy_key : string := deriveKey1 Ref.env "abc".

Definition rekeyText (hexKey : string) : string :=
  "PRAGMA rekey = " +:+ dquote +:+ "x'" +:+ hexKey +:+ "'" +:+ dquote.

(** Witness of C10. *)
Lemma fallback_on_read_only_file :
  exists st' st1 copied st2 opened st3,
    openWithOldSalt Ref.env fuel 0 depth "abc" first_open_failed = Some (tt, st') /\
    close Ref.env fuel first_open_failed = Some (tt, st1) /\
    copyFile Ref.env (path Ref.env first_open_failed)
      (path Ref.env first_open_failed +:+ ".bak") st1 = Some (copied, st2) /\
    open Ref.env fuel 0 depth (path Ref.env first_open_failed) legacy_key
      (set_currentHexKey Ref.env legacy_key
         (if copied then st2
          else set_log Ref.env
                 (log Ref.env st2
                  ++ [(Debug, "Couldn't create the backup of the database, won't upgrade")])
                 st2))
    = Some (opened, st3) /\
    (opened = true -> copied = false -> st' = st3) /\
    (opened = true -> copied = true ->
     exists changed st4,
       setPassword Ref.env fuel 0 depth "abc" st3 = Some (changed, st4) /\
       journal Ref.env st' = journal Ref.env st4 /\ sqlite Ref.env st' = sqlite Ref.env st4 /\
       (changed = false ->
        exists rc, last (lifecycle (journal Ref.env st')) = Some (c_close rc) /\
                   (rc = SQLITE_OK -> isOpen Ref.env st' = false))).
Proof.
  pose proof (returns_run tt (openWithOldSalt Ref.env fuel 0 depth "abc" first_open_failed))
    as E.
  destruct (got tt (openWithOldSalt Ref.env fuel 0 depth "abc" first_open_failed)).
  destruct (openWithOldSalt_upgrade Ref.env fuel 0 depth "abc" first_open_failed _
              (E eq_refl))
    as (st1 & copied & st2 & opened & st3 & H).
  eexists _, st1, copied, st2, opened, st3. split; [exact (E eq_refl)|exact H].
Defined.

(** Counterexample to C10 as stated: the file is saved with the key of the old
    derivation and is read-only.  The first [open] fails, the backup is made,
    the [open] with the old key succeeds, the rekeying of [setPassword] is
    refused, and the store ends up closed. *)
Lemma failed_upgrade_leaves_store_closed :
  let st' := state_of (construct "abc" old_salt_world) in
  returns (construct "abc" old_salt_world) = true /\
  isOpen Ref.env st' = false /\
  drop 19 (lifecycle (journal Ref.env st'))
  = [c_copy db (db +:+ ".bak") true;
     c_exists db true; c_open db true;
     c_create_function "regexp" 0; c_create_function "regexpsensitive" 0;
     c_exec [keyText legacy_key] true;
     c_exec ["PRAGMA cipher_version"] true;
     c_exec [cipherParametersText p4_0 None] true;
     c_exec [usableText] true;
     c_exists (tmpOf db) false;
     c_exec [rekeyText salted_key] false;
     c_close 0] /\
  last (log Ref.env st') = Some (Warning, "Failed to set password with new salt").
Proof. vm_compute. repeat split. Qed.

Example upgrade_without_backup :
  (* the backup exists already: the copy fails and no upgrade is tried *)
  let w := snd (Ref.copy db (db +:+ ".bak") old_salt_world) in
  let st' := state_of (construct "abc" w) in
  isOpen Ref.env st' = true /\ currentHexKey Ref.env st' = legacy_key /\
  last (lifecycle (journal Ref.env st')) = Some (c_exec [usableText] true).
Proof. vm_compute. repeat split. Qed.

Example upgrade_succeeds :
  (* the same file, writable: the rekeying succeeds and the store stays open *)
  let w := Ref.mkWorld
             {[ db := Ref.mkFile (Ref.Encrypted legacy_key Ref.cipher4) 3 ["old"] false ]}
             None [] "4.5.0" 0 in
  let st' := state_of (construct "abc" w) in
  isOpen Ref.env st' = true /\
  Ref.protection <$> (Ref.files (world Ref.env st') !! db)
  = Some (Ref.Encrypted salted_key Ref.cipher4) /\
  last (log Ref.env st') = Some (Debug, "Successfully upgraded to dynamic salt").
Proof. vm_compute. repeat split. Qed.


(** *** Further runs *)

(** A store that was never opened refuses every operation. *)
Lemma blank_store_refuses :
  sqlite Ref.env blank = None /\
  option_map fst (execNow Ref.env fuel [insert "hello"] blank) = Some false /\
  option_map fst (setPassword Ref.env fuel 0 depth "abc" blank) = Some false /\
  option_map fst (rename Ref.env fuel 0 depth "/profile/other.db" blank) = Some false /\
  option_map fst (remove Ref.env fuel blank) = Some false /\
  journal Ref.env (after (remove Ref.env fuel blank)) = [].
Proof.
  destruct (closed_store_refuses Ref.env fuel 0 depth [insert "hello"] "abc"
              "/profile/other.db" blank eq_refl) as (E1 & _ & E3 & E4 & E5 & _).
  rewrite E1, E3, E4, E5. repeat split.
Defined.

(** A query of two statements, the second of which does not compile. *)
Definition half_compiled : Query Ref.env :=
  mkQuery Ref.env "INSERT INTO history (message) VALUES (?);DROP EVERYTHING;" ["x"]
    (Some 1%nat) NoRowCallback [].

Definition half_compiled_calls : list Call :=
  drop (length (journal Ref.env history_store))
    (journal Ref.env (after (runQuery Ref.env fuel tt half_compiled history_store))).

Lemma returns_pair {A B} (d : A * B) (o : option ((A * B) * State Ref.env)) :
  returns o = true -> o = Some ((fst (got d o), snd (got d o)), after o).
Proof. destruct o as [[[a b] st]|]; [reflexivity|discriminate]. Qed.

Lemma half_compiled_query_not_stepped :
  last half_compiled_calls = Some refused /\
  count is_compiled half_compiled_calls = 1%nat /\
  count is_step half_compiled_calls = 0%nat /\
  option_map (fun r => fst (fst r)) (runQuery Ref.env fuel tt half_compiled history_store)
  = Some false.
Proof.
  pose proof (returns_pair (false, half_compiled)
                (runQuery Ref.env fuel tt half_compiled history_store)) as E.
  destruct (query_not_stepped_unless_compiled Ref.env fuel tt half_compiled history_store
              _ _ _ half_compiled_calls refused (E eq_refl)) as [Hsteps Hok].
  - unfold since. vm_compute. reflexivity.
  - apply list_elem_of_In. vm_compute. tauto.
  - reflexivity.
  - reflexivity.
  - split; [vm_compute; reflexivity|]. split; [vm_compute; reflexivity|].
    split; [exact Hsteps|]. rewrite (E eq_refl). simpl. rewrite Hok. reflexivity.
Defined.

Lemma returns_unit (o : option (unit * State Ref.env)) :
  returns o = true -> o = Some (tt, after o).
Proof. destruct o as [[[] st]|]; [reflexivity|discriminate]. Qed.

Lemma returns_bool (o : option (bool * State Ref.env)) (b : bool) :
  option_map fst o = Some b -> o = Some (b, after o).
Proof. destruct o as [[b' st]|]; simpl; [intros [= ->]; reflexivity|discriminate]. Qed.

(** The messages of [history_store], listed for client 7. *)
Definition listing : Query Ref.env :=
  mkQuery Ref.env "SELECT message FROM history;" [] None (ClientRowCallback 7) [].

Definition listing_calls : list Call :=
  drop (length (journal Ref.env history_store))
    (journal Ref.env (after (runQuery Ref.env fuel tt listing history_store))).

Lemma listing_rows_delivered :
  count is_row_step listing_calls = 2%nat /\
  exists rows,
    length rows = count is_row_step listing_calls /\
    delivered Ref.env (after (runQuery Ref.env fuel tt listing history_store))
    = delivered Ref.env history_store ++ rows_of Ref.env listing rows
      ++ inserted Ref.env tt listing
           (fst (got (false, listing) (runQuery Ref.env fuel tt listing history_store)))
           (after (runQuery Ref.env fuel tt listing history_store)).
Proof.
  split; [vm_compute; reflexivity|].
  pose proof (returns_pair (false, listing)
                (runQuery Ref.env fuel tt listing history_store)) as E.
  apply (query_callbacks Ref.env fuel tt listing history_store _ _ _ listing_calls
           (E eq_refl)).
  unfold since. vm_compute. reflexivity.
Defined.

Example listing_delivered :
  delivered Ref.env (after (runQuery Ref.env fuel tt listing history_store))
  = [ev_insert 1 1; ev_insert 1 2; ev_row 7 [QV_ByteArray "hello"];
     ev_row 7 [QV_ByteArray "world"]].
Proof. vm_compute. reflexivity. Qed.

(** [history_store] with two transactions pending, the first of which
    fails. *)
Definition refused_transaction : Transaction Ref.env :=
  mkTransaction Ref.env [Query_of Ref.env "DROP EVERYTHING;"] (Some 0%nat) (Some 1%nat).

Definition busy : State Ref.env :=
  set_pendingTransactions Ref.env [refused_transaction; two_inserts] history_store.

Definition busy_calls : list Call :=
  drop (length (journal Ref.env busy)) (journal Ref.env (after (process Ref.env fuel busy))).

Lemma busy_queue_served_in_order :
  pendingTransactions Ref.env (after (process Ref.env fuel busy)) = [] /\
  same_object Ref.env busy (after (process Ref.env fuel busy)) /\
  exists js,
    since Ref.env busy (after (process Ref.env fuel busy)) (concat js) /\
    Forall2 (fun trans j =>
               exists ok, ran Ref.env ok (addTransactionCommands Ref.env (queries Ref.env trans))
                            (started j))
      (pendingTransactions Ref.env busy) js.
Proof.
  apply (process_serves_queue_in_order Ref.env fuel busy _ tt).
  - apply returns_unit. vm_compute. reflexivity.
  - reflexivity.
Defined.

Example busy_started :
  started busy_calls
  = ["DROP EVERYTHING;";
     "BEGIN;"; "INSERT INTO history (message) VALUES (?);";
     "INSERT INTO history (message) VALUES (?);"; "COMMIT;"].
Proof. vm_compute. reflexivity. Qed.


Lemma execNow_on_history_store_returns :
  exists r,
    atomics Ref.env (after (process Ref.env fuel (queued Ref.env [insert "more"] history_store)))
      !! length (atomics Ref.env history_store) = Some true /\
    atomics Ref.env (after (process Ref.env fuel (queued Ref.env [insert "more"] history_store)))
      !! S (length (atomics Ref.env history_store)) = Some r /\
    execNow Ref.env fuel [insert "more"] history_store
    = Some (r,
            set_journal Ref.env
              (journal Ref.env
                 (after (process Ref.env fuel (queued Ref.env [insert "more"] history_store)))
               ++ [c_exec (map (query Ref.env) [insert "more"]) r])
              (after (process Ref.env fuel (queued Ref.env [insert "more"] history_store)))).
Proof.
  apply (execNow_returns Ref.env fuel [insert "more"] history_store tt tt).
  - reflexivity.
  - apply returns_unit. vm_compute. reflexivity.
Defined.

Lemma close_history_store :
  exists st1,
    process Ref.env fuel history_store = Some (tt, st1) /\
    let st' := after (close Ref.env fuel history_store) in
    let rc := fst (sqlite3_close Ref.env (sqlite Ref.env history_store) (world Ref.env st1)) in
    journal Ref.env st' = journal Ref.env st1 ++ [c_close rc] /\
    world Ref.env st'
    = snd (sqlite3_close Ref.env (sqlite Ref.env history_store) (world Ref.env st1)) /\
    (if rc =? SQLITE_OK
     then isOpen Ref.env st' = false /\ log Ref.env st' = log Ref.env st1
     else sqlite Ref.env st' = sqlite Ref.env history_store /\
          log Ref.env st' = log Ref.env st1 ++ [(Warning, "Error closing database:")]) /\
    path Ref.env st' = path Ref.env history_store /\
    currentHexKey Ref.env st' = currentHexKey Ref.env history_store /\
    (sqlite Ref.env history_store <> None -> pendingTransactions Ref.env st' = []).
Proof.
  apply (close_flushes_then_closes Ref.env fuel history_store).
  apply returns_unit. vm_compute. reflexivity.
Defined.

Example close_history_store_closed :
  isOpen Ref.env (after (close Ref.env fuel history_store)) = false /\
  Ref.exists_ db (world Ref.env (after (close Ref.env fuel history_store))) = true.
Proof. vm_compute. split; reflexivity. Qed.

Lemma remove_history_store :
  exists rc,
    calls Ref.env history_store (after (remove Ref.env fuel history_store))
      [c_close rc; c_remove db true] /\
    sqlite Ref.env (after (remove Ref.env fuel history_store))
    = (if rc =? SQLITE_OK then None else Some tt) /\
    path Ref.env (after (remove Ref.env fuel history_store)) = db /\
    pendingTransactions Ref.env (after (remove Ref.env fuel history_store)) = [].
Proof.
  apply (remove_closes_then_deletes Ref.env fuel history_store true _ tt).
  - apply returns_bool. vm_compute. reflexivity.
  - reflexivity.
Defined.

Example remove_history_store_gone :
  Ref.exists_ db (world Ref.env (after (remove Ref.env fuel history_store))) = false.
Proof. vm_compute. reflexivity. Qed.

(** The store was lost while its export waited to be renamed: only the
    [.tmp] file is there. *)
Definition crashed_world : Ref.RWorld :=
  Ref.mkWorld {[ tmpOf db := Ref.mkFile Ref.Plain 7 ["hello"] false ]} None [] "4.5.0" 0.

Definition crashed : State Ref.env := constructed Ref.env db salt crashed_world.


Example open_restores_export_calls :
  let st' := after (open Ref.env fuel 0 depth db EmptyString crashed) in
  journal Ref.env st'
  = [c_exists db false; c_exists (tmpOf db) true; c_rename (tmpOf db) db true;
     c_open db true; c_create_function "regexp" 0; c_create_function "regexpsensitive" 0] /\
  rows_at st' = Some ["hello"] /\
  Ref.exists_ (tmpOf db) (world Ref.env st') = false.
Proof. vm_compute. repeat split. Qed.

Lemma encryption_replaces_file_last :
  export_given_up Ref.env history_store
    (after (encryptDatabase Ref.env fuel 0 depth salted_key history_store)) true \/
  exists v st2 rc b1 b2 st3,
    calls Ref.env history_store st2
      ([c_exec ["PRAGMA user_version"] true;
        c_exec [attachText db "encrypted" salted_key] true;
        c_exec [cipherParametersText p4_0 (Some "encrypted")] true;
        c_exec [exportText "encrypted"] true;
        c_exec [setUserVersionText "encrypted" v] true;
        c_exec [detachText "encrypted"] true]
       ++ swapCalls db rc b1 b2) /\
    open Ref.env fuel 0 depth db salted_key (set_currentHexKey Ref.env salted_key st2)
    = Some (true, st3) /\
    after (encryptDatabase Ref.env fuel 0 depth salted_key history_store) = st3.
Proof.
  destruct (export_replaces_file_last Ref.env fuel 0 depth) as [A _].
  apply (A salted_key history_store true _ tt).
  - apply returns_bool. vm_compute. reflexivity.
  - reflexivity.
Defined.

(** [encrypted_store] gets another password. *)
Lemma rekey_keeps_old_key :
  let st' := after (setPassword Ref.env fuel 0 depth "xyz" encrypted_store) in
  let newHexKey := fst (deriveKey Ref.env "xyz" (currentSalt Ref.env encrypted_store)) in
  exists stale tail,
    calls Ref.env encrypted_store st'
      (stale ++ c_exec [rekeyStatement newHexKey] true :: tail) /\
    staleCalls (tmpOf (path Ref.env encrypted_store)) stale /\
    (tail = [] /\ sqlite Ref.env st' = Some tt) /\
    currentHexKey Ref.env st' = currentHexKey Ref.env encrypted_store /\
    path Ref.env st' = path Ref.env encrypted_store.
Proof.
  apply (setPassword_rekey Ref.env fuel 0 depth "xyz" encrypted_store true _ tt).
  - apply returns_bool. vm_compute. reflexivity.
  - reflexivity.
  - discriminate.
  - vm_compute. discriminate.
Defined.

Example rekey_changes_file_not_object :
  let st' := after (setPassword Ref.env fuel 0 depth "xyz" encrypted_store) in
  currentHexKey Ref.env st' = salted_key /\
  (Ref.protection <$> (Ref.files (world Ref.env st') !! db))
  = Some (Ref.Encrypted (fst (deriveKey Ref.env "xyz" salt)) Ref.cipher4).
Proof. vm_compute. split; reflexivity. Qed.

Lemma setPassword_abc_leaves_open :
  let st' := after (setPassword Ref.env fuel 0 depth "abc" history_store) in
  isOpen Ref.env st' = true /\
  currentHexKey Ref.env st' =
  if isEmpty "abc" then EmptyString
  else if isEmpty (currentHexKey Ref.env history_store)
       then fst (deriveKey Ref.env "abc" (currentSalt Ref.env history_store))
       else currentHexKey Ref.env history_store.
Proof.
  apply (setPassword_true_leaves_open Ref.env fuel 0 depth "abc" history_store _ tt).
  - apply returns_bool. vm_compute. reflexivity.
  - reflexivity.
Defined.



Lemma deriveKey1_abc :
  deriveKey1 Ref.env "abc" = fst (deriveKey Ref.env "abc" expandConstant) /\
  ("abc" <> EmptyString ->
   String.length (deriveKey1 Ref.env "abc") = 64%nat /\
   all_chars is_lower_hex (deriveKey1 Ref.env "abc") = true).
Proof. exact (deriveKey1_is_salted Ref.env "abc" eq_refl derive_length). Defined.


Example execLater_behind_queue_started :
  started (drop (length (journal Ref.env busy))
             (journal Ref.env (after (execLater Ref.env fuel [insert "later"] busy))))
  = ["DROP EVERYTHING;";
     "BEGIN;"; "INSERT INTO history (message) VALUES (?);";
     "INSERT INTO history (message) VALUES (?);"; "COMMIT;";
     "INSERT INTO history (message) VALUES (?);"].
Proof. vm_compute. reflexivity. Qed.





(** The first [open] of the constructor on [old_salt_world]: the key of the
    salted derivation does not fit the file. *)
Lemma refused_key_closes :
  let st' := first_open_failed in
  (last (lifecycle (journal Ref.env st')) = Some (c_open db false) /\
   exists w, fst (sqlite3_open_v2 Ref.env db w) = OpenFailed (sqlite Ref.env st')) \/
  (exists rc, last (lifecycle (journal Ref.env st')) = Some (c_close rc) /\
              (rc = SQLITE_OK -> isOpen Ref.env st' = false)).
Proof.
  apply (failed_open_closes Ref.env fuel 0 depth db salted_key
           (set_currentHexKey Ref.env salted_key (constructed Ref.env db salt old_salt_world))).
  apply returns_bool. vm_compute. reflexivity.
Defined.

Example refused_key_store_closed :
  isOpen Ref.env first_open_failed = false /\
  last (lifecycle (journal Ref.env first_open_failed)) = Some (c_close SQLITE_OK).
Proof. vm_compute. split; reflexivity. Qed.

Lemma parameters_of_attached_database :
  let st' := after (setCipherParameters Ref.env fuel p4_0 (Some "encrypted") history_store) in
  same_object Ref.env history_store st' /\
  calls Ref.env history_store st'
    [c_exec [QString_replace (match_lit "database.") ("encrypted" +:+ ".")
               (parametersSource p4_0)] true].
Proof.
  apply (setCipherParameters_text Ref.env fuel p4_0 (Some "encrypted") history_store true _ tt).
  - apply returns_bool. vm_compute. reflexivity.
  - reflexivity.
Defined.

Example parameters_of_attached_database_text :
  QString_replace (match_lit "database.") ("encrypted" +:+ ".") (parametersSource p4_0)
  = "PRAGMA encrypted.cipher_page_size = 4096;PRAGMA encrypted.kdf_iter = 256000;PRAGMA encrypted.cipher_hmac_algorithm = HMAC_SHA512;PRAGMA encrypted.cipher_kdf_algorithm = PBKDF2_HMAC_SHA512;PRAGMA encrypted.cipher_memory_security = ON;".
Proof. vm_compute. reflexivity. Qed.

Lemma failing_execNow_keeps_store_open :
  let st' := after (execNow Ref.env fuel failing history_store) in
  sqlite Ref.env st' = Some tt /\ path Ref.env st' = path Ref.env history_store /\
  currentSalt Ref.env st' = currentSalt Ref.env history_store /\
  currentHexKey Ref.env st' = currentHexKey Ref.env history_store /\
  pendingTransactions Ref.env st' = [] /\
  calls Ref.env history_store st' [c_exec (map (query Ref.env) failing) false].
Proof.
  apply (execNow_keeps_object Ref.env fuel failing history_store false _ tt).
  - apply returns_bool. vm_compute. reflexivity.
  - reflexivity.
Defined.

(** On the reference engine the store whose password was changed is not
    opened again by [rename]: the object still holds the old key. *)
Example rename_after_rekey_fails :
  let rekeyed := after (setPassword Ref.env fuel 0 depth "xyz" encrypted_store) in
  option_map fst (rename Ref.env fuel 0 depth "/profile/other.db" rekeyed) = Some false /\
  isOpen Ref.env (after (rename Ref.env fuel 0 depth "/profile/other.db" rekeyed)) = false.
Proof. vm_compute. split; reflexivity. Qed.
End Samples.

(** ** What [anonymizeQuery] replaces

    The two patterns are sequences of character classes, the digit runs being
    greedy repetitions.  For such patterns and a replacement text that no
    match can start in or run into, the text left by [QString_replace] holds
    no match. *)

Module Anonymisation.

Inductive Item :=
| Char (p : ascii -> bool)
| Star (p : ascii -> bool).

Fixpoint match_items (items : list Item) (s : string) : option string :=
  match items with
  | [] => Some s
  | Char p :: rest =>
      match s with
      | String c s' => if p c then match_items rest s' else None
      | EmptyString => None
      end
  | Star p :: rest => match_items rest (skip_while p s)
  end.

Fixpoint lit_items (lit : string) : list Item :=
  match lit with
  | EmptyString => []
  | String c lit' => Char (Ascii.eqb c) :: lit_items lit'
  end.

Definition dot_item : Item := Char (fun c => negb (Ascii.eqb c "010")).

Definition digits5_items : list Item := repeat (Char is_digit) 5 ++ [Star is_digit].

Definition public_key_items : list Item :=
  lit_items "chat" ++ [dot_item] ++ lit_items "public_key='"
  ++ repeat (Char is_upper_hex) 64 ++ lit_items "'".

Definition timestamps_items : list Item :=
  lit_items "timestamp BETWEEN " ++ digits5_items ++ lit_items " AND " ++ digits5_items.

(** [occursb m s]: the pattern matches somewhere in [s]. *)
Fixpoint occursb (m : string -> option string) (s : string) : bool :=
  match m s with
  | Some _ => true
  | None =>
      match s with
      | EmptyString => false
      | String _ s' => occursb m s'
      end
  end.

(** The pattern fails on every text that starts with [u], within [u]. *)
Fixpoint clash (items : list Item) (u : string) : bool :=
  match items with
  | [] => false
  | Char p :: rest =>
      match u with
      | String c u' => if p c then clash rest u' else true
      | EmptyString => false
      end
  | Star p :: rest => clash rest (skip_while p u)
  end.

Definition is_star (i : Item) : bool :=
  match i with Star _ => true | Char _ => false end.

Definition nullable (items : list Item) : bool := forallb is_star items.

(** Whatever is left of the pattern when the replacement text begins, the
    match is over or fails within the replacement. *)
Definition straddle_free (items : list Item) (rep : string) : bool :=
  forallb (fun i => nullable (drop i items) || clash (drop i items) rep)
    (seq 0 (S (length items))).

(** No match starts inside the replacement text. *)
Definition inside_free (items : list Item) (rep : string) : bool :=
  forallb (fun k => clash items (drop_chars k rep)) (seq 0 (String.length rep)).

Lemma opt_bind_ext {A B} (o : option A) (f g : A -> option B) :
  (forall a, f a = g a) -> opt_bind o f = opt_bind o g.
Proof. intros H. destruct o; simpl; [apply H|reflexivity]. Qed.

Lemma match_items_app a b s :
  match_items (a ++ b) s = opt_bind (match_items a s) (match_items b).
Proof.
  revert s. induction a as [|[p|p] a IH]; intros s; simpl; [reflexivity| |apply IH].
  destruct s as [|c s]; [reflexivity|]. destruct (p c); [apply IH|reflexivity].
Qed.

Lemma match_lit_items lit s : match_lit lit s = match_items (lit_items lit) s.
Proof.
  revert s. induction lit as [|c lit IH]; intros s; simpl; [reflexivity|].
  destruct s as [|d s]; [reflexivity|]. destruct (Ascii.eqb c d); [apply IH|reflexivity].
Qed.

Lemma match_count_items p n s : match_count p n s = match_items (repeat (Char p) n) s.
Proof.
  revert s. induction n as [|n IH]; intros s; simpl; [reflexivity|].
  destruct s as [|c s]; [reflexivity|]. destruct (p c); [apply IH|reflexivity].
Qed.

Lemma match_dot_items s : match_dot s = match_items [dot_item] s.
Proof.
  destruct s as [|c s]; simpl; [reflexivity|]. destruct (Ascii.eqb c "010"); reflexivity.
Qed.

Lemma match_digits5_items s : match_digits5 s = match_items digits5_items s.
Proof.
  unfold match_digits5, digits5_items.
  rewrite match_items_app, <- match_count_items.
  destruct (match_count is_digit 5 s); reflexivity.
Qed.

Lemma match_public_key_items s :
  match_public_key s = match_items public_key_items s.
Proof.
  unfold match_public_key, public_key_items.
  rewrite match_items_app, <- match_lit_items. apply opt_bind_ext. intros r1.
  rewrite match_items_app, <- match_dot_items. apply opt_bind_ext. intros r2.
  rewrite match_items_app, <- match_lit_items. apply opt_bind_ext. intros r3.
  rewrite match_items_app, <- match_count_items. apply opt_bind_ext. intros r4.
  apply match_lit_items.
Qed.

Lemma match_timestamps_items s :
  match_timestamps s = match_items timestamps_items s.
Proof.
  unfold match_timestamps, timestamps_items.
  rewrite match_items_app, <- match_lit_items. apply opt_bind_ext. intros r1.
  rewrite match_items_app, <- match_digits5_items. apply opt_bind_ext. intros r2.
  rewrite match_items_app, <- match_lit_items. apply opt_bind_ext. intros r3.
  apply match_digits5_items.
Qed.

Lemma occursb_ext m1 m2 s : (forall t, m1 t = m2 t) -> occursb m1 s = occursb m2 s.
Proof.
  intros H. induction s as [|c s IH]; simpl; rewrite H; [reflexivity|].
  destruct (m2 (String c s)); [reflexivity|exact IH].
Qed.

Lemma skip_while_app p u t :
  skip_while p u <> EmptyString -> skip_while p (u +:+ t) = skip_while p u +:+ t.
Proof.
  induction u as [|c u IH]; simpl; intros H; [congruence|].
  destruct (p c); [apply IH, H|reflexivity].
Qed.

Lemma clash_empty items : clash items EmptyString = false.
Proof. induction items as [|[p|p] items IH]; simpl; auto. Qed.

Lemma clash_none items u t : clash items u = true -> match_items items (u +:+ t) = None.
Proof.
  revert u. induction items as [|[p|p] items IH]; intros u H; simpl in *; [discriminate| |].
  - destruct u as [|c u]; [discriminate|]. simpl. destruct (p c); [apply IH, H|reflexivity].
  - rewrite skip_while_app; [apply IH, H|].
    intros E. rewrite E, clash_empty in H. discriminate.
Qed.

Lemma nullable_some items s : nullable items = true -> match_items items s <> None.
Proof.
  revert s. induction items as [|[p|p] items IH]; intros s H; simpl in *;
    [discriminate|discriminate|apply IH, H].
Qed.

Section Replacement.

Variable items : list Item.
Variable m' : string -> option string.
Variable rep : string.

Hypothesis items_straddle : straddle_free items rep = true.
Hypothesis items_inside : inside_free items rep = true.
Hypothesis items_nonempty : match_items items EmptyString = None.

Definition good (cur : list Item) : bool := nullable cur || clash cur rep.

Lemma good_drop i : good (drop i items) = true.
Proof.
  destruct (Nat.le_gt_cases i (length items)) as [Hi|Hi].
  - unfold straddle_free in items_straddle. rewrite forallb_forall in items_straddle.
    apply items_straddle. apply in_seq. lia.
  - rewrite drop_ge by lia. reflexivity.
Qed.

(** A match on a text that runs into the replacement lies before it. *)
Lemma straddle_state x y t cur :
  (forall i, good (drop i cur) = true) ->
  match_items cur (x +:+ (rep +:+ t)) <> None ->
  match_items cur (x +:+ y) <> None.
Proof.
  revert cur. induction x as [|c x IHx]; intros cur Hgood H.
  - change (match_items cur (rep +:+ t) <> None) in H.
    specialize (Hgood 0%nat). rewrite drop_0 in Hgood.
    unfold good in Hgood. apply orb_true_iff in Hgood as [Hn|Hc].
    + apply nullable_some, Hn.
    + exfalso. apply H. apply clash_none, Hc.
  - induction cur as [|[p|p] cur IHcur]; simpl in *; [discriminate| |].
    + destruct (p c); [|exact H].
      apply IHx; [|exact H]. intros i. apply (Hgood (S i)).
    + destruct (p c).
      * apply (IHx (Star p :: cur)); [exact Hgood|exact H].
      * apply IHcur; [|exact H]. intros i. apply (Hgood (S i)).
Qed.

Lemma inside_none k t :
  (k < String.length rep)%nat -> match_items items (drop_chars k rep +:+ t) = None.
Proof.
  intros Hk. apply clash_none.
  unfold inside_free in items_inside. rewrite forallb_forall in items_inside.
  apply items_inside. apply in_seq. lia.
Qed.

Definition free (s : string) : Prop := occursb (match_items items) s = false.

Lemma free_cons c s : match_items items (String c s) = None -> free s -> free (String c s).
Proof. unfold free. simpl. intros -> H. exact H. Qed.

Lemma drop_chars_all s : drop_chars (String.length s) s = EmptyString.
Proof. induction s as [|c s IH]; simpl; [reflexivity|exact IH]. Qed.

Lemma drop_chars_step k s c s' :
  drop_chars k s = String c s' -> drop_chars (S k) s = s'.
Proof.
  revert s. induction k as [|k IH]; intros s H; simpl in *.
  - subst s. reflexivity.
  - destruct s as [|d s]; [discriminate|]. apply IH, H.
Qed.

Lemma drop_chars_nonempty k s :
  (k < String.length s)%nat -> exists c s', drop_chars k s = String c s'.
Proof.
  revert s. induction k as [|k IH]; intros s H; destruct s as [|d s]; simpl in *; try lia.
  - eauto.
  - apply IH. lia.
Qed.

(** Nothing matches in the replacement text followed by a text without
    match. *)
Lemma free_after_replacement t : free t -> free (rep +:+ t).
Proof.
  intros Ht.
  assert (H : forall n k, (k + n = String.length rep)%nat -> free (drop_chars k rep +:+ t)).
  { induction n as [|n IH]; intros k Hk.
    - replace k with (String.length rep) by lia. rewrite drop_chars_all. exact Ht.
    - destruct (drop_chars_nonempty k rep) as (c & s' & E); [lia|].
      pose proof (inside_none k t ltac:(lia)) as Hnone.
      rewrite E in *. simpl in *. apply free_cons; [exact Hnone|].
      rewrite <- (drop_chars_step _ _ _ _ E). apply IH. lia. }
  apply (H (String.length rep) 0%nat). reflexivity.
Qed.

Lemma replace_skip k s :
  replace_from m' rep k s = replace_from m' rep 0 (drop_chars k s).
Proof.
  revert k. induction s as [|c s IH]; intros k; destruct k as [|k]; try reflexivity.
  simpl. apply IH.
Qed.

(** Up to its first replacement the result is the text itself. *)
Lemma replace_shape s :
  replace_from m' rep 0 s = s \/
  exists x y t, s = x +:+ y /\ replace_from m' rep 0 s = x +:+ (rep +:+ t).
Proof.
  induction s as [|c s IH]; simpl; [left; reflexivity|].
  destruct (m' (String c s)) as [rest|].
  - right. exists EmptyString, (String c s). eexists. split; reflexivity.
  - destruct IH as [E|(x & y & t & E1 & E2)].
    + left. rewrite E. reflexivity.
    + right. exists (String c x), y, t. rewrite E2. split; [rewrite E1|]; reflexivity.
Qed.

(** Wherever [m'] does not match in [s], the pattern does not either. *)
Fixpoint agrees (s : string) : Prop :=
  (m' s = None -> match_items items s = None) /\
  match s with
  | EmptyString => True
  | String _ s' => agrees s'
  end.

Lemma agrees_drop k s : agrees s -> agrees (drop_chars k s).
Proof.
  revert s. induction k as [|k IH]; intros s H; simpl; [exact H|].
  destruct s as [|c s]; [exact H|]. apply IH. destruct H as [_ H]. exact H.
Qed.

Lemma replaced_free s k : agrees s -> free (replace_from m' rep k s).
Proof.
  revert k. induction s as [|c s IH]; intros k Ha.
  - destruct k; unfold free; simpl; rewrite items_nonempty; reflexivity.
  - destruct k as [|k]; [|simpl; apply IH; destruct Ha as [_ Ha]; exact Ha].
    simpl. destruct (m' (String c s)) as [rest|] eqn:Em.
    + apply free_after_replacement. apply IH. destruct Ha as [_ Ha]. exact Ha.
    + destruct Ha as [Hhere Ha]. specialize (Hhere Em).
      apply free_cons; [|apply IH, Ha].
      destruct (replace_shape s) as [E|(x & y & t & E1 & E2)].
      * rewrite E. exact Hhere.
      * rewrite E2. destruct (match_items items (String c (x +:+ (rep +:+ t)))) eqn:Eo;
          [|reflexivity].
        exfalso. apply (straddle_state (String c x) y t items good_drop).
        -- change (match_items items (String c (x +:+ (rep +:+ t))) <> None).
           rewrite Eo. discriminate.
        -- change (match_items items (String c (x +:+ y)) = None).
           rewrite <- E1. exact Hhere.
Qed.

End Replacement.

Lemma agrees_same items s : agrees items (match_items items) s.
Proof. induction s as [|c s IH]; simpl; split; auto. Qed.

Lemma agrees_free items m' s : free items s -> agrees items m' s.
Proof.
  unfold free. induction s as [|c s IH]; simpl; intros H.
  - destruct (match_items items EmptyString); [discriminate|]. split; auto.
  - destruct (match_items items (String c s)); [discriminate|]. split; auto.
Qed.

Lemma replace_from_ext m1 m2 rep k s :
  (forall t, m1 t = m2 t) -> replace_from m1 rep k s = replace_from m2 rep k s.
Proof.
  intros H. revert k. induction s as [|c s IH]; intros k; simpl; [reflexivity|].
  destruct k; [|apply IH]. rewrite H. destruct (m2 (String c s)); rewrite IH; reflexivity.
Qed.

Definition public_key_placeholder : string := "char.public_key='<HERE IS PUBLIC KEY>'".
Definition timestamps_placeholder : string :=
  "timestamp BETWEEN <START HERE> AND <END HERE>".


Definition sample_key : string :=
  "0123456789ABCDEF0123456789ABCDEF0123456789ABCDEF0123456789ABCDEF".

Example anonymizeQuery_sample :
  anonymizeQuery ("SELECT * FROM history WHERE chat.public_key='" +:+ sample_key
                  +:+ "' AND timestamp BETWEEN 1500000000 AND 1600000000;")
  = "SELECT * FROM history WHERE char.public_key='<HERE IS PUBLIC KEY>' AND timestamp BETWEEN <START HERE> AND <END HERE>;".
Proof. vm_compute. reflexivity. Qed.




(** *** Text without a match, and anonymising twice *)

Lemma replace_no_match m rep s :
  occursb m s = false -> replace_from m rep 0 s = s.
Proof.
  induction s as [|c s IH]; simpl; intros H; [reflexivity|].
  destruct (m (String c s)); [discriminate|]. rewrite IH; [reflexivity|exact H].
Qed.



(** X22: anonymising an anonymised query changes nothing. *)
Theorem anonymizeQuery_idempotent query :
  anonymizeQuery (anonymizeQuery query) = anonymizeQuery query.
Proof.
  assert (F1 : free public_key_items
                 (replace_from match_public_key public_key_placeholder 0 query)).
  { rewrite (replace_from_ext _ (match_items public_key_items) _ _ _ match_public_key_items).
    apply replaced_free; [vm_compute; reflexivity..|apply agrees_same]. }
  assert (P1 : occursb match_public_key (anonymizeQuery query) = false).
  { rewrite (occursb_ext _ _ _ match_public_key_items).
    apply (replaced_free public_key_items match_timestamps timestamps_placeholder);
      [vm_compute; reflexivity..|]. apply agrees_free, F1. }
  assert (P2 : occursb match_timestamps (anonymizeQuery query) = false).
  { unfold anonymizeQuery, QString_replace.
    rewrite (occursb_ext _ _ _ match_timestamps_items).
    rewrite (replace_from_ext _ (match_items timestamps_items) _ _ _ match_timestamps_items).
    apply replaced_free; [vm_compute; reflexivity..|apply agrees_same]. }
  unfold anonymizeQuery at 1. unfold QString_replace.
  rewrite (replace_no_match _ _ _ P1). apply replace_no_match, P2.
Qed.

(** *** The scan from left to right *)

Definition item_accepts (i : Item) (c : ascii) : bool :=
  match i with Char p => p c | Star p => p c end.

(** A character that some item of the pattern accepts. *)
Definition accepts (items : list Item) (c : ascii) : bool :=
  existsb (fun i => item_accepts i c) items.

(** The text starts with no character that [p] accepts. *)
Definition stops (p : ascii -> bool) (s : string) : Prop :=
  match s with
  | EmptyString => True
  | String c _ => p c = false
  end.

Definition same_head (r r' : string) : Prop :=
  match r, r' with
  | EmptyString, EmptyString => True
  | String c _, String c' _ => c = c'
  | _, _ => False
  end.

Lemma app_cons (x : ascii) (a b : string) : String x a +:+ b = String x (a +:+ b).
Proof. reflexivity. Qed.

Lemma app_nil (b : string) : EmptyString +:+ b = b.
Proof. reflexivity. Qed.

Ltac app_simpl := rewrite ?app_cons, ?app_nil; cbn [all_chars skip_while String.length drop_chars].

Lemma app_assoc_string (a b c : string) : (a +:+ b) +:+ c = a +:+ (b +:+ c).
Proof. induction a as [|x a IH]; app_simpl; [reflexivity|]. f_equal. exact IH. Qed.

Lemma length_app_string (a b : string) :
  String.length (a +:+ b) = (String.length a + String.length b)%nat.
Proof. induction a as [|x a IH]; app_simpl; [reflexivity|]. rewrite IH. reflexivity. Qed.

Lemma drop_chars_app (a b : string) : drop_chars (String.length a) (a +:+ b) = b.
Proof. induction a as [|x a IH]; app_simpl; [destruct b; reflexivity|exact IH]. Qed.

Lemma all_chars_app p (a b : string) :
  all_chars p (a +:+ b) = all_chars p a && all_chars p b.
Proof.
  induction a as [|x a IH]; app_simpl; [reflexivity|]. rewrite IH, andb_assoc. reflexivity.
Qed.

Lemma all_chars_impl (p q : ascii -> bool) s :
  (forall c, p c = true -> q c = true) -> all_chars p s = true -> all_chars q s = true.
Proof.
  intros Hpq. induction s as [|c s IH]; cbn; [reflexivity|].
  intros H. apply andb_true_iff in H as [Hc Hs]. rewrite (Hpq c Hc), (IH Hs). reflexivity.
Qed.

Lemma skip_while_split p s :
  exists ds, s = ds +:+ skip_while p s /\ all_chars p ds = true /\ stops p (skip_while p s).
Proof.
  induction s as [|c s IH]; cbn.
  - exists EmptyString. repeat split.
  - destruct (p c) eqn:Ec.
    + destruct IH as (ds & E & Ha & Hs). exists (String c ds). app_simpl.
      split; [f_equal; exact E|]. split; [rewrite Ec, Ha; reflexivity|exact Hs].
    + exists EmptyString. app_simpl. repeat split. cbn. exact Ec.
Qed.

Lemma skip_while_past p ds s : all_chars p ds = true -> skip_while p (ds +:+ s) = skip_while p s.
Proof.
  induction ds as [|c ds IH]; app_simpl; [reflexivity|].
  intros H. apply andb_true_iff in H as [Hc Hs]. rewrite Hc. apply IH, Hs.
Qed.

Lemma skip_while_stopped p s : stops p s -> skip_while p s = s.
Proof. destruct s as [|c s]; cbn; [reflexivity|]. intros ->. reflexivity. Qed.

Lemma stops_same_head p r r' : same_head r r' -> stops p r -> stops p r'.
Proof. destruct r, r'; cbn; try tauto. intros ->. trivial. Qed.

Lemma stops_app p (a r r' : string) :
  same_head r r' -> stops p (a +:+ r) -> stops p (a +:+ r').
Proof. destruct a as [|c a]; app_simpl; [apply stops_same_head|trivial]. Qed.

(** A match consumes a text that the items accept, and it is the same match
    in front of every text that starts like the rest. *)
Lemma match_items_split items s r :
  match_items items s = Some r ->
  exists pre,
    s = pre +:+ r /\ all_chars (accepts items) pre = true /\
    forall r', same_head r r' -> match_items items (pre +:+ r') = Some r'.
Proof.
  revert s. induction items as [|[p|p] items IH]; intros s H; cbn in H.
  - inversion H; subst. exists EmptyString. repeat split.
  - destruct s as [|c s]; [discriminate|]. destruct (p c) eqn:Ec; [|discriminate].
    apply IH in H as (pre & E & Ha & Hr). exists (String c pre). app_simpl.
    split; [f_equal; exact E|]. split.
    + unfold accepts at 1. cbn. rewrite Ec. cbn.
      eapply all_chars_impl; [|exact Ha]. intros c' Hc'. unfold accepts. cbn.
      unfold accepts in Hc'. rewrite Hc'. apply orb_true_r.
    + intros r' Hh. rewrite app_cons. cbn. rewrite Ec. apply Hr, Hh.
  - destruct (skip_while_split p s) as (ds & E & Hd & Hs).
    apply IH in H as (pre & E' & Ha & Hr). exists (ds +:+ pre).
    split; [rewrite app_assoc_string, <- E'; exact E|]. split.
    + rewrite all_chars_app. apply andb_true_iff. split.
      * eapply all_chars_impl; [|exact Hd]. intros c' Hc'. unfold accepts. cbn.
        rewrite Hc'. reflexivity.
      * eapply all_chars_impl; [|exact Ha]. intros c' Hc'. unfold accepts. cbn.
        unfold accepts in Hc'. rewrite Hc'. apply orb_true_r.
    + intros r' Hh. cbn. rewrite app_assoc_string, (skip_while_past _ _ _ Hd).
      rewrite skip_while_stopped; [apply Hr, Hh|].
      rewrite E' in Hs. eapply stops_app; eassumption.
Qed.

(** A match at the head of the text is replaced, and the scan goes on behind
    it. *)
Lemma replace_head m rep c s pre r :
  m (String c s) = Some r -> s = pre +:+ r ->
  replace_from m rep 0 (String c s) = rep +:+ replace_from m rep 0 r.
Proof.
  intros Hm E. cbn. rewrite Hm. f_equal. rewrite replace_skip. f_equal.
  rewrite E, length_app_string.
  replace (String.length pre + String.length r - String.length r)%nat
    with (String.length pre) by lia.
  apply drop_chars_app.
Qed.

(** A text in which no match starts is kept. *)
Lemma replace_blind m rep x t :
  (forall k t', (k < String.length x)%nat -> m (drop_chars k x +:+ t') = None) ->
  replace_from m rep 0 (x +:+ t) = x +:+ replace_from m rep 0 t.
Proof.
  induction x as [|c x IH]; intros H; [reflexivity|].
  pose proof (H 0%nat t ltac:(cbn; lia)) as H0. cbn [drop_chars] in H0.
  rewrite !app_cons in *. cbn. rewrite H0. f_equal. apply IH.
  intros k t' Hk. apply (H (S k) t'). cbn. lia.
Qed.

Lemma all_chars_drop p k x c x' :
  all_chars p x = true -> drop_chars k x = String c x' -> p c = true.
Proof.
  revert x. induction k as [|k IH]; intros x Ha E; cbn in E.
  - subst x. cbn in Ha. apply andb_true_iff in Ha as [Hc _]. exact Hc.
  - destruct x as [|d x]; [discriminate|]. cbn in Ha.
    apply andb_true_iff in Ha as [_ Hx]. eapply IH; eassumption.
Qed.

(** No match starts in a text none of whose characters can start one. *)
Lemma blind_by_first_char p0 items q x :
  all_chars q x = true -> (forall c, q c = true -> p0 c = false) ->
  forall k t', (k < String.length x)%nat ->
    match_items (Char p0 :: items) (drop_chars k x +:+ t') = None.
Proof.
  intros Ha Hq k t' Hk.
  destruct (drop_chars_nonempty k x Hk) as (c & x' & E). rewrite E, app_cons. cbn.
  rewrite (Hq c); [reflexivity|]. eapply all_chars_drop; eassumption.
Qed.


Lemma replace_same_head m rep c0 rep' s :
  rep = String c0 rep' ->
  (forall c s' r, m (String c s') = Some r -> c = c0) ->
  same_head s (replace_from m rep 0 s).
Proof.
  intros -> Hm. destruct s as [|c s]; cbn; [trivial|].
  destruct (m (String c s)) eqn:E; cbn; [|reflexivity].
  eapply Hm, E.
Qed.

Lemma public_key_starts_with_c c s r : match_public_key (String c s) = Some r -> c = "c"%char.
Proof.
  unfold match_public_key. cbn [match_lit opt_bind].
  destruct (Ascii.eqb_spec "c" c) as [<-|]; [reflexivity|].
  cbn [opt_bind]. discriminate.
Qed.


Lemma timestamps_accept_no_c c :
  accepts timestamps_items c = true -> Ascii.eqb "c" c = false.
Proof.
  intros H. destruct (Ascii.eqb_spec "c" c) as [<-|]; [|reflexivity].
  vm_compute in H. discriminate.
Qed.

Lemma timestamps_at_head s r :
  match_timestamps s = Some r ->
  anonymizeQuery s = timestamps_placeholder +:+ anonymizeQuery r.
Proof.
  intros H. pose proof H as Hi. rewrite match_timestamps_items in Hi.
  destruct s as [|c s]; [discriminate|].
  change timestamps_items with (Char (Ascii.eqb "t") :: tl timestamps_items) in Hi.
  cbn [match_items] in Hi. destruct (Ascii.eqb "t" c) eqn:Ec; [|discriminate].
  apply match_items_split in Hi as (pre & E & Ha & Hr).
  unfold anonymizeQuery, QString_replace.
  set (R1 := replace_from match_public_key "char.public_key='<HERE IS PUBLIC KEY>'" 0).
  assert (E1 : R1 (String c s) = String c pre +:+ R1 r).
  { rewrite E. change (String c (pre +:+ r)) with (String c pre +:+ r).
    apply replace_blind. intros k t' Hk. rewrite match_public_key_items.
    change public_key_items with (Char (Ascii.eqb "c") :: tl public_key_items).
    apply (blind_by_first_char _ _ (accepts timestamps_items)); [|apply timestamps_accept_no_c|exact Hk].
    cbn [all_chars]. apply andb_true_iff. split.
    - unfold accepts. change timestamps_items with (Char (Ascii.eqb "t") :: tl timestamps_items).
      cbn [existsb item_accepts]. rewrite Ec. reflexivity.
    - eapply all_chars_impl; [|exact Ha]. intros c' Hc'. unfold accepts in *.
      change timestamps_items with (Char (Ascii.eqb "t") :: tl timestamps_items).
      cbn [existsb]. rewrite Hc'. apply orb_true_r. }
  rewrite E1. rewrite app_cons.
  apply (replace_head match_timestamps _ c (pre +:+ R1 r) pre (R1 r)); [|reflexivity].
  rewrite match_timestamps_items.
  change timestamps_items with (Char (Ascii.eqb "t") :: tl timestamps_items).
  cbn [match_items]. rewrite Ec. apply Hr.
  apply (replace_same_head _ _ "c"%char "har.public_key='<HERE IS PUBLIC KEY>'");
    [reflexivity|apply public_key_starts_with_c].
Qed.


Lemma match_lit_app lit r : match_lit lit (lit +:+ r) = Some r.
Proof.
  induction lit as [|c lit IH]; [destruct r; reflexivity|].
  rewrite app_cons. cbn [match_lit]. rewrite Ascii.eqb_refl. exact IH.
Qed.



Lemma match_digits5_all a r :
  (5 <= String.length a)%nat -> all_chars is_digit a = true -> stops is_digit r ->
  match_digits5 (a +:+ r) = Some r.
Proof.
  intros Hlen Ha Hr. unfold match_digits5.
  do 5 (destruct a as [|? a]; [cbn [String.length] in Hlen; lia|]).
  cbn [all_chars] in Ha. do 5 (apply andb_true_iff in Ha as [?Hc Ha]).
  rewrite !app_cons. cbn [match_count]. rewrite Hc, Hc0, Hc1, Hc2, Hc3.
  rewrite skip_while_past by exact Ha. rewrite skip_while_stopped by exact Hr. reflexivity.
Qed.

(** X25: a range [timestamp BETWEEN a AND b] of two numbers of five digits
    or more is replaced by the placeholder, whatever the numbers, and what
    follows it is anonymised in the same way. *)
Theorem timestamps_are_replaced a b rest :
  (5 <= String.length a)%nat -> all_chars is_digit a = true ->
  (5 <= String.length b)%nat -> all_chars is_digit b = true ->
  stops is_digit rest ->
  anonymizeQuery ("timestamp BETWEEN " +:+ a +:+ " AND " +:+ b +:+ rest)
  = "timestamp BETWEEN <START HERE> AND <END HERE>" +:+ anonymizeQuery rest.
Proof.
  intros La Ha Lb Hb Hr. apply timestamps_at_head.
  unfold match_timestamps. rewrite match_lit_app. cbn [opt_bind].
  rewrite (match_digits5_all a) by (try assumption; reflexivity). cbn [opt_bind].
  rewrite match_lit_app. cbn [opt_bind].
  apply match_digits5_all; assumption.
Qed.



Lemma sample_range_is_replaced :
  anonymizeQuery ("timestamp BETWEEN " +:+ "1500000000" +:+ " AND " +:+ "1600000000" +:+ ";")
  = "timestamp BETWEEN <START HERE> AND <END HERE>" +:+ anonymizeQuery ";".
Proof.
  apply (timestamps_are_replaced "1500000000" "1600000000" ";");
    [cbn; lia|reflexivity|cbn; lia|reflexivity|reflexivity].
Defined.
End Anonymisation.

(** ** The search settings form

    [SearchSettingsForm]: the widgets are modelled by the properties the
    code reads and writes (checked, enabled, current index, text, the
    [state] property), the signal [updateSettings] by the list of the values
    emitted so far.  A [QDate] is the number of its day, the null date is
    [None]. *)

Module SearchSettings.

Inductive FilterSearch :=
| FilterNone
| Register
| WordsOnly
| Regular
| RegisterAndWordsOnly
| RegisterAndRegular.

Inductive PeriodSearch :=
| WithTheEnd
| WithTheFirst
| AfterDate
| BeforeDate.

Record ParameterSearch := mkParameterSearch {
  filter : FilterSearch;
  period : PeriodSearch;
  date : option Z;
  isUpdate : bool
}.

Record Form := mkForm {
  regularRadioButton : bool;
  registerCheckBox : bool;
  wordsOnlyRadioButton : bool;
  startSearchComboBox : Z;
  choiceDateButton_enabled : bool;
  choiceDateButton_state : string;
  startDateLabel_enabled : bool;
  startDateLabel_text : string;
  startDate : option Z;
  form_isUpdate : bool;
  updateSettings : list bool
}.

Section Form.

(** [QDate::currentDate()], [QDate::toString] with the format of the
    settings, and the date picked in the dialog ([None]: it was dismissed). *)
Variable currentDate : Z.
Variable toString : option Z -> string.

Definition getParameterSearch (f : Form) : ParameterSearch * Form :=
  let filter :=
    if regularRadioButton f then Regular
    else if registerCheckBox f && wordsOnlyRadioButton f then RegisterAndWordsOnly
    else if registerCheckBox f && regularRadioButton f then RegisterAndRegular
    else if registerCheckBox f then Register
    else if wordsOnlyRadioButton f then WordsOnly
    else FilterNone in
  let period :=
    if startSearchComboBox f =? 0 then WithTheEnd
    else if startSearchComboBox f =? 1 then WithTheFirst
    else if startSearchComboBox f =? 2 then AfterDate
    else if startSearchComboBox f =? 3 then BeforeDate
    else WithTheEnd in
  (mkParameterSearch filter period (startDate f) (form_isUpdate f),
   mkForm (regularRadioButton f) (registerCheckBox f) (wordsOnlyRadioButton f)
     (startSearchComboBox f) (choiceDateButton_enabled f) (choiceDateButton_state f)
     (startDateLabel_enabled f) (startDateLabel_text f) (startDate f) false
     (updateSettings f)).

Definition updateStartDateLabel (f : Form) : Form :=
  mkForm (regularRadioButton f) (registerCheckBox f) (wordsOnlyRadioButton f)
    (startSearchComboBox f) (choiceDateButton_enabled f) (choiceDateButton_state f)
    (startDateLabel_enabled f) (toString (startDate f)) (startDate f) (form_isUpdate f)
    (updateSettings f).

Definition setUpdate (isUpdate_ : bool) (f : Form) : Form :=
  mkForm (regularRadioButton f) (registerCheckBox f) (wordsOnlyRadioButton f)
    (startSearchComboBox f) (choiceDateButton_enabled f) (choiceDateButton_state f)
    (startDateLabel_enabled f) (startDateLabel_text f) (startDate f) isUpdate_
    (updateSettings f ++ [isUpdate_]).

Definition set_startDate (d : option Z) (f : Form) : Form :=
  mkForm (regularRadioButton f) (registerCheckBox f) (wordsOnlyRadioButton f)
    (startSearchComboBox f) (choiceDateButton_enabled f) (choiceDateButton_state f)
    (startDateLabel_enabled f) (startDateLabel_text f) d (form_isUpdate f)
    (updateSettings f).

Definition set_date_widgets (enabled : bool) (state : string) (f : Form) : Form :=
  mkForm (regularRadioButton f) (registerCheckBox f) (wordsOnlyRadioButton f)
    (startSearchComboBox f) enabled state enabled (startDateLabel_text f) (startDate f)
    (form_isUpdate f) (updateSettings f).

Definition onStartSearchSelected (index : Z) (f : Form) : Form :=
  let f :=
    if 1 <? index then
      let f := set_date_widgets true "green" f in
      match startDate f with
      | None => updateStartDateLabel (set_startDate (Some currentDate) f)
      | Some _ => f
      end
    else set_date_widgets false EmptyString f in
  setUpdate true f.

Definition onRegisterClicked (checked : bool) (f : Form) : Form :=
  setUpdate true f.

Definition onWordsOnlyClicked (checked : bool) (f : Form) : Form :=
  let f :=
    if checked then
      mkForm false (registerCheckBox f) (wordsOnlyRadioButton f)
        (startSearchComboBox f) (choiceDateButton_enabled f) (choiceDateButton_state f)
        (startDateLabel_enabled f) (startDateLabel_text f) (startDate f) (form_isUpdate f)
        (updateSettings f)
    else f in
  setUpdate true f.

Definition onRegularClicked (checked : bool) (f : Form) : Form :=
  let f :=
    if checked then
      mkForm (regularRadioButton f) (registerCheckBox f) false
        (startSearchComboBox f) (choiceDateButton_enabled f) (choiceDateButton_state f)
        (startDateLabel_enabled f) (startDateLabel_text f) (startDate f) (form_isUpdate f)
        (updateSettings f)
    else f in
  setUpdate true f.

(** [picked]: the date of the dialog when it was accepted. *)
Definition onChoiceDate (picked : option (option Z)) (f : Form) : Form :=
  let f :=
    match picked with
    | Some d => updateStartDateLabel (set_startDate d f)
    | None => f
    end in
  setUpdate true f.

(** The slots of the form. *)
Inductive Slot :=
| StartSearchSelected (index : Z)
| RegisterClicked (checked : bool)
| WordsOnlyClicked (checked : bool)
| RegularClicked (checked : bool)
| ChoiceDate (picked : option (option Z)).

Definition run (s : Slot) (f : Form) : Form :=
  match s with
  | StartSearchSelected index => onStartSearchSelected index f
  | RegisterClicked checked => onRegisterClicked checked f
  | WordsOnlyClicked checked => onWordsOnlyClicked checked f
  | RegularClicked checked => onRegularClicked checked f
  | ChoiceDate picked => onChoiceDate picked f
  end.

(** X26: [getParameterSearch] never answers [RegisterAndRegular]: with the
    regular-expression button checked the filter is [Regular] whatever the
    case box says.  The period is [WithTheEnd] for every index of the combo
    box but 1, 2 and 3. *)
Theorem getParameterSearch_filter_and_period f :
  let ps := fst (getParameterSearch f) in
  filter ps <> RegisterAndRegular /\
  (regularRadioButton f = true <-> filter ps = Regular) /\
  (startSearchComboBox f <> 1 -> startSearchComboBox f <> 2 ->
   startSearchComboBox f <> 3 -> period ps = WithTheEnd).
Proof.
  unfold getParameterSearch. simpl.
  split; [|split].
  - destruct (regularRadioButton f), (registerCheckBox f), (wordsOnlyRadioButton f);
      simpl; discriminate.
  - destruct (regularRadioButton f), (registerCheckBox f), (wordsOnlyRadioButton f);
      simpl; split; congruence.
  - intros H1 H2 H3.
    destruct (Z.eqb_spec (startSearchComboBox f) 0); [reflexivity|].
    destruct (Z.eqb_spec (startSearchComboBox f) 1); [contradiction|].
    destruct (Z.eqb_spec (startSearchComboBox f) 2); [contradiction|].
    destruct (Z.eqb_spec (startSearchComboBox f) 3); [contradiction|reflexivity].
Qed.

(** X27: the update flag is handed out once.  Every slot of the form sets it
    and emits [updateSettings(true)]; the next [getParameterSearch] reports
    it and clears it, so that the one after reports false, with the same
    filter, period and date. *)
Theorem update_flag_is_handed_out_once s f :
  let f1 := run s f in
  let (ps1, f2) := getParameterSearch f1 in
  let (ps2, f3) := getParameterSearch f2 in
  updateSettings f1 = updateSettings f ++ [true] /\
  isUpdate ps1 = true /\ isUpdate ps2 = false /\
  filter ps2 = filter ps1 /\ period ps2 = period ps1 /\ date ps2 = date ps1 /\
  updateSettings f3 = updateSettings f1.
Proof.
  destruct s as [index|checked|checked|checked|picked]; simpl.
  - unfold onStartSearchSelected. destruct (1 <? index); [destruct (startDate _)|];
      repeat split.
  - repeat split.
  - destruct checked; repeat split.
  - destruct checked; repeat split.
  - destruct picked; repeat split.
Qed.

(** X28: choosing where the search starts.  The date button and its label
    are enabled exactly for an index above 1; for such an index a start date
    that was null becomes the current date (and the label shows it), a start
    date that was set is kept; for the other indexes the date is left as it
    is. *)
Theorem onStartSearchSelected_date index f :
  let f' := onStartSearchSelected index f in
  choiceDateButton_enabled f' = (1 <? index) /\
  startDateLabel_enabled f' = (1 <? index) /\
  (1 < index -> startDate f' <> None) /\
  (1 < index -> startDate f = None ->
   startDate f' = Some currentDate /\ startDateLabel_text f' = toString (Some currentDate)) /\
  (startDate f <> None -> startDate f' = startDate f) /\
  (index <= 1 -> startDate f' = startDate f /\ choiceDateButton_state f' = EmptyString).
Proof.
  unfold onStartSearchSelected. simpl.
  destruct (Z.ltb_spec 1 index) as [Hi|Hi]; simpl.
  - destruct (startDate f) as [d|] eqn:Hd; simpl; rewrite ?Hd;
      repeat split; try congruence; try lia.
  - repeat split; try congruence; try lia.
Qed.

End Form.

End SearchSettings.
